(** * haste: layer-normalization forward kernel and GRU inference harness

    A shallow embedding of

    - [lib/layer_norm_forward_gpu.cu.cc]: the CUDA kernel [LayerNorm] and its
      launcher [ForwardPass<T>::Run];
    - [examples/gru.cc]: the host function [GruInference], the class
      [ScopeTimer] and [main].

    The kernel is a template over the element type [T], instantiated at
    [float] and [double]. Here [T] is any type with the operations the kernel
    uses ([Scalar]); [float_scalar] is IEEE binary64 ([double]), with every
    operation rounded. The statements about what the kernel computes assume no
    law of arithmetic. Addition without rounding ([ExactAdd]) holds for
    neither [float] nor [double]; it is a hypothesis only of the parts that say
    what the kernel's order of additions amounts to in exact arithmetic. C++
    [int] and [unsigned] values are integers with their 32-bit wrap-around
    written out; [in_range] and [wf_launch] are the sizes for which nothing
    wraps.

    A thread block runs in segments, a segment being the code between two
    [__syncthreads()]. Within a segment the threads of the block are run one
    after the other, each thread's part of the segment as a whole, in the
    order of their linear index. In every segment a thread writes its own
    cell of [shared] or its own elements of [y] only, and reads no cell that
    another thread writes in that segment ([run_segment_cells_order]); all
    workers of a row store the same two values to the same two elements of
    [cache]. Any other order of the threads of a block, also a different one
    in each segment, gives the same buffers ([run_block_any_order],
    [run_segments_in]); runs in which the accesses of two threads alternate
    within a segment are not modelled. Blocks share nothing but the buffers
    and are run one after the other. An access outside a buffer ends the run
    with [Fault]. *)

From Stdlib Require Import Floats Uint63 String ZArith Lia List.
From stdpp Require Import base tactics option list list_numbers.

Local Open Scope Z_scope.

(** ** 32-bit integers *)

Module Int32.

Definition INT_MAX : Z := 2147483647.
Definition INT_MIN : Z := -2147483648.
Definition UINT_MOD : Z := 4294967296.

(** Conversion of an integer value to [unsigned]. *)
Definition to_uint (z : Z) : Z := z mod UINT_MOD.

(** Conversion of an integer value to [int] (two's complement). *)
Definition to_int (z : Z) : Z := (z + 2147483648) mod UINT_MOD - 2147483648.

Definition int_add (a b : Z) : Z := to_int (a + b).
Definition int_mul (a b : Z) : Z := to_int (a * b).
(** [a / 2] on [int] truncates towards zero. *)
Definition int_half (a : Z) : Z := Z.quot a 2.
Definition uint_add (a b : Z) : Z := to_uint (a + b).
Definition uint_sub (a b : Z) : Z := to_uint (a - b).
Definition uint_mul (a b : Z) : Z := to_uint (a * b).
Definition uint_div (a b : Z) : Z := Z.quot a b.

Definition in_int (z : Z) : Prop := INT_MIN <= z <= INT_MAX.

End Int32.
Import Int32.

(** ** The element type [T] *)

(** The operations of [T] that the kernel uses. *)
Class Scalar (T : Type) : Type := {
  s_zero : T;                 (* static_cast<T>(0.0) *)
  s_eps : T;                  (* static_cast<T>(1e-5) *)
  s_add : T -> T -> T;
  s_sub : T -> T -> T;
  s_mul : T -> T -> T;
  s_div : T -> T -> T;
  s_rsqrt : T -> T;
  s_of_int : Z -> T           (* the conversion int -> T in [v / hidden_size] *)
}.

Declare Scope scalar_scope.
Delimit Scope scalar_scope with S.
Infix "⊕" := s_add (at level 50, left associativity) : scalar_scope.
Infix "⊖" := s_sub (at level 50, left associativity) : scalar_scope.
Infix "⊗" := s_mul (at level 40, left associativity) : scalar_scope.
Infix "⊘" := s_div (at level 40, left associativity) : scalar_scope.
Local Open Scope scalar_scope.

(** Addition without rounding: a commutative monoid. Neither [float] nor
    [double] has it ([float_not_exact]); the integers and the reals do. *)
Class ExactAdd (T : Type) `{Scalar T} : Prop := {
  s_add_assoc : forall a b c : T, a ⊕ (b ⊕ c) = (a ⊕ b) ⊕ c;
  s_add_comm : forall a b : T, a ⊕ b = b ⊕ a;
  s_add_0_l : forall a : T, s_zero ⊕ a = a
}.

(** ** Results of device code *)

Inductive result (A : Type) : Type :=
| Ok (a : A)
| Fault       (* an access outside a buffer *)
| OutOfFuel.   (* a loop did not finish within its fuel *)
Arguments Ok {A} a.
Arguments Fault {A}.
Arguments OutOfFuel {A}.

Global Instance result_ret : MRet result := fun A a => Ok a.
Global Instance result_bind : MBind result := fun A B f m =>
  match m with
  | Ok a => f a
  | Fault => Fault
  | OutOfFuel => OutOfFuel
  end.

(** [a[i]] and [a[i] = v] on a buffer of [length a] elements. *)
Definition ld {A} (a : list A) (i : Z) : result A :=
  if (i <? 0) then Fault
  else match a !! Z.to_nat i with
       | Some v => Ok v
       | None => Fault
       end.

Definition st {A} (a : list A) (i : Z) (v : A) : result (list A) :=
  if (0 <=? i) && (i <? Z.of_nat (length a)) then Ok (<[Z.to_nat i := v]> a)
  else Fault.

(** ** The kernel [LayerNorm] *)

Module LayerNorm.
Section Kernel.
Context {T : Type} `{Scalar T}.

(** The five device buffers the kernel's pointer arguments refer to. *)
Record device : Type := Device {
  d_alpha : list T;
  d_beta : list T;
  d_x : list T;
  d_y : list T;
  d_cache : list T
}.

(** Launch configuration ([gridDim.y], [gridDim.z] and [blockDim.z] are 1). *)
Record launch : Type := Launch {
  gridDim_x : Z;
  blockDim_x : Z;
  blockDim_y : Z;
  shared_elems : Z          (* shared_mem_size / sizeof(T) *)
}.

Record thread : Type := Thread {
  blockIdx_x : Z;
  threadIdx_x : Z;
  threadIdx_y : Z
}.

(** What a thread block sees between two barriers: global memory and the
    block's [shared] array. *)
Record bstate : Type := BState {
  dev : device;
  shared : list T
}.

Section Thread.
Variable l : launch.
Variable hidden_size : Z.
Variable t : thread.

(** Lines 30 and 36-39. *)
Definition batch : Z :=
  to_int (uint_add (uint_mul (blockDim_x l) (blockIdx_x t)) (threadIdx_x t)).
Definition index : Z := to_int (threadIdx_y t).
Definition stride : Z := to_int (blockDim_y l).
Definition batch_idx : Z := int_mul batch hidden_size.
Definition batch_block_idx : Z := to_int (uint_mul (threadIdx_x t) (to_uint stride)).

(** [for (int i = index; i < hidden_size; i += stride) body] *)
Fixpoint for_strided {A} (fuel : nat) (i : Z) (body : Z -> A -> result A) (a : A)
  : result A :=
  if i <? hidden_size then
    match fuel with
    | O => OutOfFuel
    | S fuel' =>
        a' ← body i a;
        for_strided fuel' (int_add i stride) body a'
    end
  else Ok a.

(** The loops run at most [hidden_size] times when [stride] is positive. *)
Definition loop_fuel : nat := Z.to_nat hidden_size.

(** Lines 44-47: reduce sum, up to the first barrier. The thread-local [mean]
    is not yet assigned. *)
Definition seg_sum (mean : T) (s : bstate) : result (T * bstate) :=
  sum ← for_strided loop_fuel index
          (fun i sum => v ← ld (d_x (dev s)) (int_add batch_idx i); Ok (sum ⊕ v))
          s_zero;
  sh ← st (shared s) (int_add batch_block_idx index) sum;
  Ok (mean, BState (dev s) sh).

(** Lines 51-52: the body of one round of the tree reduction. *)
Definition seg_tree (s' : Z) (mean : T) (s : bstate) : result (T * bstate) :=
  if index <? s' then
    a ← ld (shared s) (int_add batch_block_idx index);
    b ← ld (shared s) (int_add (int_add batch_block_idx index) s');
    sh ← st (shared s) (int_add batch_block_idx index) (a ⊕ b);
    Ok (mean, BState (dev s) sh)
  else Ok (mean, s).

(** Line 57. *)
Definition seg_mean (mean : T) (s : bstate) : result (T * bstate) :=
  v ← ld (shared s) batch_block_idx;
  Ok (v ⊘ s_of_int hidden_size, s).

(** Lines 61-66: reduce squared difference. *)
Definition seg_sumsq (mean : T) (s : bstate) : result (T * bstate) :=
  sumsq ← for_strided loop_fuel index
            (fun i sumsq =>
               v ← ld (d_x (dev s)) (int_add batch_idx i);
               let diff := v ⊖ mean in
               Ok (sumsq ⊕ diff ⊗ diff))
            s_zero;
  sh ← st (shared s) (int_add batch_block_idx index) sumsq;
  Ok (mean, BState (dev s) sh).

(** Lines 75-81. *)
Definition seg_out (mean : T) (s : bstate) : result (T * bstate) :=
  v ← ld (shared s) batch_block_idx;
  let invstd := s_rsqrt (v ⊘ s_of_int hidden_size ⊕ s_eps) in
  d ← for_strided loop_fuel index
        (fun i d =>
           xv ← ld (d_x d) (int_add batch_idx i);
           a ← ld (d_alpha d) i;
           b ← ld (d_beta d) i;
           y' ← st (d_y d) (int_add batch_idx i) ((xv ⊖ mean) ⊗ invstd ⊗ a ⊕ b);
           Ok (Device (d_alpha d) (d_beta d) (d_x d) y' (d_cache d)))
        (dev s);
  c0 ← st (d_cache d) (int_add (int_mul batch 2) 0) mean;
  c1 ← st c0 (int_add (int_mul batch 2) 1) invstd;
  Ok (mean, BState (Device (d_alpha d) (d_beta d) (d_x d) (d_y d) c1) (shared s)).

End Thread.

(** A segment is the code a thread runs between two barriers; it may update
    the thread's local [mean]. *)
Definition segment : Type := thread -> T -> bstate -> result (T * bstate).

(** The rounds [s, s >> 1, ..., 1] of [for (...; s > 0; s >>= 1)]: shifting a
    positive number right drops its last binary digit. *)
Fixpoint tree_from (l : launch) (s : positive) : list segment :=
  (fun t => seg_tree l t (Z.pos s)) ::
  match s with
  | xH => []
  | xO q | xI q => tree_from l q
  end.

(** Lines 50-54 and 69-73: [for (int s = stride / 2; s > 0; s >>= 1)]. The
    loop bounds are the same for all threads of a block. *)
Definition tree_segs (l : launch) : list segment :=
  match int_half (to_int (blockDim_y l)) with
  | Z.pos p => tree_from l p
  | _ => []
  end.

(** Lines 44-54: the first reduction, cut at its barriers. *)
Definition phase1 (l : launch) (hidden_size : Z) : list segment :=
  (fun t => seg_sum l hidden_size t) :: tree_segs l.

(** Lines 61-73: the second reduction. *)
Definition phase2 (l : launch) (hidden_size : Z) : list segment :=
  (fun t => seg_sumsq l hidden_size t) :: tree_segs l.

(** The kernel body after the guard of lines 31-32, cut at its barriers. *)
Definition kernel_segments (l : launch) (hidden_size : Z) : list segment :=
  phase1 l hidden_size
  ++ [fun t => seg_mean l hidden_size t]
  ++ phase2 l hidden_size
  ++ [fun t => seg_out l hidden_size t].

(** One segment run by the threads of a block, one thread after the other. *)
Fixpoint run_segment (seg : segment) (ths : list (thread * T)) (s : bstate)
  : result (list (thread * T) * bstate) :=
  match ths with
  | [] => Ok ([], s)
  | (t, m) :: ths' =>
      r ← seg t m s;
      r' ← run_segment seg ths' r.2;
      Ok ((t, r.1) :: r'.1, r'.2)
  end.

Fixpoint run_segments (segs : list segment) (ths : list (thread * T)) (s : bstate)
  : result (list (thread * T) * bstate) :=
  match segs with
  | [] => Ok (ths, s)
  | seg :: segs' =>
      r ← run_segment seg ths s;
      run_segments segs' r.1 r.2
  end.

(** The threads of block [b] in the order of their linear thread index
    [threadIdx.x + threadIdx.y * blockDim.x]. *)
Definition block_threads (l : launch) (b : Z) : list thread :=
  ty ← seqZ 0 (blockDim_y l);
  tx ← seqZ 0 (blockDim_x l);
  [Thread b tx ty].

(** Lines 31-32: a thread whose row is past the batch returns at once. *)
Definition active (l : launch) (batch_size : Z) (t : thread) : bool :=
  negb (batch_size <=? batch l t).

(** One thread block. [sh0] is what the block's shared memory holds when the
    block starts; a thread's local [mean] starts as [m0]. Both are garbage. *)
Definition run_block (l : launch) (batch_size hidden_size : Z)
    (sh0 : Z -> T) (m0 : T) (b : Z) (d : device) : result device :=
  let ths := filter (fun t => active l batch_size t = true) (block_threads l b) in
  r ← run_segments (kernel_segments l hidden_size)
        ((fun t => (t, m0)) <$> ths)
        (BState d (sh0 <$> seqZ 0 (shared_elems l)));
  Ok (dev r.2).

Fixpoint run_blocks (l : launch) (batch_size hidden_size : Z)
    (sh0 : Z -> Z -> T) (m0 : T) (bs : list Z) (d : device) : result device :=
  match bs with
  | [] => Ok d
  | b :: bs' =>
      d' ← run_block l batch_size hidden_size (sh0 b) m0 b d;
      run_blocks l batch_size hidden_size sh0 m0 bs' d'
  end.

(** [LayerNorm<T><<<gridDim, blockDim, shared_mem_size, stream>>>(...)] *)
Definition LayerNorm (l : launch) (batch_size hidden_size : Z)
    (sh0 : Z -> Z -> T) (m0 : T) (d : device) : result device :=
  run_blocks l batch_size hidden_size sh0 m0 (seqZ 0 (gridDim_x l)) d.

(** [ForwardPass<T>::Run], lines 104-115. *)
Definition Run (batch_size_ hidden_size_ : Z)
    (sh0 : Z -> Z -> T) (m0 : T) (d : device) : result device :=
  let blockDim_x := 4 in
  let blockDim_y := 256 in
  let gridDim_x :=
    uint_div (uint_sub (uint_add (to_uint batch_size_) blockDim_x) 1) blockDim_x in
  let shared_mem_elems := blockDim_x * blockDim_y in
  LayerNorm (Launch gridDim_x blockDim_x blockDim_y shared_mem_elems)
    batch_size_ hidden_size_ sh0 m0 d.

(** *** Preconditions

    The launches on which every [int] and [unsigned] computation of the kernel
    stays in range, and the buffers have the sizes the kernel assumes. *)

Record wf_launch (l : launch) (batch_size hidden_size : Z) : Prop := {
  wf_bdx : 0 < blockDim_x l;
  wf_bdy : 0 < blockDim_y l;
  wf_shared : blockDim_x l * blockDim_y l <= shared_elems l;
  wf_shared_int : blockDim_x l * blockDim_y l <= INT_MAX;
  wf_grid_int : gridDim_x l * blockDim_x l <= INT_MAX + 1;
  wf_bs : 0 <= batch_size;
  wf_hs : 0 <= hidden_size;
  wf_x_int : batch_size * hidden_size <= INT_MAX;
  wf_cache_int : 2 * batch_size <= INT_MAX + 1;
  wf_loop_int : hidden_size + blockDim_y l <= INT_MAX + 1
}.

(** The same for the launch that [Run] makes. *)
Definition in_range (batch_size hidden_size : Z) : Prop :=
  0 <= batch_size /\ 0 <= hidden_size /\
  batch_size * hidden_size <= INT_MAX /\
  2 * batch_size <= INT_MAX + 1 /\
  hidden_size + 256 <= INT_MAX + 1.

(** [alpha] and [beta] hold [hidden_size] elements, [x] and [y] hold
    [batch_size * hidden_size], [cache] holds [2 * batch_size]. *)
Definition fits (batch_size hidden_size : Z) (d : device) : Prop :=
  Z.of_nat (length (d_alpha d)) = hidden_size /\
  Z.of_nat (length (d_beta d)) = hidden_size /\
  Z.of_nat (length (d_x d)) = batch_size * hidden_size /\
  Z.of_nat (length (d_y d)) = batch_size * hidden_size /\
  Z.of_nat (length (d_cache d)) = 2 * batch_size.

(** The threads of block [b]. *)
Definition in_block (l : launch) (b : Z) (t : thread) : Prop :=
  blockIdx_x t = b /\ 0 <= threadIdx_x t < blockDim_x l
  /\ 0 <= threadIdx_y t < blockDim_y l.

(** The threads [ths] with their local [mean]. *)
Definition with_mean (Mf : thread -> T) (ths : list thread) : list (thread * T) :=
  (fun t => (t, Mf t)) <$> ths.

(** [alpha], [beta] and [x] are the same in [d] and [d']. *)
Definition inputs_eq (d d' : device) : Prop :=
  d_alpha d' = d_alpha d /\ d_beta d' = d_beta d /\ d_x d' = d_x d.

(** A segment that leaves the inputs alone. *)
Definition frame_seg (seg : segment) : Prop :=
  forall t m s m' s', seg t m s = Ok (m', s') -> inputs_eq (dev s) (dev s').

(** [d'] differs from [d] in the contents of [y] and [cache] at most. *)
Definition same_inputs (d d' : device) : Prop :=
  d_alpha d' = d_alpha d /\ d_beta d' = d_beta d /\ d_x d' = d_x d
  /\ length (d_y d') = length (d_y d)
  /\ length (d_cache d') = length (d_cache d).

(** The cell of [shared] that a thread owns, [batch_block_idx + index]. *)
Definition cell (l : launch) (t : thread) : Z :=
  threadIdx_x t * blockDim_y l + threadIdx_y t.

End Kernel.

Arguments device : clear implicits.
Arguments bstate : clear implicits.
Arguments segment : clear implicits.

End LayerNorm.

(** ** A functional model of one row

    What the kernel computes for a row, as a function of the row alone. The
    row is given by its accessor [f], [f i] being [x[batch_idx + i]]; [n] is
    the number of workers of the row ([stride]). The operations are applied in
    the order in which the kernel applies them, so that no law of arithmetic is
    needed to relate the two. *)

Module RowModel.
Section RowModel.
Context {T : Type} `{Scalar T}.

(** [a[i]] where it is known to be in bounds. *)
Definition get (a : list T) (i : Z) : T := default s_zero (a !! Z.to_nat i).

(** Accumulation from zero, left to right, as in [sum += v]. *)
Definition sum_list (vs : list T) : T := foldl s_add s_zero vs.

(** The indices [i, i + n, i + 2n, ...] below [hs] that a worker visits. *)
Fixpoint strided (n hs : Z) (fuel : nat) (i : Z) : list Z :=
  match fuel with
  | O => []
  | S fuel' => if i <? hs then i :: strided n hs fuel' (i + n) else []
  end.

(** The accessor of row [r] of a buffer of rows of [hs] elements. *)
Definition x_row (xs : list T) (hs r : Z) : Z -> T :=
  fun i => get xs (r * hs + i).

(** The partial sum of worker [k]. *)
Definition partial (n hs : Z) (f : Z -> T) (k : Z) : T :=
  sum_list (f <$> strided n hs (Z.to_nat hs) k).

(** One round of the halving reduction on the workers' cells [p]. *)
Definition tree_round (s : Z) (p : Z -> T) : Z -> T :=
  fun j => if j <? s then p j ⊕ p (j + s) else p j.

Fixpoint tree_red (s : positive) (p : Z -> T) : Z -> T :=
  match s with
  | xH => tree_round 1 p
  | xO q => tree_red q (tree_round (Z.pos q~0) p)
  | xI q => tree_red q (tree_round (Z.pos q~1) p)
  end.

(** The content of cell 0 after all rounds. *)
Definition tree_reduce (n : Z) (p : Z -> T) : T :=
  match int_half n with
  | Z.pos s => tree_red s p 0
  | _ => p 0
  end.

Definition k_mean (n hs : Z) (f : Z -> T) : T :=
  tree_reduce n (partial n hs f) ⊘ s_of_int hs.

Definition sqdiff (mean : T) (v : T) : T :=
  let diff := v ⊖ mean in diff ⊗ diff.

Definition k_invstd (n hs : Z) (f : Z -> T) : T :=
  let mean := k_mean n hs f in
  s_rsqrt (tree_reduce n (partial n hs (fun i => sqdiff mean (f i)))
           ⊘ s_of_int hs ⊕ s_eps).

Definition k_out (n hs : Z) (f : Z -> T) (alpha beta : list T) (i : Z) : T :=
  (f i ⊖ k_mean n hs f) ⊗ k_invstd n hs f ⊗ get alpha i ⊕ get beta i.

(** [n] is a power of two. *)
Fixpoint pow2 (n : positive) : Prop :=
  match n with
  | xH => True
  | xO q => pow2 q
  | xI _ => False
  end.

End RowModel.
End RowModel.

(** ** The reference definition

    Follows the words of the contract: per-row mean and population variance,
    then [y = (x - mean) * rsqrt(variance + eps) * alpha + beta]. *)

Module Reference.
Import RowModel.
Section Reference.
Context {T : Type} `{Scalar T}.

(** Row [r] of a buffer of rows of [hs] elements. *)
Definition row (hs : Z) (xs : list T) (r : Z) : list T :=
  take (Z.to_nat hs) (drop (Z.to_nat (r * hs)) xs).

Definition mean (hs : Z) (vs : list T) : T :=
  sum_list vs ⊘ s_of_int hs.

Definition variance (hs : Z) (vs : list T) : T :=
  sum_list (sqdiff (mean hs vs) <$> vs) ⊘ s_of_int hs.

Definition invstd (hs : Z) (vs : list T) : T :=
  s_rsqrt (variance hs vs ⊕ s_eps).

Definition layer_norm (hs : Z) (alpha beta : list T) (vs : list T) (i : Z) : T :=
  (get vs i ⊖ mean hs vs) ⊗ invstd hs vs ⊗ get alpha i ⊕ get beta i.

End Reference.
End Reference.

(** ** Predicates for the proofs about the kernel *)

Module LayerNormSpec.
Import RowModel LayerNorm.
Section Spec.
Context {T : Type} `{Scalar T}.
Variables (l : launch) (bs hs b : Z).

(** The threads of block [b] that pass the guard. *)
Definition block_active : list thread :=
  filter (fun t => active l bs t = true) (block_threads l b).

(** The row of a thread of block [b]. *)
Definition row_of (t : thread) : Z := blockDim_x l * b + threadIdx_x t.

(** The rows of block [b] that exist. *)
Definition block_row (r : Z) : Prop :=
  blockDim_x l * b <= r < blockDim_x l * (b + 1) /\ r < bs.

(** The cells of the row of thread [t], as a function of the worker. *)
Definition row_cells (sh : list T) (t : thread) : Z -> T :=
  fun j => get sh (threadIdx_x t * blockDim_y l + j).

(** [shared] after the threads [pre] have run a segment in which thread [t]
    sets its cell to [v] if [upd t = Some v] and leaves [shared] alone
    otherwise; [sh0] is [shared] before the segment. *)
Definition cells_inv (upd : thread -> option T) (sh0 : list T)
    (pre : list thread) (sh : list T) : Prop :=
  length sh = length sh0
  /\ (forall t v, t ∈ pre -> upd t = Some v -> get sh (cell l t) = v)
  /\ (forall j, 0 <= j ->
        (forall t, t ∈ pre -> cell l t = j -> upd t = None) ->
        get sh j = get sh0 j).

Variable d0 : device T.
(** The mean and the inverse standard deviation of every row. *)
Variables (M IS : Z -> T).

Definition out_val (r i : Z) : T :=
  (x_row (d_x d0) hs r i ⊖ M r) ⊗ IS r ⊗ get (d_alpha d0) i ⊕ get (d_beta d0) i.

(** The body of the loop of lines 77-78 for row [r]. *)
Definition out_step (r : Z) (d : device T) (i : Z) : device T :=
  Device (d_alpha d) (d_beta d) (d_x d)
    (<[Z.to_nat (r * hs + i) :=
         (get (d_x d) (r * hs + i) ⊖ M r) ⊗ IS r ⊗ get (d_alpha d) i
         ⊕ get (d_beta d) i]> (d_y d))
    (d_cache d).

(** What the threads [pre] have written to [y] and [cache]. *)
Definition out_inv (pre : list thread) (d : device T) : Prop :=
  same_inputs d0 d
  /\ (forall t i, t ∈ pre ->
        i ∈ strided (blockDim_y l) hs (Z.to_nat hs) (threadIdx_y t) ->
        get (d_y d) (row_of t * hs + i) = out_val (row_of t) i)
  /\ (forall j, 0 <= j ->
        (forall t i, t ∈ pre ->
           i ∈ strided (blockDim_y l) hs (Z.to_nat hs) (threadIdx_y t) ->
           j <> row_of t * hs + i) ->
        get (d_y d) j = get (d_y d0) j)
  /\ (forall t, t ∈ pre ->
        get (d_cache d) (2 * row_of t) = M (row_of t)
        /\ get (d_cache d) (2 * row_of t + 1) = IS (row_of t))
  /\ (forall j, 0 <= j ->
        (forall t, t ∈ pre -> j <> 2 * row_of t /\ j <> 2 * row_of t + 1) ->
        get (d_cache d) j = get (d_cache d0) j).

(** What the rows [r] with [lo <= r < hi] that exist get, and that nothing
    else is written. *)
Definition rows_done (lo hi : Z) (d' : device T) : Prop :=
  same_inputs d0 d'
  /\ (forall r i, lo <= r < hi -> r < bs -> 0 <= i < hs ->
        get (d_y d') (r * hs + i)
        = k_out (blockDim_y l) hs (x_row (d_x d0) hs r) (d_alpha d0) (d_beta d0) i)
  /\ (forall j, 0 <= j ->
        (forall r i, lo <= r < hi -> r < bs -> 0 <= i < hs -> j <> r * hs + i) ->
        get (d_y d') j = get (d_y d0) j)
  /\ (forall r, lo <= r < hi -> r < bs ->
        get (d_cache d') (2 * r) = k_mean (blockDim_y l) hs (x_row (d_x d0) hs r)
        /\ get (d_cache d') (2 * r + 1)
           = k_invstd (blockDim_y l) hs (x_row (d_x d0) hs r))
  /\ (forall j, 0 <= j ->
        (forall r, lo <= r < hi -> r < bs -> j <> 2 * r /\ j <> 2 * r + 1) ->
        get (d_cache d') j = get (d_cache d0) j).

End Spec.

(** The launch configuration that [Run] computes (lines 104-107) when
    [batch_size] is in range. *)
Definition run_launch (batch_size : Z) : launch :=
  Launch ((batch_size + 3) / 4) 4 256 1024.

(** The rows of [xs], [hs] elements each, in the order [perm]. *)
Definition permute_rows {T : Type} (hs : Z) (perm : list Z) (xs : list T) : list T :=
  r ← perm; take (Z.to_nat hs) (drop (Z.to_nat (r * hs)) xs).

(** Every row named by [perm] lies within [xs]. *)
Definition rows_in {T : Type} (hs : Z) (xs : list T) (perm : list Z) : Prop :=
  forall v, v ∈ perm -> 0 <= v /\ (v + 1) * hs <= Z.of_nat (length xs).

End LayerNormSpec.

(** ** Instances of the element type *)

(** Integers, with a stand-in for [rsqrt]: an element type whose addition is
    exact, on which the model can be run. The kernel is not instantiated at
    it. *)
Global Instance Z_scalar : Scalar Z := {|
  s_zero := 0;
  s_eps := 1;
  s_add := Z.add;
  s_sub := Z.sub;
  s_mul := Z.mul;
  s_div := Z.div;
  s_rsqrt := fun v => 1000 - v;
  s_of_int := fun z => z
|}.

(** [static_cast<T>(n)] for an [int] [n], on binary64: every [int] is a
    binary64 number. *)
Definition float_of_int (z : Z) : float :=
  if z <? 0 then PrimFloat.opp (PrimFloat.of_uint63 (Uint63.of_Z (- z)))
  else PrimFloat.of_uint63 (Uint63.of_Z z).

(** IEEE binary64, the element type of [ForwardPass<double>]: every operation
    rounds to nearest, ties to even. [s_eps] is the binary64 number nearest to
    1e-5; [rsqrt] is taken as the rounded quotient of 1 by the rounded square
    root. *)
Global Instance float_scalar : Scalar float := {|
  s_zero := 0%float;
  s_eps := 0x1.4f8b588e368f1p-17%float;
  s_add := PrimFloat.add;
  s_sub := PrimFloat.sub;
  s_mul := PrimFloat.mul;
  s_div := PrimFloat.div;
  s_rsqrt := fun v => PrimFloat.div 1%float (PrimFloat.sqrt v);
  s_of_int := float_of_int
|}.

(** ** The host function [GruInference] of [examples/gru.cc] *)

Module Gru.
Section Harness.

(** The element type [float] and its zero. *)
Context {F : Type}.
Variable fzero : F.

(** A host tensor: its dimensions and its elements. *)
Record Tensor : Type := {
  dims : list Z;
  elems : list F
}.

(** [t.dimension(k)], converted to [int]. *)
Definition dimension (t : Tensor) (k : nat) : Z := to_int (nth k (dims t) 0).

(** Modelled from the spec: [device_ptr], whose header is not among the
    sources. A device buffer has an address and an element count; it is
    constructed from a host tensor (allocate, copy in) or as scratch of a given
    element count (allocate only, contents undefined); [zero] fills it with
    zeros; [data] is its raw address. Addresses count elements. *)
Record device_ptr : Type := {
  data : Z;
  size : Z
}.

(** Device memory and the allocations made so far, oldest first. *)
Record device : Type := {
  mem : Z -> F;
  allocs : list device_ptr
}.

(** Where an allocation of [n] elements is placed, given the allocations that
    exist. Nothing is assumed about it. *)
Variable place : list device_ptr -> Z -> Z.

(** An element count converted to [size_t]. *)
Definition to_size (z : Z) : Z := z mod 18446744073709551616.

(** Modelled from the spec: the constructor of a scratch [device_ptr] of [n]
    elements allocates and leaves the contents as they are. *)
Definition device_ptr_scratch (n : Z) (dv : device) : device_ptr * device :=
  let p := {| data := place (allocs dv) (to_size n); size := to_size n |} in
  (p, {| mem := mem dv; allocs := allocs dv ++ [p] |}).

(** Modelled from the spec: the copy-in writes the elements [vs] from address
    [a] on. *)
Fixpoint copy_in (vs : list F) (a : Z) (m : Z -> F) : Z -> F :=
  match vs with
  | [] => m
  | v :: vs' => copy_in vs' (a + 1) (fun b => if b =? a then v else m b)
  end.

(** Modelled from the spec: the constructor of a [device_ptr] from a host
    tensor allocates as many elements as the tensor has and copies them in. *)
Definition device_ptr_of (t : Tensor) (dv : device) : device_ptr * device :=
  let n := Z.of_nat (length (elems t)) in
  let p := {| data := place (allocs dv) n; size := n |} in
  (p, {| mem := copy_in (elems t) (data p) (mem dv); allocs := allocs dv ++ [p] |}).

(** Modelled from the spec: [zero()] fills the buffer with zeros. *)
Definition zero (p : device_ptr) (dv : device) : device :=
  {| mem := fun a => if (data p <=? a) && (a <? data p + size p)
                     then fzero else mem dv a;
     allocs := allocs dv |}.

(** Modelled from the spec: the constructor of [ForwardPass] binds the mode
    flag and the three sizes (and the handle of the matrix-multiply backend,
    which is left out). *)
Record ForwardPass : Type := {
  training : bool;
  fp_batch_size : Z;
  fp_input_size : Z;
  fp_hidden_size : Z
}.

(** The arguments of one call of [Iterate], lines 101-112. A null pointer is
    [None]. *)
Record iterate_args : Type := {
  a_W : Z;
  a_R : Z;
  a_bx : Z;
  a_br : Z;
  a_x : Z;
  a_h : Z;
  a_h_out : Z;
  a_v : option Z;
  a_tmp_Wx : Z;
  a_tmp_Rh : Z;
  a_zoneout_prob : F;
  a_zoneout_mask : option Z
}.

(** [ForwardPass::Iterate] is not among the sources: any effect on device
    memory. *)
Variable Iterate : ForwardPass -> iterate_args -> (Z -> F) -> (Z -> F).

(** The device buffers of lines 77-85. *)
Record buffers : Type := {
  W_dev : device_ptr;
  R_dev : device_ptr;
  bx_dev : device_ptr;
  br_dev : device_ptr;
  x_dev : device_ptr;
  h_dev : device_ptr;
  tmp_Wx_dev : device_ptr;
  tmp_Rh_dev : device_ptr
}.

(** Lines 71-87: the sizes, the buffers, and [h_dev.zero()]. *)
Definition gru_buffers (W R bx br x : Tensor) (dv : device) : buffers * device :=
  let time_steps := dimension x 2 in
  let batch_size := dimension x 1 in
  let hidden_size := dimension R 1 in
  let '(W_dev, dv) := device_ptr_of W dv in
  let '(R_dev, dv) := device_ptr_of R dv in
  let '(bx_dev, dv) := device_ptr_of bx dv in
  let '(br_dev, dv) := device_ptr_of br dv in
  let '(x_dev, dv) := device_ptr_of x dv in
  let '(h_dev, dv) := device_ptr_scratch (int_mul batch_size hidden_size) dv in
  let '(tmp_Wx_dev, dv) :=
    device_ptr_scratch
      (int_mul (int_mul (int_mul time_steps batch_size) hidden_size) 3) dv in
  let '(tmp_Rh_dev, dv) :=
    device_ptr_scratch (int_mul (int_mul batch_size hidden_size) 3) dv in
  let dv := zero h_dev dv in
  ({| W_dev := W_dev; R_dev := R_dev; bx_dev := bx_dev; br_dev := br_dev;
      x_dev := x_dev; h_dev := h_dev; tmp_Wx_dev := tmp_Wx_dev;
      tmp_Rh_dev := tmp_Rh_dev |}, dv).

(** Lines 98-112: the arguments of the call of [Iterate] at timestep [t]. *)
Definition call_args (b : buffers) (batch_size input_size hidden_size t : Z)
  : iterate_args :=
  let x_cur_dev := data (x_dev b) + int_mul (int_mul t batch_size) input_size in
  let tmp_Wx_cur :=
    data (tmp_Wx_dev b)
    + int_mul (int_mul (int_mul t batch_size) hidden_size) 3 in
  {| a_W := data (W_dev b);
     a_R := data (R_dev b);
     a_bx := data (bx_dev b);
     a_br := data (br_dev b);
     a_x := x_cur_dev;
     a_h := data (h_dev b);
     a_h_out := data (h_dev b);
     a_v := None;
     a_tmp_Wx := tmp_Wx_cur;
     a_tmp_Rh := data (tmp_Rh_dev b);
     a_zoneout_prob := fzero;
     a_zoneout_mask := None |}.

(** What [GruInference] has done when its loop ends: the device, the calls of
    [Iterate] in order, and the buffers. *)
Record trace : Type := {
  dev : device;
  calls : list iterate_args;
  bufs : buffers
}.

(** One turn of the loop of lines 97-113. *)
Definition gru_step (forward : ForwardPass) (b : buffers)
    (batch_size input_size hidden_size : Z)
    (s : (Z -> F) * list iterate_args) (t : Z) : (Z -> F) * list iterate_args :=
  let args := call_args b batch_size input_size hidden_size t in
  (Iterate forward args s.1, s.2 ++ [args]).

(** Lines 70-113. The timer of line 89 touches no buffer and is left out; the
    buffers are released after the last line modelled here. *)
Definition GruInference (W R bx br x : Tensor) (dv : device) : trace :=
  let time_steps := dimension x 2 in
  let batch_size := dimension x 1 in
  let input_size := dimension x 0 in
  let hidden_size := dimension R 1 in
  let '(b, dv) := gru_buffers W R bx br x dv in
  let forward := {| training := false;
                    fp_batch_size := batch_size;
                    fp_input_size := input_size;
                    fp_hidden_size := hidden_size |} in
  (* for (int t = 0; t < time_steps; ++t) *)
  let s := foldl (gru_step forward b batch_size input_size hidden_size)
             (mem dv, []) (seqZ 0 time_steps) in
  {| dev := {| mem := s.1; allocs := allocs dv |};
     calls := s.2;
     bufs := b |}.

(** The sizes for which the products of lines 83-85 and 98-99 stay in [int]. *)
Definition sizes_in_range (x R : Tensor) : Prop :=
  0 <= nth 2 (dims x) 0 /\ 0 <= nth 1 (dims x) 0 /\ 0 <= nth 1 (dims R) 0
  /\ nth 2 (dims x) 0 <= INT_MAX
  /\ nth 1 (dims x) 0 <= INT_MAX
  /\ nth 1 (dims R) 0 <= INT_MAX
  /\ nth 2 (dims x) 0 * nth 1 (dims x) 0 * nth 1 (dims R) 0 * 3 <= INT_MAX
  /\ nth 1 (dims x) 0 * nth 1 (dims R) 0 * 3 <= INT_MAX.

(** The addresses [p, p + n). *)
Definition in_slice (p n a : Z) : Prop := p <= a < p + n.

End Harness.

Arguments Tensor : clear implicits.
Arguments device : clear implicits.
Arguments iterate_args : clear implicits.
Arguments buffers : clear implicits.
Arguments trace : clear implicits.

(** A placement: every allocation directly after the previous ones. *)
Definition bump (ps : list device_ptr) (n : Z) : Z :=
  foldr (fun p a => a + size p) 0 ps.

End Gru.

(** ** Concrete inputs *)

Module Inputs.
Import LayerNorm Gru.

(** One row [1, -1] of binary64 numbers (mean 0, variance 1), [alpha] ones,
    [beta] zeros. *)
Definition unit_row : LayerNorm.device float :=
  Device [1; 1]%float [0; 0]%float [1; -1]%float [0; 0]%float [0; 0]%float.

(** Garbage in shared memory and in the thread-local variable. *)
Definition junk : Z -> Z -> float := fun b i => float_of_int (b + i).

(** Five rows of three integers. *)
Definition five_rows : LayerNorm.device Z :=
  Device [1; 2; 3] [10; 20; 30]
    [1; 2; 3; 4; 8; 9; 0; 0; 6; 5; 5; 5; 1; 0; -1]
    (replicate 15 0) (replicate 10 0).

(** One row, the numbers 1 to 12. *)
Definition twelve : LayerNorm.device Z :=
  Device (replicate 12 1) (replicate 12 0)
    [1; 2; 3; 4; 5; 6; 7; 8; 9; 10; 11; 12] (replicate 12 0) [0; 0].

(** Two rows of one element. *)
Definition two_rows : LayerNorm.device Z := Device [1] [0] [3; 5] [0; 0] [0; 0; 0; 0].

(** A block of one row and two workers. *)
Definition small_launch : launch := Launch 1 1 2 2.

(** Host tensors of the GRU: [input_size = 2], [batch_size = 1],
    [hidden_size = 2], and sequences of 3 and of 0 timesteps. *)
Definition W_host : Tensor Z := {| dims := [6; 2]; elems := replicate 12 1 |}.
Definition R_host : Tensor Z := {| dims := [6; 2]; elems := replicate 12 1 |}.
Definition bx_host : Tensor Z := {| dims := [6]; elems := replicate 6 1 |}.
Definition br_host : Tensor Z := {| dims := [6]; elems := replicate 6 1 |}.
Definition x_host : Tensor Z := {| dims := [2; 1; 3]; elems := [1; 2; 3; 4; 5; 6] |}.
Definition x_empty : Tensor Z := {| dims := [2; 1; 0]; elems := [] |}.

(** A device with nothing allocated, and an [Iterate] that writes 7 to the
    first element of the hidden state. *)
Definition fresh_device : Gru.device Z := {| mem := fun _ => 5; allocs := [] |}.
Definition some_Iterate (f : ForwardPass) (a : iterate_args Z) (m : Z -> Z) : Z -> Z :=
  fun b => if b =? a_h_out a then 7 else m b.

End Inputs.
(** ** Blocks in any order *)

Module LayerNormOrder.
Import RowModel LayerNorm.
Section Order.
Context {T : Type} `{Scalar T}.
Variables (l : launch) (bs hs : Z).
Variable d0 : device T.

(** What the rows of the blocks [bl] get, and that nothing else is written;
    row [r] belongs to block [r / blockDim.x]. *)
Definition blocks_done (bl : list Z) (d' : device T) : Prop :=
  same_inputs d0 d'
  /\ (forall r i, r / blockDim_x l ∈ bl -> 0 <= r < bs -> 0 <= i < hs ->
        get (d_y d') (r * hs + i)
        = k_out (blockDim_y l) hs (x_row (d_x d0) hs r) (d_alpha d0) (d_beta d0) i)
  /\ (forall j, 0 <= j ->
        (forall r i, r / blockDim_x l ∈ bl -> 0 <= r < bs -> 0 <= i < hs ->
           j <> r * hs + i) ->
        get (d_y d') j = get (d_y d0) j)
  /\ (forall r, r / blockDim_x l ∈ bl -> 0 <= r < bs ->
        get (d_cache d') (2 * r) = k_mean (blockDim_y l) hs (x_row (d_x d0) hs r)
        /\ get (d_cache d') (2 * r + 1)
           = k_invstd (blockDim_y l) hs (x_row (d_x d0) hs r))
  /\ (forall j, 0 <= j ->
        (forall r, r / blockDim_x l ∈ bl -> 0 <= r < bs ->
           j <> 2 * r /\ j <> 2 * r + 1) ->
        get (d_cache d') j = get (d_cache d0) j).

End Order.
End LayerNormOrder.

(** ** The threads of a block in any order *)

Module LayerNormSchedule.
Import LayerNorm LayerNormSpec.

Global Instance thread_eq_dec : EqDecision thread.
Proof. solve_decision. Defined.

Section Schedule.
Context {T : Type} `{Scalar T}.

(** The threads [order], each with the local variable that it has in [ts]. *)
Definition in_order (order : list thread) (ts : list (thread * T))
  : list (thread * T) :=
  omap (fun t => snd <$> list_find (fun p => p.1 = t) ts) order.

(** The segments run one after the other; in segment number [k] the threads
    take their turns in the order [orders k], each running its part of the
    segment as a whole. *)
Fixpoint run_segments_in (orders : nat -> list thread) (k : nat)
    (segs : list (segment T)) (ts : list (thread * T)) (s : bstate T)
  : result (list (thread * T) * bstate T) :=
  match segs with
  | [] => Ok (ts, s)
  | seg :: segs' =>
      r ← run_segment seg (in_order (orders k) ts) s;
      run_segments_in orders (S k) segs' r.1 r.2
  end.

(** A segment of the reductions: run by the active threads of block [b] in
    two orders, it ends with the same [shared] and the same local variables,
    and leaves the device buffers [d] alone. *)
Definition red_seg (l : launch) (bs b : Z) (d : device T) (seg : segment T)
  : Prop :=
  forall (Mf : thread -> T) (sh : list T) (ths ths' : list thread),
    ths ≡ₚ block_active l bs b -> ths' ≡ₚ block_active l bs b ->
    blockDim_x l * blockDim_y l <= Z.of_nat (length sh) ->
    exists (Mf' : thread -> T) (sh' : list T),
      length sh' = length sh
      /\ run_segment seg (with_mean Mf ths) (BState d sh)
         = Ok (with_mean Mf' ths, BState d sh')
      /\ run_segment seg (with_mean Mf ths') (BState d sh)
         = Ok (with_mean Mf' ths', BState d sh').

End Schedule.
End LayerNormSchedule.

(** ** Buffers of other sizes *)

Module LayerNormSizes.
Import LayerNorm.
Section Sizes.
Context {T : Type} `{Scalar T}.

(** The buffers of [d], each followed by the elements of the same buffer of
    [e]. *)
Definition extend (d e : device T) : device T :=
  Device (d_alpha d ++ d_alpha e) (d_beta d ++ d_beta e) (d_x d ++ d_x e)
    (d_y d ++ d_y e) (d_cache d ++ d_cache e).

(** The leading [hidden_size], [batch_size * hidden_size] and
    [2 * batch_size] elements of the buffers, and the elements behind them. *)
Definition leading (batch_size hidden_size : Z) (d : device T) : device T :=
  Device (take (Z.to_nat hidden_size) (d_alpha d))
    (take (Z.to_nat hidden_size) (d_beta d))
    (take (Z.to_nat (batch_size * hidden_size)) (d_x d))
    (take (Z.to_nat (batch_size * hidden_size)) (d_y d))
    (take (Z.to_nat (2 * batch_size)) (d_cache d)).

Definition behind (batch_size hidden_size : Z) (d : device T) : device T :=
  Device (drop (Z.to_nat hidden_size) (d_alpha d))
    (drop (Z.to_nat hidden_size) (d_beta d))
    (drop (Z.to_nat (batch_size * hidden_size)) (d_x d))
    (drop (Z.to_nat (batch_size * hidden_size)) (d_y d))
    (drop (Z.to_nat (2 * batch_size)) (d_cache d)).

(** The buffers hold at least the elements that the kernel assumes. *)
Definition at_least (batch_size hidden_size : Z) (d : device T) : Prop :=
  hidden_size <= Z.of_nat (length (d_alpha d)) /\
  hidden_size <= Z.of_nat (length (d_beta d)) /\
  batch_size * hidden_size <= Z.of_nat (length (d_x d)) /\
  batch_size * hidden_size <= Z.of_nat (length (d_y d)) /\
  2 * batch_size <= Z.of_nat (length (d_cache d)).

(** The five buffers have the same sizes in [d] and [d']. *)
Definition same_size (d d' : device T) : Prop :=
  length (d_alpha d') = length (d_alpha d) /\
  length (d_beta d') = length (d_beta d) /\
  length (d_x d') = length (d_x d) /\
  length (d_y d') = length (d_y d) /\
  length (d_cache d') = length (d_cache d).

(** The state of a block on the extended buffers. *)
Definition ext_state (e : device T) (s : bstate T) : bstate T :=
  BState (extend (dev s) e) (shared s).

(** A segment that, when it ends on some buffers, ends likewise on the
    extended buffers and leaves the extension alone. *)
Definition ext_seg (e : device T) (seg : segment T) : Prop :=
  forall t m s r, seg t m s = Ok r -> seg t m (ext_state e s) = Ok (r.1, ext_state e r.2).

(** A segment that keeps the sizes of the buffers. *)
Definition size_seg (seg : segment T) : Prop :=
  forall t m s r, seg t m s = Ok r -> same_size (dev s) (dev r.2).

End Sizes.
End LayerNormSizes.

(** ** The input sequence of [GruInference] *)

Module GruInput.
Import Gru.
Section Input.
Context {F : Type}.

(** The input tensor holds as many elements as its three dimensions say, and
    the products of line 98 stay in [int]. *)
Definition x_in_range (x : Tensor F) : Prop :=
  0 <= nth 0 (dims x) 0 <= INT_MAX /\ 0 <= nth 1 (dims x) 0 <= INT_MAX
  /\ 0 <= nth 2 (dims x) 0 <= INT_MAX
  /\ nth 2 (dims x) 0 * nth 1 (dims x) 0 * nth 0 (dims x) 0 <= INT_MAX
  /\ Z.of_nat (length (elems x))
     = nth 2 (dims x) 0 * nth 1 (dims x) 0 * nth 0 (dims x) 0.

End Input.
End GruInput.

(** ** [ScopeTimer], the scope of [GruInference], and [main] *)

Module Host.
Import Gru.
Section Calls.
Context {F : Type}.

(** The calls that leave the host function, in the order in which they are
    made. An event handle is the number of events created before it. The
    constructors and destructors of [device_ptr] and [ForwardPass], whose
    code is not among the sources, are calls of their own. *)
Inductive call : Type :=
| cudaEventCreate (e : nat)
| cudaDeviceSynchronize
| cudaEventRecord (e : nat)
| cudaEventSynchronize (e : nat)
| cudaEventElapsedTime (start stop : nat)
| printf (msg : string)            (* prints [msg] and the time just read *)
| cudaEventDestroy (e : nat)
| cublasCreate
| cublasDestroy
| device_ptr_new (p : device_ptr)
| device_ptr_zero (p : device_ptr)
| device_ptr_delete (p : device_ptr)
| ForwardPass_new (f : ForwardPass)
| ForwardPass_Iterate (f : ForwardPass) (args : iterate_args F)
| ForwardPass_delete (f : ForwardPass).

(** The calls made so far and the number of events created so far. *)
Record runtime : Type := {
  log : list call;
  events : nat
}.

(** Host code that makes calls. *)
Definition cuda (A : Type) : Type := runtime -> A * runtime.

Definition cuda_ret {A} (a : A) : cuda A := fun s => (a, s).
Definition cuda_bind {A B} (f : A -> cuda B) (m : cuda A) : cuda B :=
  fun s => let '(a, s') := m s in f a s'.

Definition emit (c : call) : cuda unit :=
  fun s => (tt, {| log := log s ++ [c]; events := events s |}).

(** [cudaEventCreate(&e)] *)
Definition new_event : cuda nat :=
  fun s => (events s, {| log := log s ++ [cudaEventCreate (events s)];
                         events := S (events s) |}).

End Calls.

Arguments call : clear implicits.
Arguments runtime : clear implicits.
Arguments cuda : clear implicits.

Global Instance cuda_mret {F} : MRet (cuda F) := fun A a => cuda_ret a.
Global Instance cuda_mbind {F} : MBind (cuda F) := fun A B f m => cuda_bind f m.

Section Timer.
Context {F : Type}.

(** The members of [ScopeTimer], lines 65-67. *)
Record ScopeTimer : Type := {
  msg_ : string;
  start_ : nat;
  stop_ : nat
}.

(** The constructor, lines 48-53. *)
Definition ScopeTimer_new (msg : string) : cuda F ScopeTimer :=
  start ← new_event;
  stop ← new_event;
  emit cudaDeviceSynchronize;;
  emit (cudaEventRecord start);;
  mret {| msg_ := msg; start_ := start; stop_ := stop |}.

(** The destructor, lines 55-63. *)
Definition ScopeTimer_delete (t : ScopeTimer) : cuda F unit :=
  emit (cudaEventRecord (stop_ t));;
  emit (cudaEventSynchronize (stop_ t));;
  emit (cudaEventElapsedTime (start_ t) (stop_ t));;
  emit (printf (msg_ t));;
  emit (cudaEventDestroy (start_ t));;
  emit (cudaEventDestroy (stop_ t)).

(** [for (int t = 0; t < time_steps; ++t) body] *)
Fixpoint for_each {A} (l : list A) (body : A -> cuda F unit) : cuda F unit :=
  match l with
  | [] => mret tt
  | a :: l' => body a;; for_each l' body
  end.

Variable fzero : F.
Variable place : list device_ptr -> Z -> Z.

(** [GruInference], lines 70-114, as the calls it makes: the buffers, the
    timer, the loop, and at the end of the scope the destructors of the
    locals in the reverse order of their construction. The addresses are
    those of [gru_buffers]. That a [device_ptr] releases its buffer when it
    goes out of scope is taken from the specification; what the constructors
    and destructors of [device_ptr] and [ForwardPass] do is left open. *)
Definition GruInference_scope (W R bx br x : Tensor F) (dv : device F)
  : cuda F unit :=
  let time_steps := dimension x 2 in
  let batch_size := dimension x 1 in
  let input_size := dimension x 0 in
  let hidden_size := dimension R 1 in
  let b := (gru_buffers fzero place W R bx br x dv).1 in
  emit (device_ptr_new (W_dev b));;
  emit (device_ptr_new (R_dev b));;
  emit (device_ptr_new (bx_dev b));;
  emit (device_ptr_new (br_dev b));;
  emit (device_ptr_new (x_dev b));;
  emit (device_ptr_new (h_dev b));;
  emit (device_ptr_new (tmp_Wx_dev b));;
  emit (device_ptr_new (tmp_Rh_dev b));;
  emit (device_ptr_zero (h_dev b));;
  t ← ScopeTimer_new "Inference time:";
  let forward := {| training := false;
                    fp_batch_size := batch_size;
                    fp_input_size := input_size;
                    fp_hidden_size := hidden_size |} in
  emit (ForwardPass_new forward);;
  for_each (seqZ 0 time_steps)
    (fun t => emit (ForwardPass_Iterate forward
                      (call_args fzero b batch_size input_size hidden_size t)));;
  emit (ForwardPass_delete forward);;
  ScopeTimer_delete t;;
  emit (device_ptr_delete (tmp_Rh_dev b));;
  emit (device_ptr_delete (tmp_Wx_dev b));;
  emit (device_ptr_delete (h_dev b));;
  emit (device_ptr_delete (x_dev b));;
  emit (device_ptr_delete (br_dev b));;
  emit (device_ptr_delete (bx_dev b));;
  emit (device_ptr_delete (R_dev b));;
  emit (device_ptr_delete (W_dev b)).

(** The calls of [GruInference_scope], the [n]-th event being the first
    that it creates. *)
Definition scope_calls (W R bx br x : Tensor F) (dv : device F) (n : nat)
  : list (call F) :=
  let time_steps := dimension x 2 in
  let batch_size := dimension x 1 in
  let input_size := dimension x 0 in
  let hidden_size := dimension R 1 in
  let b := (gru_buffers fzero place W R bx br x dv).1 in
  let forward := {| training := false;
                    fp_batch_size := batch_size;
                    fp_input_size := input_size;
                    fp_hidden_size := hidden_size |} in
  [device_ptr_new (W_dev b); device_ptr_new (R_dev b); device_ptr_new (bx_dev b);
   device_ptr_new (br_dev b); device_ptr_new (x_dev b); device_ptr_new (h_dev b);
   device_ptr_new (tmp_Wx_dev b); device_ptr_new (tmp_Rh_dev b);
   device_ptr_zero (h_dev b);
   cudaEventCreate n; cudaEventCreate (S n); cudaDeviceSynchronize;
   cudaEventRecord n; ForwardPass_new forward]
  ++ ((fun t => ForwardPass_Iterate forward
                  (call_args fzero b batch_size input_size hidden_size t))
      <$> seqZ 0 time_steps)
  ++ [ForwardPass_delete forward;
      cudaEventRecord (S n); cudaEventSynchronize (S n);
      cudaEventElapsedTime n (S n); printf "Inference time:";
      cudaEventDestroy n; cudaEventDestroy (S n);
      device_ptr_delete (tmp_Rh_dev b); device_ptr_delete (tmp_Wx_dev b);
      device_ptr_delete (h_dev b); device_ptr_delete (x_dev b);
      device_ptr_delete (br_dev b); device_ptr_delete (bx_dev b);
      device_ptr_delete (R_dev b); device_ptr_delete (W_dev b)].

(** Lines 39-42. *)
Definition BATCH_SIZE : Z := 64.
Definition SEQUENCE_LEN : Z := 1000.
Definition HIDDEN_DIMS : Z := 512.
Definition INPUT_DIMS : Z := 512.

(** A tensor of the dimensions [ds] after [setRandom()]: element [k] is
    [rnd k], any value. *)
Definition random_tensor (ds : list Z) (rnd : Z -> F) : Tensor F :=
  {| dims := ds; elems := rnd <$> seqZ 0 (foldr Z.mul 1 ds) |}.

(** The tensors of [main], lines 122-134. *)
Definition main_W (rnd : Z -> F) : Tensor F :=
  random_tensor [HIDDEN_DIMS * 3; INPUT_DIMS] rnd.
Definition main_R (rnd : Z -> F) : Tensor F :=
  random_tensor [HIDDEN_DIMS * 3; HIDDEN_DIMS] rnd.
Definition main_bx (rnd : Z -> F) : Tensor F := random_tensor [HIDDEN_DIMS * 3] rnd.
Definition main_br (rnd : Z -> F) : Tensor F := random_tensor [HIDDEN_DIMS * 3] rnd.
Definition main_x (rnd : Z -> F) : Tensor F :=
  random_tensor [INPUT_DIMS; BATCH_SIZE; SEQUENCE_LEN] rnd.

(** [main], lines 116-141: the calls it makes and its return value. The
    five tensors get their random values from [rW], [rR], [rbx], [rbr], [rx]. *)
Definition main (rW rR rbx rbr rx : Z -> F) (dv : device F) : cuda F Z :=
  emit cublasCreate;;
  GruInference_scope (main_W rW) (main_R rR) (main_bx rbx) (main_br rbr)
    (main_x rx) dv;;
  emit cublasDestroy;;
  mret 0.

(** *** Reading a log *)

Definition is_record (e : nat) (c : call F) : bool :=
  match c with
  | cudaEventRecord e' => Nat.eqb e e'
  | _ => false
  end.

(** The calls after the first that satisfies [p], and those before it. *)
Fixpoint after (p : call F -> bool) (cs : list (call F)) : list (call F) :=
  match cs with
  | [] => []
  | c :: cs' => if p c then cs' else after p cs'
  end.

Fixpoint before (p : call F -> bool) (cs : list (call F)) : list (call F) :=
  match cs with
  | [] => []
  | c :: cs' => if p c then [] else c :: before p cs'
  end.

(** The calls between the record of the event [start] and the record of the
    event [stop] that follows it: what the timer measures. *)
Definition timed (start stop : nat) (cs : list (call F)) : list (call F) :=
  before (is_record stop) (after (is_record start) cs).

(** The first occurrence of [a] taken out of [l], if there is one. *)
Fixpoint release {A} `{EqDecision A} (a : A) (l : list A) : option (list A) :=
  match l with
  | [] => None
  | b :: l' => if decide (a = b) then Some l'
               else l'' ← release a l'; Some (b :: l'')
  end.

Definition held {A} `{EqDecision A} (a : A) (l : list A) : bool :=
  bool_decide (a ∈ l).

End Timer.

Global Instance device_ptr_eq_dec : EqDecision device_ptr.
Proof. solve_decision. Defined.

Global Instance ForwardPass_eq_dec : EqDecision ForwardPass.
Proof. solve_decision. Defined.

Section Lifetimes.
Context {F : Type}.

(** What the host holds: the events and the buffers that exist, whether the
    handle of the matrix-multiply backend exists, and the [ForwardPass]
    objects that exist. *)
Record resources : Type := {
  r_events : list nat;
  r_buffers : list device_ptr;
  r_blas : bool;
  r_passes : list ForwardPass
}.

(** The address [a] is the first element of the buffer [p] or an element
    within it. *)
Definition in_buffer (a : Z) (p : device_ptr) : bool :=
  (data p =? a) || ((data p <? a) && (a <? data p + size p)).

(** The address [a] refers to one of the buffers [bufs]. *)
Definition live (bufs : list device_ptr) (a : Z) : bool :=
  existsb (in_buffer a) bufs.

Definition live_or_null (bufs : list device_ptr) (a : option Z) : bool :=
  match a with
  | Some a => live bufs a
  | None => true
  end.

(** Every pointer among the arguments of a call of [Iterate] is null or
    refers to one of the buffers [bufs]. *)
Definition args_live (bufs : list device_ptr) (a : iterate_args F) : bool :=
  live bufs (a_W a) && live bufs (a_R a) && live bufs (a_bx a)
  && live bufs (a_br a) && live bufs (a_x a) && live bufs (a_h a)
  && live bufs (a_h_out a) && live_or_null bufs (a_v a)
  && live bufs (a_tmp_Wx a) && live bufs (a_tmp_Rh a)
  && live_or_null bufs (a_zoneout_mask a).

(** What the host holds after the calls [cs], starting from [r]; [None] if a
    call is made on something that does not exist at that point:

    - an event is created while it exists; recorded, waited for, read or
      destroyed while it does not;
    - a buffer is zeroed or released while it does not exist;
    - the handle is created while it exists, or destroyed while it does not
      or while a [ForwardPass], which was given the handle, exists;
    - a [ForwardPass] is constructed while the handle does not exist, or
      destroyed while it does not exist itself;
    - [Iterate] is called on a [ForwardPass] that does not exist, while the
      handle does not exist, or with a pointer that refers to no buffer that
      exists. *)
Fixpoint lifetimes (cs : list (call F)) (r : resources) : option resources :=
  match cs with
  | [] => Some r
  | c :: cs' =>
      let '{| r_events := ev; r_buffers := bufs; r_blas := blas;
              r_passes := fps |} := r in
      match c with
      | cudaEventCreate e =>
          if held e ev then None
          else lifetimes cs' {| r_events := e :: ev; r_buffers := bufs;
                                r_blas := blas; r_passes := fps |}
      | cudaEventRecord e | cudaEventSynchronize e =>
          if held e ev then lifetimes cs' r else None
      | cudaEventElapsedTime s e =>
          if held s ev && held e ev then lifetimes cs' r else None
      | cudaEventDestroy e =>
          ev' ← release e ev;
          lifetimes cs' {| r_events := ev'; r_buffers := bufs;
                           r_blas := blas; r_passes := fps |}
      | cudaDeviceSynchronize | printf _ => lifetimes cs' r
      | cublasCreate =>
          if blas then None
          else lifetimes cs' {| r_events := ev; r_buffers := bufs;
                                r_blas := true; r_passes := fps |}
      | cublasDestroy =>
          if blas && bool_decide (fps = [])
          then lifetimes cs' {| r_events := ev; r_buffers := bufs;
                                r_blas := false; r_passes := fps |}
          else None
      | device_ptr_new p =>
          lifetimes cs' {| r_events := ev; r_buffers := p :: bufs;
                           r_blas := blas; r_passes := fps |}
      | device_ptr_zero p =>
          if held p bufs then lifetimes cs' r else None
      | device_ptr_delete p =>
          bufs' ← release p bufs;
          lifetimes cs' {| r_events := ev; r_buffers := bufs';
                           r_blas := blas; r_passes := fps |}
      | ForwardPass_new f =>
          if blas
          then lifetimes cs' {| r_events := ev; r_buffers := bufs;
                                r_blas := blas; r_passes := f :: fps |}
          else None
      | ForwardPass_Iterate f a =>
          if blas && held f fps && args_live bufs a
          then lifetimes cs' r else None
      | ForwardPass_delete f =>
          fps' ← release f fps;
          lifetimes cs' {| r_events := ev; r_buffers := bufs;
                           r_blas := blas; r_passes := fps' |}
      end
  end.

(** The calls that create or destroy the handle of the matrix-multiply
    backend. *)
Definition is_blas (c : call F) : bool :=
  match c with
  | cublasCreate | cublasDestroy => true
  | _ => false
  end.

End Lifetimes.
End Host.

(** ** More concrete inputs *)

Module Samples.
Import LayerNorm Gru Host.

(** One row of one element, the second row of [Inputs.two_rows]. *)
Definition one_row : LayerNorm.device Z := Device [1] [0] [5] [0] [0; 0].

(** One row of three elements, and the same row with another last element. *)
Definition three : LayerNorm.device Z :=
  Device [1; 1; 1] [0; 0; 0] [1; 2; 3] [0; 0; 0] [0; 0].
Definition three' : LayerNorm.device Z :=
  Device [1; 1; 1] [0; 0; 0] [1; 2; 100] [0; 0; 0] [0; 0].

(** Binary64 rows on which the order of the additions shows. The integers
    1, 10^16, -10^16, 1 are binary64 numbers; their sum is 2, their mean 0.5.
    The binary64 number nearest to 0.1, three times. [alpha] is ones, [beta]
    zeros. *)
Definition cancelling_row : list Z := [1; 10 ^ 16; - 10 ^ 16; 1].
Definition cancelling : LayerNorm.device float :=
  Device [1; 1; 1; 1]%float [0; 0; 0; 0]%float
    (float_of_int <$> cancelling_row) [0; 0; 0; 0]%float [0; 0]%float.
Definition tenth : float := 0x1.999999999999ap-4%float.
Definition tenths : LayerNorm.device float :=
  Device [1; 1; 1]%float [0; 0; 0]%float [tenth; tenth; tenth]
    [0; 0; 0]%float [0; 0]%float.

(** One row [1, 2, 3] of binary64 numbers, nothing else allocated, and the
    two threads of [Inputs.small_launch], the second first. *)
Definition one_two_three : LayerNorm.device float :=
  Device [] [] [1; 2; 3]%float [] [].
Definition swapped : list thread := [Thread 0 0 1; Thread 0 0 0].

(** Two rows of no element, in binary64. *)
Definition no_columns : LayerNorm.device float :=
  Device [] [] [] [] [0; 0; 0; 0]%float.

(** One row of two elements in buffers of three, and in a buffer [x] of one. *)
Definition long_buffers : LayerNorm.device Z :=
  Device [1; 1; 9] [0; 0; 9] [3; 5; 9] [0; 0; 9] [0; 0; 9].
Definition short_x : LayerNorm.device Z := Device [1; 1] [0; 0] [3] [0; 0] [0; 0].

(** Three rows of [2 ^ 30] binary64 numbers: buffers of the sizes that the
    kernel assumes, more than [INT_MAX] elements in [x] and in [y]. *)
Definition wide : LayerNorm.device float :=
  Device (replicate (Z.to_nat (2 ^ 30)) 1%float)
    (replicate (Z.to_nat (2 ^ 30)) 0%float)
    (replicate (Z.to_nat (3 * 2 ^ 30)) 1%float)
    (replicate (Z.to_nat (3 * 2 ^ 30)) 0%float)
    (replicate 6 0%float).

(** The two threads of [Inputs.small_launch], the second first in the
    segments of even number. *)
Definition alternating (k : nat) : list thread :=
  if Nat.even k then [Thread 0 0 1; Thread 0 0 0]
  else [Thread 0 0 0; Thread 0 0 1].

(** Two blocks of one row and two workers; one block of three workers. *)
Definition two_blocks : launch := Launch 2 1 2 2.
Definition three_workers : launch := Launch 1 1 3 3.

Definition zeros : Z -> Z -> Z := fun _ _ => 0.
Definition sevens : Z -> Z -> Z := fun _ _ => 7.

(** No call made, no event created. *)
Definition fresh_runtime : runtime Z := {| log := []; events := 0 |}.

(** Nothing held, and nothing but the handle of the matrix-multiply backend. *)
Definition nothing_held : resources :=
  {| r_events := []; r_buffers := []; r_blas := false; r_passes := [] |}.
Definition handle_only : resources :=
  {| r_events := []; r_buffers := []; r_blas := true; r_passes := [] |}.

(** A buffer of four elements, a [ForwardPass], and a call of [Iterate] all
    of whose pointers refer to that buffer. *)
Definition some_buffer : device_ptr := {| data := 16; size := 4 |}.
Definition some_pass : ForwardPass :=
  {| training := false; fp_batch_size := 1; fp_input_size := 1;
     fp_hidden_size := 1 |}.
Definition some_args : iterate_args Z :=
  {| a_W := 16; a_R := 16; a_bx := 16; a_br := 16; a_x := 17; a_h := 16;
     a_h_out := 16; a_v := None; a_tmp_Wx := 19; a_tmp_Rh := 16;
     a_zoneout_prob := 0; a_zoneout_mask := None |}.

End Samples.

(** * Proofs *)

(** ** 32-bit arithmetic in range *)

Section Int32Facts.

Lemma to_int_small z : in_int z -> to_int z = z.
Proof.
  unfold in_int, to_int, INT_MIN, INT_MAX, UINT_MOD. intros Hz.
  rewrite Z.mod_small by lia. lia.
Qed.

Lemma to_uint_small z : 0 <= z < UINT_MOD -> to_uint z = z.
Proof. unfold to_uint. intros Hz. by rewrite Z.mod_small. Qed.

Lemma int_add_small a b : in_int (a + b) -> int_add a b = a + b.
Proof. apply to_int_small. Qed.

Lemma int_mul_small a b : in_int (a * b) -> int_mul a b = a * b.
Proof. apply to_int_small. Qed.

Lemma uint_add_small a b : 0 <= a + b < UINT_MOD -> uint_add a b = a + b.
Proof. apply to_uint_small. Qed.

Lemma uint_mul_small a b : 0 <= a * b < UINT_MOD -> uint_mul a b = a * b.
Proof. apply to_uint_small. Qed.

Lemma in_int_bounds z : 0 <= z <= INT_MAX -> in_int z.
Proof. unfold in_int, INT_MIN, INT_MAX. lia. Qed.

Lemma in_uint_bounds z : 0 <= z <= INT_MAX -> 0 <= z < UINT_MOD.
Proof. unfold INT_MAX, UINT_MOD. lia. Qed.

End Int32Facts.

(** ** Buffers *)

Section Buffers.
Import RowModel.
Context {T : Type} `{Scalar T}.
Implicit Types (a : list T) (i j : Z) (v : T).

Lemma ld_ok a i : 0 <= i < Z.of_nat (length a) -> ld a i = Ok (get a i).
Proof.
  intros Hi. unfold ld, get.
  destruct (Z.ltb_spec i 0) as [?|_]; [lia|].
  destruct (lookup_lt_is_Some_2 a (Z.to_nat i)) as [v Hv]; [lia|].
  by rewrite Hv.
Qed.

Lemma ld_inv a i v : ld a i = Ok v -> 0 <= i < Z.of_nat (length a) /\ v = get a i.
Proof.
  unfold ld, get. destruct (Z.ltb_spec i 0) as [?|Hi]; [done|].
  destruct (a !! Z.to_nat i) as [w|] eqn:Hw; [|done].
  intros [= ->]. apply lookup_lt_Some in Hw. split; [lia|done].
Qed.

Lemma st_ok a i v :
  0 <= i < Z.of_nat (length a) -> st a i v = Ok (<[Z.to_nat i := v]> a).
Proof.
  intros Hi. unfold st.
  destruct (Z.leb_spec 0 i); [|lia]. destruct (Z.ltb_spec i (Z.of_nat (length a))); [done|lia].
Qed.

Lemma st_inv a i v a' :
  st a i v = Ok a' -> 0 <= i < Z.of_nat (length a) /\ a' = <[Z.to_nat i := v]> a.
Proof.
  unfold st. destruct (Z.leb_spec 0 i); simpl; [|done].
  destruct (Z.ltb_spec i (Z.of_nat (length a))); [|done].
  intros [= <-]. split; [lia|done].
Qed.

Lemma get_insert_eq a i v :
  0 <= i < Z.of_nat (length a) -> get (<[Z.to_nat i := v]> a) i = v.
Proof. intros Hi. unfold get. rewrite list_lookup_insert_eq by lia. done. Qed.

Lemma get_insert_ne a i j v :
  0 <= i -> 0 <= j -> i <> j -> get (<[Z.to_nat i := v]> a) j = get a j.
Proof. intros Hi Hj Hne. unfold get. rewrite list_lookup_insert_ne by lia. done. Qed.

Lemma get_lookup a i :
  0 <= i < Z.of_nat (length a) -> a !! Z.to_nat i = Some (get a i).
Proof.
  intros Hi. unfold get.
  destruct (lookup_lt_is_Some_2 a (Z.to_nat i)) as [v Hv]; [lia|]. by rewrite Hv.
Qed.

(** Two buffers of the same length with the same elements are equal. *)
Lemma get_ext a a' :
  length a = length a' ->
  (forall i, 0 <= i < Z.of_nat (length a) -> get a i = get a' i) ->
  a = a'.
Proof.
  intros Hlen Hget. apply list_eq_same_length with (length a); [done..|].
  intros n u u' Hn Hu Hu'.
  specialize (Hget (Z.of_nat n) ltac:(lia)). unfold get in Hget.
  rewrite Nat2Z.id, Hu, Hu' in Hget. done.
Qed.

End Buffers.

(** ** The strided loops *)

Section Strided.
Import RowModel.
Context {T : Type} `{Scalar T}.

Lemma strided_elem n hs fuel i j :
  0 < n -> (Z.to_nat (hs - i) <= fuel)%nat ->
  j ∈ strided n hs fuel i <-> (i <= j < hs /\ (j - i) mod n = 0).
Proof.
  intros Hn. revert i. induction fuel as [|fuel IH]; intros i Hfuel; simpl.
  - rewrite elem_of_nil. split; [done|]. lia.
  - destruct (Z.ltb_spec i hs) as [Hlt|Hge].
    + rewrite elem_of_cons, IH by lia. split.
      * intros [->|[Hr Hm]].
        -- rewrite Z.sub_diag. split; [lia|done].
        -- split; [lia|].
           replace (j - i) with (j - (i + n) + 1 * n) by lia.
           by rewrite Z.mod_add by lia.
      * intros [Hr Hm].
        destruct (decide (j = i)) as [->|Hne]; [by left|right].
        assert (n <= j - i).
        { apply Z.mod_divide in Hm; [|lia]. destruct Hm as [q Hq].
          assert (0 < q) by nia. nia. }
        split; [lia|].
        replace (j - (i + n)) with (j - i + (-1) * n) by lia.
        by rewrite Z.mod_add by lia.
    + rewrite elem_of_nil. split; [done|]. lia.
Qed.

Lemma strided_lower n hs fuel i j : 0 < n -> j ∈ strided n hs fuel i -> i <= j < hs.
Proof.
  intros Hn. revert i. induction fuel as [|fuel IH]; intros i; simpl.
  - by rewrite elem_of_nil.
  - destruct (Z.ltb_spec i hs); [|by rewrite elem_of_nil].
    rewrite elem_of_cons. intros [->|Hj]; [lia|]. apply IH in Hj. lia.
Qed.

Lemma strided_NoDup n hs fuel i : 0 < n -> NoDup (strided n hs fuel i).
Proof.
  intros Hn. revert i. induction fuel as [|fuel IH]; intros i; simpl.
  - constructor.
  - destruct (Z.ltb_spec i hs); [|constructor].
    constructor; [|apply IH]. intros Hi. apply strided_lower in Hi; lia.
Qed.

Section Loop.
Import LayerNorm.
Variables (l : launch) (hs : Z) (t : thread).
Hypothesis stride_pos : 0 < stride l.
Hypothesis loop_in_int : hs + stride l <= INT_MAX + 1.

(** A loop whose body succeeds on the indices it visits is a fold over them. *)
Lemma for_strided_fold {A} (I : A -> Prop) (g : A -> Z -> A)
    (body : Z -> A -> result A) fuel i a :
  0 <= i -> (Z.to_nat (hs - i) <= fuel)%nat ->
  I a ->
  (forall j a, I a -> 0 <= j < hs -> body j a = Ok (g a j) /\ I (g a j)) ->
  for_strided l hs fuel i body a = Ok (foldl g a (strided (stride l) hs fuel i))
  /\ I (foldl g a (strided (stride l) hs fuel i)).
Proof.
  intros Hi Hfuel Ha Hbody. revert i a Hi Hfuel Ha.
  induction fuel as [|fuel IH]; intros i a Hi Hfuel Ha; simpl.
  - destruct (Z.ltb_spec i hs); [lia|done].
  - destruct (Z.ltb_spec i hs) as [Hlt|Hge]; [|done].
    destruct (Hbody i a Ha ltac:(lia)) as [-> Ha']. simpl.
    rewrite int_add_small by (unfold in_int, INT_MIN, INT_MAX in *; lia).
    apply IH; [lia|lia|done].
Qed.

End Loop.
End Strided.

(** ** Threads of a block *)

Section Threads.
Import LayerNorm.
Variables (l : launch) (bs hs : Z).
Hypothesis wf : wf_launch l bs hs.

Lemma elem_of_block_threads b t : t ∈ block_threads l b <-> in_block l b t.
Proof.
  unfold block_threads, in_block. rewrite list_elem_of_bind. split.
  - intros (ty & Ht & Hty). apply list_elem_of_bind in Ht as (tx & Ht & Htx).
    apply elem_of_seqZ in Hty, Htx. apply list_elem_of_singleton in Ht as ->.
    simpl. lia.
  - intros (Hb & Hx & Hy). exists (threadIdx_y t). rewrite elem_of_seqZ.
    split; [|lia]. apply list_elem_of_bind. exists (threadIdx_x t).
    rewrite elem_of_seqZ. split; [|lia].
    apply list_elem_of_singleton. destruct t; simpl in *; by subst.
Qed.

Lemma NoDup_block_threads b : NoDup (block_threads l b).
Proof.
  unfold block_threads. apply NoDup_bind; [| |apply NoDup_seqZ].
  - intros ty1 ty2 t _ _ H1 H2.
    apply list_elem_of_bind in H1 as (tx1 & H1 & _), H2 as (tx2 & H2 & _).
    apply list_elem_of_singleton in H1, H2. congruence.
  - intros ty _. apply NoDup_bind; [| |apply NoDup_seqZ].
    + intros tx1 tx2 t _ _ H1 H2. apply list_elem_of_singleton in H1, H2. congruence.
    + intros tx _. apply NoDup_singleton.
Qed.

Lemma cell_split n a a' c c' :
  0 <= c < n -> 0 <= c' < n -> a * n + c = a' * n + c' -> a = a' /\ c = c'.
Proof. intros Hc Hc' Heq. assert (a = a') by nia. split; [done|nia]. Qed.

Lemma cell_inj b t t' : in_block l b t -> in_block l b t' -> cell l t = cell l t' -> t = t'.
Proof.
  unfold in_block, cell. intros (Hb & Hx & Hy) (Hb' & Hx' & Hy') Hc.
  assert (threadIdx_x t = threadIdx_x t') by nia.
  assert (threadIdx_y t = threadIdx_y t') by nia.
  destruct t, t'; simpl in *; congruence.
Qed.

Lemma cell_bounds b t :
  in_block l b t -> 0 <= cell l t < blockDim_x l * blockDim_y l.
Proof. unfold in_block, cell. intros (_ & Hx & Hy). nia. Qed.

Lemma stride_eq : stride l = blockDim_y l.
Proof.
  destruct wf. unfold stride. apply to_int_small, in_int_bounds. nia.
Qed.

Lemma index_eq b t : in_block l b t -> index t = threadIdx_y t.
Proof.
  destruct wf. intros (_ & Hx & Hy). unfold index.
  apply to_int_small, in_int_bounds. nia.
Qed.

Lemma batch_block_idx_eq b t :
  in_block l b t -> batch_block_idx l t = threadIdx_x t * blockDim_y l.
Proof.
  destruct wf. intros (_ & Hx & Hy). unfold batch_block_idx.
  rewrite stride_eq. rewrite (to_uint_small (blockDim_y l)) by (apply in_uint_bounds; nia).
  rewrite uint_mul_small by (apply in_uint_bounds; nia).
  apply to_int_small, in_int_bounds. nia.
Qed.

Lemma batch_eq b t :
  0 <= b < gridDim_x l -> in_block l b t ->
  batch l t = blockDim_x l * b + threadIdx_x t.
Proof.
  destruct wf. intros Hb (<- & Hx & Hy). unfold batch.
  assert (blockDim_x l * blockIdx_x t + threadIdx_x t <= INT_MAX) by nia.
  rewrite uint_mul_small by (apply in_uint_bounds; nia).
  rewrite uint_add_small by (apply in_uint_bounds; nia).
  apply to_int_small, in_int_bounds. nia.
Qed.

Lemma active_iff b t :
  0 <= b < gridDim_x l -> in_block l b t ->
  active l bs t = true <-> blockDim_x l * b + threadIdx_x t < bs.
Proof.
  intros Hb Ht. unfold active. rewrite (batch_eq b) by done.
  destruct (Z.leb_spec bs (blockDim_x l * b + threadIdx_x t)); simpl; split; (done || lia).
Qed.

Lemma batch_idx_eq b t :
  0 <= b < gridDim_x l -> in_block l b t -> active l bs t = true ->
  batch_idx l hs t = (blockDim_x l * b + threadIdx_x t) * hs.
Proof.
  intros Hb Ht Hact. apply (active_iff b) in Hact; [|done..].
  unfold batch_idx. rewrite (batch_eq b) by done. destruct wf.
  destruct Ht as (_ & Hx & Hy).
  apply int_mul_small, in_int_bounds. nia.
Qed.

Lemma cell_eq b t :
  in_block l b t -> int_add (batch_block_idx l t) (index t) = cell l t.
Proof.
  intros Ht. rewrite (batch_block_idx_eq b), (index_eq b) by done.
  pose proof (cell_bounds b t Ht). destruct wf. unfold cell in *.
  apply int_add_small, in_int_bounds. lia.
Qed.

End Threads.

(** ** Segments that update the threads' own cells of [shared] *)

Section Cells.
Import RowModel LayerNorm LayerNormSpec.
Context {T : Type} `{Scalar T}.
Variable l : launch.

Section CellUpdate.
Variables (seg : segment T) (Mf : thread -> T) (upd : thread -> option T).
Variables (d : device T) (sh0 : list T) (all : list thread).
Hypothesis cells_NoDup : NoDup (cell l <$> all).
Hypothesis cells_bounds :
  forall t, t ∈ all -> 0 <= cell l t < Z.of_nat (length sh0).
(** A thread reads cells that no other thread of the segment updates, and
    updates its own cell or nothing. *)
Hypothesis seg_cell :
  forall t sh, t ∈ all -> length sh = length sh0 ->
    (forall j, 0 <= j ->
       (forall t', t' ∈ all -> cell l t' = j -> t' = t \/ upd t' = None) ->
       get sh j = get sh0 j) ->
    seg t (Mf t) (BState d sh)
    = Ok (Mf t, BState d (match upd t with
                          | Some v => <[Z.to_nat (cell l t) := v]> sh
                          | None => sh
                          end)).

Local Abbreviation cells_inv := (LayerNormSpec.cells_inv l upd sh0).

Lemma run_segment_cells_aux ths : forall pre sh,
  all = pre ++ ths -> cells_inv pre sh ->
  exists sh', run_segment seg (with_mean Mf ths) (BState d sh)
              = Ok (with_mean Mf ths, BState d sh')
              /\ cells_inv all sh'.
Proof.
  induction ths as [|t ths IH]; intros pre sh Hall Hinv.
  - exists sh. rewrite app_nil_r in Hall. subst pre. done.
  - assert (Ht : t ∈ all) by (rewrite Hall, elem_of_app, elem_of_cons; auto).
    assert (Hfresh : forall t', t' ∈ pre -> cell l t' <> cell l t).
    { intros t' Ht' Hc. rewrite Hall, fmap_app, fmap_cons in cells_NoDup.
      apply NoDup_app in cells_NoDup as (_ & Hdisj & _).
      apply (Hdisj (cell l t')); [by apply list_elem_of_fmap_2|].
      rewrite Hc. apply elem_of_cons. by left. }
    destruct Hinv as (Hlen & Hupd & Hkeep).
    cbn [with_mean fmap list_fmap run_segment].
    rewrite (seg_cell t sh Ht Hlen).
    2:{ intros j Hj Hothers. apply Hkeep; [done|]. intros t' Ht' Hc.
        destruct (Hothers t' ltac:(rewrite Hall, elem_of_app; auto) Hc) as [->|]; [|done].
        by destruct (Hfresh t Ht'). }
    simpl.
    set (sh1 := match upd t with
                | Some v => <[Z.to_nat (cell l t) := v]> sh
                | None => sh
                end).
    destruct (IH (pre ++ [t]) sh1) as (sh' & Hrun & Hinv').
    { by rewrite <- app_assoc. }
    { pose proof (cells_bounds t Ht) as Hb.
      split; [|split].
      - unfold sh1. destruct (upd t); [by rewrite length_insert|done].
      - intros t' v Ht' Hv. apply elem_of_app in Ht' as [Ht'|Ht'].
        + unfold sh1. destruct (upd t).
          * rewrite get_insert_ne; [by apply Hupd|lia| |by apply not_eq_sym, Hfresh].
            pose proof (cells_bounds t' ltac:(rewrite Hall, elem_of_app; auto)). lia.
          * by apply Hupd.
        + apply list_elem_of_singleton in Ht' as ->. unfold sh1. rewrite Hv.
          apply get_insert_eq. lia.
      - intros j Hj Hnone. unfold sh1. destruct (upd t) eqn:Hu.
        + rewrite get_insert_ne; [|lia|done|].
          * apply Hkeep; [done|]. intros t' Ht'. apply Hnone, elem_of_app. auto.
          * intros Hc. specialize (Hnone t ltac:(rewrite elem_of_app, list_elem_of_singleton; auto) Hc). congruence.
        + apply Hkeep; [done|]. intros t' Ht'. apply Hnone, elem_of_app. auto. }
    exists sh'. split; [|done].
    fold (with_mean Mf ths). rewrite Hrun. done.
Qed.

Lemma run_segment_cells :
  exists sh', run_segment seg (with_mean Mf all) (BState d sh0)
              = Ok (with_mean Mf all, BState d sh')
    /\ length sh' = length sh0
    /\ (forall t, t ∈ all ->
          get sh' (cell l t) = match upd t with
                               | Some v => v
                               | None => get sh0 (cell l t)
                               end)
    /\ (forall j, 0 <= j -> (forall t, t ∈ all -> cell l t <> j) ->
          get sh' j = get sh0 j).
Proof.
  destruct (run_segment_cells_aux all [] sh0) as (sh' & Hrun & Hlen & Hupd & Hkeep).
  { done. }
  { split; [done|]. split; [intros ?? Hin; by apply elem_of_nil in Hin|done]. }
  exists sh'. split; [done|]. split; [done|]. split.
  - intros t Ht. destruct (upd t) as [v|] eqn:Hu; [by apply Hupd|].
    apply Hkeep; [pose proof (cells_bounds t Ht); lia|].
    intros t' Ht' Hc.
    assert (t' = t) as ->; [|done].
    eapply (NoDup_fmap_1 _ _) in cells_NoDup as Hnd.
    clear -Hc Ht Ht' cells_NoDup.
    induction all as [|a ths IH]; [by apply elem_of_nil in Ht|].
    rewrite fmap_cons in cells_NoDup. apply NoDup_cons in cells_NoDup as [Hnotin Hnd].
    apply elem_of_cons in Ht as [->|Ht], Ht' as [->|Ht']; [done| | |by apply IH].
    + destruct Hnotin. rewrite <- Hc. by apply list_elem_of_fmap_2.
    + destruct Hnotin. rewrite Hc. by apply list_elem_of_fmap_2.
  - intros j Hj Hnot. apply Hkeep; [done|]. intros t Ht Hc. by destruct (Hnot t Ht).
Qed.

End CellUpdate.

(** Run in another order, the threads of such a segment leave the same
    [shared]. *)
Lemma run_segment_cells_order (seg : segment T) (Mf : thread -> T)
    (upd : thread -> option T) (d : device T) (sh0 : list T)
    (all all' : list thread) :
  all' ≡ₚ all ->
  NoDup (cell l <$> all) ->
  (forall t, t ∈ all -> 0 <= cell l t < Z.of_nat (length sh0)) ->
  (forall t sh, t ∈ all -> length sh = length sh0 ->
     (forall j, 0 <= j ->
        (forall t', t' ∈ all -> cell l t' = j -> t' = t \/ upd t' = None) ->
        get sh j = get sh0 j) ->
     seg t (Mf t) (BState d sh)
     = Ok (Mf t, BState d (match upd t with
                           | Some v => <[Z.to_nat (cell l t) := v]> sh
                           | None => sh
                           end))) ->
  exists sh',
    run_segment seg (with_mean Mf all) (BState d sh0)
    = Ok (with_mean Mf all, BState d sh')
    /\ run_segment seg (with_mean Mf all') (BState d sh0)
       = Ok (with_mean Mf all', BState d sh').
Proof.
  intros Hperm Hnd Hbounds Hseg.
  destruct (run_segment_cells seg Mf upd d sh0 all Hnd Hbounds Hseg)
    as (sh1 & Hrun1 & Hlen1 & Hval1 & Hkeep1).
  destruct (run_segment_cells seg Mf upd d sh0 all')
    as (sh2 & Hrun2 & Hlen2 & Hval2 & Hkeep2).
  { by rewrite Hperm. }
  { intros t Ht. apply Hbounds. by rewrite <- Hperm. }
  { intros t sh Ht Hlen Hagree. apply Hseg; [by rewrite <- Hperm|done|].
    intros j Hj Hothers. apply Hagree; [done|].
    intros t' Ht'. apply Hothers. by rewrite <- Hperm. }
  exists sh1. split; [done|]. rewrite Hrun2. do 3 f_equal.
  apply get_ext; [congruence|]. intros j Hj.
  destruct (decide (j ∈ cell l <$> all)) as [Hin|Hout].
  - apply list_elem_of_fmap in Hin as (t & -> & Ht).
    rewrite Hval1 by done. rewrite Hval2 by (by rewrite Hperm). done.
  - rewrite Hkeep1, Hkeep2; [done|lia| |lia|].
    + intros t Ht Hc. apply Hout. rewrite <- Hc.
      apply list_elem_of_fmap_2. by rewrite <- Hperm.
    + intros t Ht Hc. apply Hout. rewrite <- Hc. by apply list_elem_of_fmap_2.
Qed.

End Cells.

(** ** One thread, one segment *)

Section ThreadSegments.
Import RowModel LayerNorm LayerNormSpec.
Context {T : Type} `{Scalar T}.
Variables (l : launch) (bs hs b : Z).
Hypothesis wf : wf_launch l bs hs.
Hypothesis b_range : 0 <= b < gridDim_x l.

Local Abbreviation block_active := (LayerNormSpec.block_active l bs b).
Local Abbreviation row_of := (LayerNormSpec.row_of l b).

Lemma elem_of_block_active t :
  t ∈ block_active <-> in_block l b t /\ row_of t < bs.
Proof.
  unfold LayerNormSpec.block_active. rewrite list_elem_of_filter, elem_of_block_threads.
  split; intros [Hact Hin].
  - split; [done|]. by apply (active_iff l bs hs wf b).
  - split; [|done]. by apply (active_iff l bs hs wf b).
Qed.

Lemma block_active_in_block t : t ∈ block_active -> in_block l b t.
Proof. rewrite elem_of_block_active. by intros [? _]. Qed.

Lemma block_active_row t j :
  t ∈ block_active -> 0 <= j < blockDim_y l ->
  Thread b (threadIdx_x t) j ∈ block_active.
Proof.
  rewrite !elem_of_block_active. unfold in_block, LayerNormSpec.row_of. simpl.
  intros [(? & ? & ?) ?] ?. done.
Qed.

Lemma block_active_cells_NoDup : NoDup (cell l <$> block_active).
Proof.
  apply NoDup_fmap_2_strong.
  - intros t t' Ht Ht' Hc. apply elem_of_block_active in Ht as [Ht _], Ht' as [Ht' _].
    by apply (cell_inj l b).
  - apply NoDup_filter, NoDup_block_threads.
Qed.

Lemma block_active_row_range t : t ∈ block_active -> 0 <= row_of t < bs.
Proof.
  destruct wf. rewrite elem_of_block_active. unfold in_block, LayerNormSpec.row_of.
  intros [(? & ? & ?) ?]. nia.
Qed.

Lemma block_active_batch t : t ∈ block_active -> batch l t = row_of t.
Proof.
  rewrite elem_of_block_active. intros [Ht _]. by apply (batch_eq l bs hs wf).
Qed.

Lemma block_active_batch_idx t :
  t ∈ block_active -> batch_idx l hs t = row_of t * hs.
Proof.
  intros Ht. apply elem_of_block_active in Ht as [Ht Hr].
  apply (batch_idx_eq l bs hs wf); [done..|]. by apply (active_iff l bs hs wf b).
Qed.

(** An element of an active row lies in [x] and [y]. *)
Lemma row_elem_range t i :
  t ∈ block_active -> 0 <= i < hs ->
  0 <= row_of t * hs + i < bs * hs /\ in_int (row_of t * hs + i).
Proof.
  intros Ht Hi. apply block_active_row_range in Ht. destruct wf.
  assert (0 <= row_of t * hs + i < bs * hs) by nia.
  split; [done|]. apply in_int_bounds. lia.
Qed.

Variable d : device T.
Hypothesis x_len : Z.of_nat (length (d_x d)) = bs * hs.

(** The loops of lines 45-46 and 62-65. *)
Lemma reduce_loop (phi : T -> T) t :
  t ∈ block_active ->
  for_strided l hs (loop_fuel hs) (index t)
    (fun i acc => v ← ld (d_x d) (int_add (batch_idx l hs t) i); Ok (acc ⊕ phi v))
    s_zero
  = Ok (partial (blockDim_y l) hs
          (fun i => phi (x_row (d_x d) hs (row_of t) i)) (threadIdx_y t)).
Proof.
  intros Ht. pose proof Ht as Hin. apply elem_of_block_active in Hin as [Hin _].
  rewrite (index_eq l bs hs wf b) by done.
  pose proof (stride_eq l bs hs wf) as Hs.
  edestruct (for_strided_fold l hs) with (I := fun _ : T => True)
    (g := fun acc i => acc ⊕ phi (x_row (d_x d) hs (row_of t) i))
    as [-> _]; [rewrite Hs; apply wf|rewrite Hs; apply wf| | |done| |].
  - destruct Hin as (_ & _ & ?). lia.
  - unfold loop_fuel. destruct Hin as (_ & _ & ?). lia.
  - intros j acc _ Hj. split; [|done].
    rewrite (block_active_batch_idx t Ht).
    destruct (row_elem_range t j Ht Hj) as [Hr Hint].
    rewrite int_add_small by done. rewrite ld_ok by lia. done.
  - unfold partial, sum_list. rewrite foldl_fmap, Hs. done.
Qed.

Variable sh : list T.
Hypothesis sh_len : blockDim_x l * blockDim_y l <= Z.of_nat (length sh).

Lemma cell_in_shared t : t ∈ block_active -> 0 <= cell l t < Z.of_nat (length sh).
Proof.
  intros Ht. apply elem_of_block_active in Ht as [Ht _].
  pose proof (cell_bounds l b t Ht). lia.
Qed.

Lemma seg_sum_thread t m :
  t ∈ block_active ->
  seg_sum l hs t m (BState d sh)
  = Ok (m, BState d (<[Z.to_nat (cell l t) :=
                        partial (blockDim_y l) hs (x_row (d_x d) hs (row_of t))
                          (threadIdx_y t)]> sh)).
Proof.
  intros Ht. unfold seg_sum. simpl.
  rewrite (reduce_loop (fun v => v) t Ht). simpl.
  rewrite (cell_eq l bs hs wf b) by (by apply elem_of_block_active in Ht as [? _]).
  rewrite st_ok by (by apply cell_in_shared). done.
Qed.

Lemma seg_sumsq_thread t m :
  t ∈ block_active ->
  seg_sumsq l hs t m (BState d sh)
  = Ok (m, BState d (<[Z.to_nat (cell l t) :=
                        partial (blockDim_y l) hs
                          (fun i => sqdiff m (x_row (d_x d) hs (row_of t) i))
                          (threadIdx_y t)]> sh)).
Proof.
  intros Ht.
  change (seg_sumsq l hs t m (BState d sh)) with
    (sumsq ← for_strided l hs (loop_fuel hs) (index t)
               (fun i acc =>
                  v ← ld (d_x d) (int_add (batch_idx l hs t) i);
                  Ok (acc ⊕ sqdiff m v))
               s_zero;
     sh' ← st sh (int_add (batch_block_idx l t) (index t)) sumsq;
     Ok (m, BState d sh')).
  rewrite (reduce_loop (sqdiff m) t Ht). simpl.
  rewrite (cell_eq l bs hs wf b) by (by apply elem_of_block_active in Ht as [? _]).
  rewrite st_ok by (by apply cell_in_shared). done.
Qed.

Lemma seg_tree_thread s t m :
  t ∈ block_active -> 0 < s -> 2 * s <= blockDim_y l ->
  seg_tree l t s m (BState d sh)
  = Ok (m, BState d (if threadIdx_y t <? s
                     then <[Z.to_nat (cell l t) :=
                              get sh (cell l t) ⊕ get sh (cell l t + s)]> sh
                     else sh)).
Proof.
  intros Ht Hs Hs2. pose proof (cell_in_shared t Ht) as Hc.
  apply elem_of_block_active in Ht as [Ht _].
  unfold seg_tree. rewrite !(cell_eq l bs hs wf b), (index_eq l bs hs wf b) by done.
  destruct (Z.ltb_spec (threadIdx_y t) s) as [Hlt|Hge]; [|done].
  assert (0 <= cell l t + s < blockDim_x l * blockDim_y l).
  { unfold cell. destruct Ht as (_ & ? & ?). nia. }
  rewrite int_add_small by (destruct wf; apply in_int_bounds; lia).
  simpl. rewrite !ld_ok by lia. simpl. rewrite st_ok by lia. done.
Qed.

Lemma seg_mean_thread t m :
  t ∈ block_active ->
  seg_mean l hs t m (BState d sh)
  = Ok (get sh (threadIdx_x t * blockDim_y l) ⊘ s_of_int hs, BState d sh).
Proof.
  intros Ht. apply elem_of_block_active in Ht as [Ht _].
  unfold seg_mean. rewrite (batch_block_idx_eq l bs hs wf b) by done. simpl.
  rewrite ld_ok; [done|]. destruct Ht as (_ & ? & ?). nia.
Qed.

End ThreadSegments.

(** ** The tree reduction on cells *)

Section TreeModel.
Import RowModel.
Context {T : Type} `{Scalar T}.

Lemma tree_round_ext n s p p' j :
  0 < s -> 2 * s <= n -> 0 <= j < n ->
  (forall i, 0 <= i < n -> p i = p' i) ->
  tree_round s p j = tree_round s p' j.
Proof.
  intros Hs Hn Hj Hp. unfold tree_round.
  destruct (Z.ltb_spec j s); [|by apply Hp].
  rewrite (Hp j), (Hp (j + s)) by lia. done.
Qed.

Lemma tree_red_ext n s : forall p p' j,
  2 * Z.pos s <= n -> 0 <= j < n ->
  (forall i, 0 <= i < n -> p i = p' i) ->
  tree_red s p j = tree_red s p' j.
Proof.
  induction s as [q IH|q IH|]; intros p p' j Hn Hj Hp; simpl.
  - apply IH; [lia|done|]. intros i Hi. apply (tree_round_ext n); (done || lia).
  - apply IH; [lia|done|]. intros i Hi. apply (tree_round_ext n); (done || lia).
  - apply (tree_round_ext n); (done || lia).
Qed.

Lemma tree_reduce_ext n p p' :
  0 < n -> (forall i, 0 <= i < n -> p i = p' i) ->
  tree_reduce n p = tree_reduce n p'.
Proof.
  intros Hn Hp. unfold tree_reduce, int_half.
  destruct (Z.quot n 2) as [|s|s] eqn:Hq; [apply Hp; lia| |apply Hp; lia].
  apply (tree_red_ext n); [|lia|done].
  rewrite <- Hq. rewrite Z.quot_div_nonneg by lia.
  pose proof (Z.mul_div_le n 2). lia.
Qed.

Lemma partial_ext n hs f f' k :
  0 < n -> 0 <= k ->
  (forall i, 0 <= i < hs -> f i = f' i) ->
  partial n hs f k = partial n hs f' k.
Proof.
  intros Hn Hk Hf. unfold partial. f_equal. apply list_fmap_ext.
  intros ? i Hi%list_elem_of_lookup_2. apply Hf.
  apply strided_lower in Hi; lia.
Qed.

End TreeModel.

(** ** One block, one segment *)

Section BlockSegments.
Import RowModel LayerNorm LayerNormSpec.
Context {T : Type} `{Scalar T}.
Variables (l : launch) (bs hs b : Z).
Hypothesis wf : wf_launch l bs hs.
Hypothesis b_range : 0 <= b < gridDim_x l.
Variable d : device T.
Hypothesis x_len : Z.of_nat (length (d_x d)) = bs * hs.

(** The threads of the block that run, in the order in which they are run:
    any order. *)
Variable ths : list thread.
Hypothesis ths_perm : ths ≡ₚ block_active l bs b.
Local Abbreviation act := (block_active l bs b).
Local Abbreviation n := (blockDim_y l).

Lemma run_segments_app (segs1 segs2 : list (segment T)) ts (s : bstate T) :
  run_segments (segs1 ++ segs2) ts s
  = r ← run_segments segs1 ts s; run_segments segs2 r.1 r.2.
Proof.
  revert ts s. induction segs1 as [|seg segs1 IH]; intros ts s; simpl; [done|].
  destruct (run_segment seg ts s) as [r| |]; simpl; [apply IH|done..].
Qed.

(** A segment in which every thread sets its cell to [V t]. *)
Lemma run_segment_set (seg : segment T) (Mf V : thread -> T) (sh0 : list T) :
  blockDim_x l * n <= Z.of_nat (length sh0) ->
  (forall t sh, t ∈ act -> length sh = length sh0 ->
     seg t (Mf t) (BState d sh)
     = Ok (Mf t, BState d (<[Z.to_nat (cell l t) := V t]> sh))) ->
  exists sh', run_segment seg (with_mean Mf ths) (BState d sh0)
              = Ok (with_mean Mf ths, BState d sh')
    /\ length sh' = length sh0
    /\ (forall t, t ∈ act -> get sh' (cell l t) = V t).
Proof.
  intros Hlen Hseg.
  destruct (run_segment_cells l seg Mf (fun t => Some (V t)) d sh0 ths)
    as (sh' & Hrun & Hlen' & Hval & _).
  - rewrite ths_perm. apply (block_active_cells_NoDup l bs hs b wf b_range).
  - intros t Ht. rewrite ths_perm in Ht.
    by apply (cell_in_shared l bs hs b wf b_range).
  - intros t sh Ht Hl _. rewrite ths_perm in Ht. by apply Hseg.
  - exists sh'. split; [done|]. split; [done|].
    intros t Ht. apply Hval. by rewrite ths_perm.
Qed.

Lemma run_seg_sum (Mf : thread -> T) (sh0 : list T) :
  blockDim_x l * n <= Z.of_nat (length sh0) ->
  exists sh', run_segment (fun t => seg_sum l hs t) (with_mean Mf ths) (BState d sh0)
              = Ok (with_mean Mf ths, BState d sh')
    /\ length sh' = length sh0
    /\ (forall t, t ∈ act ->
          get sh' (cell l t)
          = partial n hs (x_row (d_x d) hs (row_of l b t)) (threadIdx_y t)).
Proof.
  intros Hlen. apply run_segment_set; [done|]. intros t sh Ht Hl.
  apply (seg_sum_thread l bs hs b wf b_range d x_len); [lia|done].
Qed.

Lemma run_seg_sumsq (Mf : thread -> T) (sh0 : list T) :
  blockDim_x l * n <= Z.of_nat (length sh0) ->
  exists sh', run_segment (fun t => seg_sumsq l hs t) (with_mean Mf ths) (BState d sh0)
              = Ok (with_mean Mf ths, BState d sh')
    /\ length sh' = length sh0
    /\ (forall t, t ∈ act ->
          get sh' (cell l t)
          = partial n hs (fun i => sqdiff (Mf t) (x_row (d_x d) hs (row_of l b t) i))
              (threadIdx_y t)).
Proof.
  intros Hlen. apply run_segment_set; [done|]. intros t sh Ht Hl.
  apply (seg_sumsq_thread l bs hs b wf b_range d x_len); [lia|done].
Qed.

Local Abbreviation row_cells := (LayerNormSpec.row_cells l).

Lemma run_seg_tree (s : Z) (Mf : thread -> T) (sh0 : list T) :
  0 < s -> 2 * s <= n ->
  blockDim_x l * n <= Z.of_nat (length sh0) ->
  exists sh', run_segment (fun t => seg_tree l t s) (with_mean Mf ths) (BState d sh0)
              = Ok (with_mean Mf ths, BState d sh')
    /\ length sh' = length sh0
    /\ (forall t, t ∈ act ->
          get sh' (cell l t) = tree_round s (row_cells sh0 t) (threadIdx_y t)).
Proof.
  intros Hs Hs2 Hlen.
  destruct (run_segment_cells l (fun t => seg_tree l t s) Mf
              (fun t => if threadIdx_y t <? s
                        then Some (get sh0 (cell l t) ⊕ get sh0 (cell l t + s))
                        else None) d sh0 ths)
    as (sh' & Hrun & Hlen' & Hval & _).
  - rewrite ths_perm. apply (block_active_cells_NoDup l bs hs b wf b_range).
  - intros t Ht. rewrite ths_perm in Ht.
    by apply (cell_in_shared l bs hs b wf b_range).
  - intros t sh Ht Hl Hagree. rewrite ths_perm in Ht.
    rewrite (seg_tree_thread l bs hs b wf b_range d sh) by (done || lia).
    destruct (Z.ltb_spec (threadIdx_y t) s) as [Hlt|Hge]; [|done].
    pose proof (block_active_in_block l bs hs b wf b_range t Ht) as Hin.
    pose proof (cell_bounds l b t Hin) as Hc.
    pose proof Hin as (_ & _ & Hty).
    rewrite !Hagree; [done|lia| |lia|].
    + intros t' Ht' Hc'. right. rewrite ths_perm in Ht'.
      apply (block_active_in_block l bs hs b wf b_range) in Ht'.
      assert (threadIdx_y t' = threadIdx_y t + s) as ->.
      { destruct Ht' as (_ & _ & ?).
        by destruct (cell_split n (threadIdx_x t') (threadIdx_x t)
                       (threadIdx_y t') (threadIdx_y t + s)
                       ltac:(lia) ltac:(lia)
                       ltac:(unfold cell in Hc'; lia)). }
      destruct (Z.ltb_spec (threadIdx_y t + s) s); [lia|done].
    + intros t' Ht' Hc'. left. rewrite ths_perm in Ht'.
      apply (block_active_in_block l bs hs b wf b_range) in Ht'.
      by apply (cell_inj l b).
  - exists sh'. split; [done|]. split; [done|]. intros t Ht.
    rewrite (Hval t ltac:(by rewrite ths_perm)).
    unfold tree_round, LayerNormSpec.row_cells, cell.
    destruct (Z.ltb_spec (threadIdx_y t) s); [|done].
    by rewrite Z.add_assoc.
Qed.

Lemma run_tree_from (Mf : thread -> T) (s : positive) : forall sh0 : list T,
  2 * Z.pos s <= n ->
  blockDim_x l * n <= Z.of_nat (length sh0) ->
  exists sh', run_segments (tree_from l s) (with_mean Mf ths) (BState d sh0)
              = Ok (with_mean Mf ths, BState d sh')
    /\ length sh' = length sh0
    /\ (forall t, t ∈ act ->
          get sh' (cell l t) = tree_red s (row_cells sh0 t) (threadIdx_y t)).
Proof.
  assert (Hstep : forall (q : positive) (s : Z) (sh0 : list T),
    0 < s -> 2 * s <= n -> 2 * Z.pos q <= s ->
    blockDim_x l * n <= Z.of_nat (length sh0) ->
    (forall sh1 : list T, 2 * Z.pos q <= n ->
       blockDim_x l * n <= Z.of_nat (length sh1) ->
       exists sh', run_segments (tree_from l q) (with_mean Mf ths) (BState d sh1)
                   = Ok (with_mean Mf ths, BState d sh')
         /\ length sh' = length sh1
         /\ (forall t, t ∈ act ->
               get sh' (cell l t) = tree_red q (row_cells sh1 t) (threadIdx_y t))) ->
    exists sh', (r ← run_segment (fun t => seg_tree l t s) (with_mean Mf ths)
                     (BState d sh0);
                 run_segments (tree_from l q) r.1 r.2)
                = Ok (with_mean Mf ths, BState d sh')
      /\ length sh' = length sh0
      /\ (forall t, t ∈ act ->
            get sh' (cell l t)
            = tree_red q (tree_round s (row_cells sh0 t)) (threadIdx_y t))).
  { intros q s0 sh0 Hs Hs2 Hq Hlen IH.
    destruct (run_seg_tree s0 Mf sh0 Hs Hs2 Hlen) as (sh1 & Hrun1 & Hlen1 & Hval1).
    destruct (IH sh1 ltac:(lia) ltac:(lia)) as (sh' & Hrun & Hlen' & Hval).
    exists sh'. rewrite Hrun1. simpl. split; [done|]. split; [congruence|].
    intros t Ht. rewrite (Hval t Ht).
    pose proof (block_active_in_block l bs hs b wf b_range t Ht) as Hin.
    apply (tree_red_ext n); [lia|destruct Hin as (_ & _ & ?); lia|].
    intros i Hi. unfold LayerNormSpec.row_cells at 1.
    specialize (Hval1 _ (block_active_row l bs hs b wf b_range t i Ht Hi)).
    unfold cell in Hval1. simpl in Hval1. rewrite Hval1. done. }
  induction s as [q IH|q IH|]; intros sh0 Hn Hlen.
  - apply Hstep; (done || lia).
  - apply Hstep; (done || lia).
  - destruct (run_seg_tree 1 Mf sh0 ltac:(lia) ltac:(lia) Hlen)
      as (sh1 & Hrun1 & Hlen1 & Hval1).
    exists sh1. simpl. rewrite Hrun1. done.
Qed.

Lemma run_tree_segs (Mf : thread -> T) (sh0 : list T) :
  blockDim_x l * n <= Z.of_nat (length sh0) ->
  exists sh', run_segments (tree_segs l) (with_mean Mf ths) (BState d sh0)
              = Ok (with_mean Mf ths, BState d sh')
    /\ length sh' = length sh0
    /\ (forall t, t ∈ act ->
          get sh' (threadIdx_x t * n) = tree_reduce n (row_cells sh0 t)).
Proof.
  intros Hlen. unfold tree_segs, tree_reduce.
  fold (stride l). rewrite (stride_eq l bs hs wf).
  destruct wf. unfold int_half.
  destruct (Z.quot n 2) as [|s|s] eqn:Hq.
  - exists sh0. split; [done|]. split; [done|]. intros t Ht.
    unfold LayerNormSpec.row_cells. by rewrite Z.add_0_r.
  - assert (2 * Z.pos s <= n).
    { rewrite <- Hq, Z.quot_div_nonneg by lia. pose proof (Z.mul_div_le n 2). lia. }
    destruct (run_tree_from Mf s sh0) as (sh' & Hrun & Hlen' & Hval); [done..|].
    exists sh'. split; [done|]. split; [done|]. intros t Ht.
    specialize (Hval _ (block_active_row l bs hs b wf b_range t 0 Ht ltac:(lia))).
    unfold cell in Hval. simpl in Hval. rewrite Z.add_0_r in Hval. rewrite Hval.
    apply (tree_red_ext n); [done|lia|done].
  - exists sh0. split; [done|]. split; [done|]. intros t Ht.
    unfold LayerNormSpec.row_cells. by rewrite Z.add_0_r.
Qed.

End BlockSegments.

(** ** The two reductions of a block *)

Section BlockPhases.
Import RowModel LayerNorm LayerNormSpec.
Context {T : Type} `{Scalar T}.
Variables (l : launch) (bs hs b : Z).
Hypothesis wf : wf_launch l bs hs.
Hypothesis b_range : 0 <= b < gridDim_x l.
Variable d : device T.
Hypothesis x_len : Z.of_nat (length (d_x d)) = bs * hs.

Variable ths : list thread.
Hypothesis ths_perm : ths ≡ₚ block_active l bs b.
Local Abbreviation act := (block_active l bs b).
Local Abbreviation n := (blockDim_y l).
Local Abbreviation xr := (fun t => x_row (d_x d) hs (row_of l b t)).

Lemma with_mean_ext (Mf Mf' : thread -> T) (ts : list thread) :
  (forall t, t ∈ ts -> Mf t = Mf' t) -> with_mean Mf ts = with_mean Mf' ts.
Proof.
  intros HM. unfold with_mean. apply list_fmap_ext.
  intros ? t Ht%list_elem_of_lookup_2. by rewrite HM.
Qed.

Lemma run_seg_mean (Mf : thread -> T) (sh : list T) :
  blockDim_x l * n <= Z.of_nat (length sh) ->
  run_segment (fun t => seg_mean l hs t) (with_mean Mf ths) (BState d sh)
  = Ok (with_mean (fun t => get sh (threadIdx_x t * n) ⊘ s_of_int hs) ths,
        BState d sh).
Proof.
  intros Hlen.
  assert (Hsub : forall ts, (forall t, t ∈ ts -> t ∈ act) ->
    run_segment (fun t => seg_mean l hs t) (with_mean Mf ts) (BState d sh)
    = Ok (with_mean (fun t => get sh (threadIdx_x t * n) ⊘ s_of_int hs) ts,
          BState d sh)).
  { induction ts as [|t ts IH]; intros Hts; [done|].
    cbn [with_mean fmap list_fmap run_segment].
    rewrite (seg_mean_thread l bs hs b wf b_range d sh Hlen)
      by (apply Hts, elem_of_cons; by left).
    simpl. fold (with_mean Mf ts). rewrite IH; [done|].
    intros t' Ht'. apply Hts, elem_of_cons. by right. }
  apply Hsub. intros t Ht. by rewrite <- ths_perm.
Qed.

(** The row of a thread and its partial sums depend on [threadIdx.x] only. *)
Lemma row_cells_partial (V : thread -> T) (P : thread -> Z -> T) (sh : list T) t :
  t ∈ act ->
  (forall t', t' ∈ act -> get sh (cell l t') = V t') ->
  (forall j, 0 <= j < n -> V (Thread b (threadIdx_x t) j) = P t j) ->
  forall j, 0 <= j < n -> row_cells l sh t j = P t j.
Proof.
  intros Ht HV HP j Hj. unfold LayerNormSpec.row_cells.
  specialize (HV _ (block_active_row l bs hs b wf b_range t j Ht Hj)).
  unfold cell in HV. simpl in HV. rewrite HV. by apply HP.
Qed.

Lemma run_phase1 (Mf : thread -> T) (sh0 : list T) :
  blockDim_x l * n <= Z.of_nat (length sh0) ->
  exists sh', run_segments (phase1 l hs) (with_mean Mf ths) (BState d sh0)
              = Ok (with_mean Mf ths, BState d sh')
    /\ length sh' = length sh0
    /\ (forall t, t ∈ act ->
          get sh' (threadIdx_x t * n) = tree_reduce n (partial n hs (xr t))).
Proof.
  intros Hlen. unfold phase1. cbn [run_segments].
  destruct (run_seg_sum l bs hs b wf b_range d x_len ths ths_perm Mf sh0 Hlen)
    as (sh1 & -> & Hlen1 & Hval1). simpl.
  destruct (run_tree_segs l bs hs b wf b_range d ths ths_perm Mf sh1 ltac:(lia))
    as (sh' & -> & Hlen' & Hval').
  exists sh'. split; [done|]. split; [congruence|]. intros t Ht.
  rewrite (Hval' t Ht). destruct wf.
  apply tree_reduce_ext; [done|].
  apply (row_cells_partial _ (fun t j => partial n hs (xr t) j) sh1 t Ht Hval1).
  done.
Qed.

Lemma run_phase2 (Mf : thread -> T) (sh0 : list T) :
  blockDim_x l * n <= Z.of_nat (length sh0) ->
  (forall t t', t ∈ act -> t' ∈ act ->
     threadIdx_x t = threadIdx_x t' -> Mf t = Mf t') ->
  exists sh', run_segments (phase2 l hs) (with_mean Mf ths) (BState d sh0)
              = Ok (with_mean Mf ths, BState d sh')
    /\ length sh' = length sh0
    /\ (forall t, t ∈ act ->
          get sh' (threadIdx_x t * n)
          = tree_reduce n (partial n hs (fun i => sqdiff (Mf t) (xr t i)))).
Proof.
  intros Hlen Huni. unfold phase2. cbn [run_segments].
  destruct (run_seg_sumsq l bs hs b wf b_range d x_len ths ths_perm Mf sh0 Hlen)
    as (sh1 & -> & Hlen1 & Hval1). simpl.
  destruct (run_tree_segs l bs hs b wf b_range d ths ths_perm Mf sh1 ltac:(lia))
    as (sh' & -> & Hlen' & Hval').
  exists sh'. split; [done|]. split; [congruence|]. intros t Ht.
  rewrite (Hval' t Ht). destruct wf.
  apply tree_reduce_ext; [done|].
  apply (row_cells_partial _
           (fun t j => partial n hs (fun i => sqdiff (Mf t) (xr t i)) j) sh1 t Ht Hval1).
  intros j Hj. simpl.
  rewrite (Huni _ t (block_active_row l bs hs b wf b_range t j Ht Hj) Ht); done.
Qed.

(** Both reductions: the threads of a row hold the row's mean, and cell 0 of
    the row holds the sum of the squared differences. *)
Lemma run_reductions (m0 : T) (sh0 : list T) :
  blockDim_x l * n <= Z.of_nat (length sh0) ->
  exists sh',
    run_segments (phase1 l hs ++ [fun t => seg_mean l hs t] ++ phase2 l hs)
      (with_mean (fun _ => m0) ths) (BState d sh0)
    = Ok (with_mean (fun t => k_mean n hs (xr t)) ths, BState d sh')
    /\ length sh' = length sh0
    /\ (forall t, t ∈ act ->
          get sh' (threadIdx_x t * n)
          = tree_reduce n
              (partial n hs (fun i => sqdiff (k_mean n hs (xr t)) (xr t i)))).
Proof.
  intros Hlen. rewrite run_segments_app.
  destruct (run_phase1 (fun _ => m0) sh0 Hlen) as (sh1 & -> & Hlen1 & Hval1).
  cbn [mbind result_bind fst snd app run_segments].
  rewrite run_seg_mean by lia. cbn [mbind result_bind fst snd].
  rewrite (with_mean_ext _ (fun t => k_mean n hs (xr t))).
  2:{ intros t Ht. rewrite ths_perm in Ht. unfold k_mean. by rewrite (Hval1 t Ht). }
  destruct (run_phase2 (fun t => k_mean n hs (xr t)) sh1 ltac:(lia))
    as (sh2 & -> & Hlen2 & Hval2).
  { intros t t' _ _ Htx. unfold row_of. by rewrite Htx. }
  exists sh2. split; [done|]. split; [congruence|]. done.
Qed.

End BlockPhases.

(** ** The output segment *)

Section BlockOutput.
Import RowModel LayerNorm LayerNormSpec.
Context {T : Type} `{Scalar T}.
Variables (l : launch) (bs hs b : Z).
Hypothesis wf : wf_launch l bs hs.
Hypothesis b_range : 0 <= b < gridDim_x l.
Variable d0 : device T.
Hypothesis d0_fits : fits bs hs d0.
(** The mean and the inverse standard deviation of every row. *)
Variables (M IS : Z -> T).

Local Abbreviation ths := (block_active l bs b).
Local Abbreviation n := (blockDim_y l).
Local Abbreviation idxs := (fun t => strided n hs (Z.to_nat hs) (threadIdx_y t)).

Local Abbreviation out_val := (LayerNormSpec.out_val hs d0 M IS).
Local Abbreviation out_step := (LayerNormSpec.out_step hs M IS).

Lemma out_fold_spec r (ixs : list Z) : forall d,
  same_inputs d0 d ->
  (forall i, i ∈ ixs -> 0 <= r * hs + i < Z.of_nat (length (d_y d))) ->
  let d' := foldl (out_step r) d ixs in
  same_inputs d0 d' /\ d_cache d' = d_cache d
  /\ (forall i, i ∈ ixs -> get (d_y d') (r * hs + i) = out_val r i)
  /\ (forall j, 0 <= j -> (forall i, i ∈ ixs -> j <> r * hs + i) ->
        get (d_y d') j = get (d_y d) j).
Proof.
  induction ixs as [|i0 ixs IH]; intros d Hsame Hin; simpl.
  - split; [done|]. split; [done|]. split; [|done].
    intros i Hi. by apply elem_of_nil in Hi.
  - destruct Hsame as (Ha & Hb & Hx & Hy & Hc).
    pose proof (Hin i0 ltac:(apply elem_of_cons; by left)) as Hi0.
    destruct (IH (out_step r d i0)) as (Hsame' & Hcache' & Hval' & Hkeep').
    { unfold same_inputs, LayerNormSpec.out_step. simpl. by rewrite length_insert. }
    { intros i Hi. unfold LayerNormSpec.out_step. simpl. rewrite length_insert.
      apply Hin, elem_of_cons. by right. }
    split; [done|]. split; [done|]. split.
    + intros i Hi. destruct (decide (i ∈ ixs)) as [Hi'|Hi']; [by apply Hval'|].
      apply elem_of_cons in Hi as [->|Hi]; [|done].
      rewrite Hkeep'; [|lia|intros i' Hi2 Heq; apply Hi'; by replace i0 with i' by lia].
      unfold LayerNormSpec.out_step. simpl. rewrite get_insert_eq by lia.
      unfold LayerNormSpec.out_val, x_row. by rewrite Ha, Hb, Hx.
    + intros j Hj Hne. rewrite Hkeep'; [|done|].
      * unfold LayerNormSpec.out_step. simpl. apply get_insert_ne; [lia|done|].
        apply not_eq_sym, Hne, elem_of_cons. by left.
      * intros i Hi. apply Hne, elem_of_cons. by right.
Qed.

Lemma seg_out_thread t (sh : list T) (d : device T) :
  t ∈ ths -> same_inputs d0 d ->
  blockDim_x l * n <= Z.of_nat (length sh) ->
  s_rsqrt (get sh (threadIdx_x t * n) ⊘ s_of_int hs ⊕ s_eps) = IS (row_of l b t) ->
  let r := row_of l b t in
  exists d', seg_out l hs t (M r) (BState d sh) = Ok (M r, BState d' sh)
    /\ same_inputs d0 d'
    /\ (forall i, i ∈ idxs t -> get (d_y d') (r * hs + i) = out_val r i)
    /\ (forall j, 0 <= j -> (forall i, i ∈ idxs t -> j <> r * hs + i) ->
          get (d_y d') j = get (d_y d) j)
    /\ get (d_cache d') (2 * r) = M r
    /\ get (d_cache d') (2 * r + 1) = IS r
    /\ (forall j, 0 <= j -> j <> 2 * r -> j <> 2 * r + 1 ->
          get (d_cache d') j = get (d_cache d) j).
Proof.
  intros Ht Hsame Hlen HIS r. subst r.
  pose proof (block_active_in_block l bs hs b wf b_range t Ht) as Hin.
  pose proof (block_active_row_range l bs hs b wf b_range t Ht) as Hr.
  destruct d0_fits as (Fa & Fb & Fx & Fy & Fc).
  pose proof Hsame as (Ha & Hb & Hx & Hy & Hc).
  pose proof (stride_eq l bs hs wf) as Hs.
  pose proof Hin as (_ & Htx & Hty).
  unfold seg_out. cbn [dev shared].
  rewrite (batch_block_idx_eq l bs hs wf b) by done.
  rewrite ld_ok by nia.
  cbn [mbind result_bind]. rewrite HIS.
  rewrite (index_eq l bs hs wf b) by done.
  rewrite (block_active_batch_idx l bs hs b wf b_range t Ht).
  rewrite (block_active_batch l bs hs b wf b_range t Ht).
  edestruct (for_strided_fold l hs) with (I := same_inputs d0)
    (g := out_step (row_of l b t)) (a := d) as [-> Hsame'];
    [rewrite Hs; apply wf|rewrite Hs; apply wf| | |exact Hsame| |].
  - lia.
  - unfold loop_fuel. lia.
  - intros j a (Ha' & Hb' & Hx' & Hy' & Hc') Hj.
    destruct (row_elem_range l bs hs b wf b_range t j Ht Hj) as [Hrj Hint].
    assert (Z.of_nat (length (d_x a)) = bs * hs) by (by rewrite Hx').
    assert (Z.of_nat (length (d_alpha a)) = hs) by (by rewrite Ha').
    assert (Z.of_nat (length (d_beta a)) = hs) by (by rewrite Hb').
    rewrite int_add_small by done.
    rewrite !ld_ok by lia. cbn [mbind result_bind].
    rewrite st_ok by lia. cbn [mbind result_bind].
    split; [done|]. unfold same_inputs, LayerNormSpec.out_step. simpl.
    rewrite length_insert. done.
  - rewrite Hs in Hsame' |- *. fold (loop_fuel hs).
    destruct (out_fold_spec (row_of l b t) (idxs t) d Hsame)
      as (_ & Hcache & Hval & Hkeep).
    { intros i Hi. apply strided_lower in Hi; [|apply wf].
      assert (Hi' : 0 <= i < hs) by lia.
      destruct (row_elem_range l bs hs b wf b_range t i Ht Hi'). lia. }
    unfold loop_fuel in *.
    set (d1 := foldl (out_step (row_of l b t)) d (idxs t)) in *.
    destruct Hsame' as (Ha1 & Hb1 & Hx1 & Hy1 & Hc1).
    cbn [mbind result_bind].
    assert (Hr2 : in_int (row_of l b t * 2))
      by (destruct wf; apply in_int_bounds; lia).
    rewrite (int_mul_small (row_of l b t) 2) by done.
    rewrite !int_add_small by (destruct wf; apply in_int_bounds; lia).
    rewrite st_ok by lia. cbn [mbind result_bind].
    rewrite st_ok by (rewrite length_insert; lia). cbn [mbind result_bind].
    eexists. split; [reflexivity|].
    split; [|split; [|split; [|split; [|split]]]]; simpl.
    + unfold same_inputs. simpl. rewrite !length_insert. done.
    + done.
    + done.
    + rewrite get_insert_ne by lia.
      replace (2 * row_of l b t) with (row_of l b t * 2 + 0) by lia.
      apply get_insert_eq. lia.
    + replace (2 * row_of l b t + 1) with (row_of l b t * 2 + 1) by lia.
      apply get_insert_eq. rewrite length_insert. lia.
    + intros j Hj Hj0 Hj1. rewrite !get_insert_ne by lia. by rewrite Hcache.
Qed.

End BlockOutput.

(** ** One block *)

Section BlockRun.
Import RowModel LayerNorm LayerNormSpec.
Context {T : Type} `{Scalar T}.
Variables (l : launch) (bs hs b : Z).
Hypothesis wf : wf_launch l bs hs.
Hypothesis b_range : 0 <= b < gridDim_x l.
Variable d0 : device T.
Hypothesis d0_fits : fits bs hs d0.
Variables (M IS : Z -> T).
Variable sh : list T.
Hypothesis sh_len : blockDim_x l * blockDim_y l <= Z.of_nat (length sh).

Variable ths : list thread.
Hypothesis ths_perm : ths ≡ₚ block_active l bs b.
Local Abbreviation act := (block_active l bs b).
Local Abbreviation n := (blockDim_y l).
Local Abbreviation idxs := (fun t => strided n hs (Z.to_nat hs) (threadIdx_y t)).
Local Abbreviation row := (row_of l b).
Local Abbreviation outv := (out_val hs d0 M IS).

Hypothesis sh_invstd : forall t, t ∈ act ->
  s_rsqrt (get sh (threadIdx_x t * n) ⊘ s_of_int hs ⊕ s_eps) = IS (row t).

Local Abbreviation out_inv := (LayerNormSpec.out_inv l hs b d0 M IS).
Local Abbreviation block_row := (LayerNormSpec.block_row l bs b).

Lemma out_inv_step pre t d d' :
  t ∈ act ->
  out_inv pre d ->
  same_inputs d0 d' ->
  (forall i, i ∈ idxs t -> get (d_y d') (row t * hs + i) = outv (row t) i) ->
  (forall j, 0 <= j -> (forall i, i ∈ idxs t -> j <> row t * hs + i) ->
     get (d_y d') j = get (d_y d) j) ->
  get (d_cache d') (2 * row t) = M (row t) ->
  get (d_cache d') (2 * row t + 1) = IS (row t) ->
  (forall j, 0 <= j -> j <> 2 * row t -> j <> 2 * row t + 1 ->
     get (d_cache d') j = get (d_cache d) j) ->
  (forall t', t' ∈ pre -> t' ∈ act) ->
  out_inv (pre ++ [t]) d'.
Proof.
  intros Ht (Hsame & Hy & Hykeep & Hc & Hckeep) Hsame' Hy' Hykeep' Hc0 Hc1 Hckeep' Hpre.
  pose proof (block_active_row_range l bs hs b wf b_range t Ht) as Hr.
  assert (Hn : 0 < n) by apply wf.
  split; [done|]. split; [|split; [|split]].
  - intros t1 i Ht1 Hi. apply elem_of_app in Ht1 as [Ht1|Ht1].
    + pose proof (Hpre t1 Ht1) as Ht1'.
      pose proof (block_active_in_block l bs hs b wf b_range t1 Ht1') as (_ & _ & Hty1).
      pose proof (block_active_in_block l bs hs b wf b_range t Ht) as (_ & _ & Hty).
      pose proof (block_active_row_range l bs hs b wf b_range t1 Ht1') as Hr1.
      pose proof (strided_lower _ _ _ _ _ Hn Hi) as Hi_range.
      destruct (decide (row t1 * hs + i - row t * hs ∈ idxs t)) as [Hw|Hw].
      * pose proof (strided_lower _ _ _ _ _ Hn Hw) as Hw_range.
        destruct (cell_split hs (row t1) (row t) i (row t1 * hs + i - row t * hs))
          as [Hrow _]; [lia..|].
        specialize (Hy' _ Hw). rewrite Hrow in Hy' |- *.
        replace (row t * hs + i - row t * hs) with i in Hy' by lia. done.
      * rewrite Hykeep'; [by apply Hy|nia|].
        intros i' Hi' Heq. apply Hw.
        by replace (row t1 * hs + i - row t * hs) with i' by lia.
    + apply list_elem_of_singleton in Ht1 as ->. by apply Hy'.
  - intros j Hj Hne. rewrite Hykeep'; [apply Hykeep; [done|]|done|].
    + intros t1 i Ht1 Hi. apply Hne; [|done]. apply elem_of_app. by left.
    + intros i Hi. apply Hne; [|done]. apply elem_of_app. right.
      by apply list_elem_of_singleton.
  - intros t1 Ht1. apply elem_of_app in Ht1 as [Ht1|Ht1].
    + destruct (Hc t1 Ht1) as [Hc0' Hc1'].
      pose proof (block_active_row_range l bs hs b wf b_range t1 (Hpre t1 Ht1)).
      destruct (decide (row t1 = row t)) as [->|Hne]; [done|].
      rewrite !Hckeep' by lia. done.
    + apply list_elem_of_singleton in Ht1 as ->. done.
  - intros j Hj Hne.
    destruct (Hne t ltac:(apply elem_of_app; right; by apply list_elem_of_singleton)).
    rewrite Hckeep' by done. apply Hckeep; [done|].
    intros t1 Ht1. apply Hne, elem_of_app. by left.
Qed.

Lemma run_seg_out_aux (ts : list thread) : forall pre d,
  (forall t, t ∈ ts -> t ∈ act) ->
  (forall t, t ∈ pre -> t ∈ act) ->
  out_inv pre d ->
  exists d', run_segment (fun t => seg_out l hs t)
               (with_mean (fun t => M (row t)) ts) (BState d sh)
             = Ok (with_mean (fun t => M (row t)) ts, BState d' sh)
    /\ out_inv (pre ++ ts) d'.
Proof.
  induction ts as [|t ts IH]; intros pre d Hts Hpre Hinv.
  - exists d. by rewrite app_nil_r.
  - assert (Ht : t ∈ act) by (apply Hts, elem_of_cons; by left).
    destruct (seg_out_thread l bs hs b wf b_range d0 d0_fits M IS t sh d Ht)
      as (d1 & Hrun1 & Hsame1 & Hy1 & Hykeep1 & Hc0 & Hc1 & Hckeep1);
      [apply Hinv|done|by apply sh_invstd|].
    destruct (IH (pre ++ [t]) d1) as (d' & Hrun & Hinv').
    { intros t' Ht'. apply Hts, elem_of_cons. by right. }
    { intros t' [Ht'|Ht']%elem_of_app; [by apply Hpre|].
      by apply list_elem_of_singleton in Ht' as ->. }
    { by apply (out_inv_step pre t d d1). }
    exists d'. rewrite <- app_assoc in Hinv'. split; [|done].
    cbn [with_mean fmap list_fmap run_segment]. rewrite Hrun1.
    cbn [mbind result_bind fst snd]. fold (with_mean (fun t => M (row t)) ts).
    rewrite Hrun. done.
Qed.

Lemma block_row_thread r j :
  block_row r -> 0 <= j < n ->
  Thread b (r - blockDim_x l * b) j ∈ act
  /\ row (Thread b (r - blockDim_x l * b) j) = r.
Proof.
  intros [Hr Hbs] Hj. split.
  - apply (elem_of_block_active l bs hs b wf b_range).
    unfold in_block, LayerNormSpec.row_of. simpl. split; [|lia]. split; [done|]. lia.
  - unfold LayerNormSpec.row_of. simpl. lia.
Qed.

Lemma run_seg_out :
  exists d', run_segment (fun t => seg_out l hs t)
               (with_mean (fun t => M (row t)) ths) (BState d0 sh)
             = Ok (with_mean (fun t => M (row t)) ths, BState d' sh)
    /\ same_inputs d0 d'
    /\ (forall r i, block_row r -> 0 <= i < hs ->
          get (d_y d') (r * hs + i) = outv r i)
    /\ (forall j, 0 <= j ->
          (forall r i, block_row r -> 0 <= i < hs -> j <> r * hs + i) ->
          get (d_y d') j = get (d_y d0) j)
    /\ (forall r, block_row r ->
          get (d_cache d') (2 * r) = M r /\ get (d_cache d') (2 * r + 1) = IS r)
    /\ (forall j, 0 <= j ->
          (forall r, block_row r -> j <> 2 * r /\ j <> 2 * r + 1) ->
          get (d_cache d') j = get (d_cache d0) j).
Proof.
  assert (Hn : 0 < n) by apply wf.
  destruct (run_seg_out_aux ths [] d0) as (d' & Hrun & Hinv).
  { intros t Ht. by rewrite <- ths_perm. }
  { intros t Ht. by apply elem_of_nil in Ht. }
  { split; [done|]. split; [intros ?? Ht; by apply elem_of_nil in Ht|].
    split; [done|]. split; [intros ? Ht; by apply elem_of_nil in Ht|done]. }
  rewrite app_nil_l in Hinv.
  destruct Hinv as (Hsame & Hy & Hykeep & Hc & Hckeep).
  assert (Hrow : forall t, t ∈ act -> block_row (row t)).
  { intros t Ht.
    pose proof (block_active_in_block l bs hs b wf b_range t Ht) as (_ & ? & _).
    pose proof (block_active_row_range l bs hs b wf b_range t Ht).
    unfold LayerNormSpec.block_row, LayerNormSpec.row_of in *. lia. }
  exists d'. split; [done|]. split; [done|]. split; [|split; [|split]].
  - intros r i Hr Hi.
    destruct (block_row_thread r (i mod n) Hr) as [Ht Hrt]; [by apply Z.mod_pos_bound|].
    rewrite <- Hrt at 1 2.
    rewrite (Hy _ i ltac:(by rewrite ths_perm)); [by rewrite Hrt|]. simpl.
    pose proof (Z.mod_pos_bound i n Hn). pose proof (Z.mod_le i n ltac:(lia) Hn).
    apply strided_elem; [done|lia|].
    split; [lia|]. rewrite Zminus_mod, Zmod_mod, Z.sub_diag. done.
  - intros j Hj Hne. apply Hykeep; [done|]. intros t i Ht Hi.
    rewrite ths_perm in Ht. apply Hne; [by apply Hrow|].
    apply strided_lower in Hi; [|done].
    pose proof (block_active_in_block l bs hs b wf b_range t Ht) as (_ & _ & ?). lia.
  - intros r Hr.
    destruct (block_row_thread r 0 Hr) as [Ht Hrt]; [lia|].
    rewrite <- Hrt. apply Hc. by rewrite ths_perm.
  - intros j Hj Hne. apply Hckeep; [done|]. intros t Ht.
    rewrite ths_perm in Ht. by apply Hne, Hrow.
Qed.

End BlockRun.

(** ** The whole launch *)

Section Launch.
Import RowModel LayerNorm LayerNormSpec.
Context {T : Type} `{Scalar T}.
Variables (l : launch) (bs hs : Z).
Hypothesis wf : wf_launch l bs hs.
Variables (sh0 : Z -> Z -> T) (m0 : T).

Local Abbreviation n := (blockDim_y l).

Lemma fits_same_inputs (d d' : device T) :
  fits bs hs d -> same_inputs d d' -> fits bs hs d'.
Proof.
  intros (Fa & Fb & Fx & Fy & Fc) (Ha & Hb & Hx & Hy & Hc).
  unfold fits. by rewrite Ha, Hb, Hx, Hy, Hc.
Qed.

Lemma same_inputs_trans (d1 d2 d3 : device T) :
  same_inputs d1 d2 -> same_inputs d2 d3 -> same_inputs d1 d3.
Proof.
  intros (Ha & Hb & Hx & Hy & Hc) (Ha' & Hb' & Hx' & Hy' & Hc').
  unfold same_inputs. by rewrite Ha', Hb', Hx', Hy', Hc'.
Qed.

Local Abbreviation rows_done := (fun lo hi d0 d' => LayerNormSpec.rows_done l bs hs d0 lo hi d').

(** The kernel body run by the threads of block [b], in any order [ths] and
    whatever [shared] holds at the start. *)
Lemma run_kernel_spec b (d0 : device T) (ths : list thread) (sh : list T) :
  0 <= b < gridDim_x l -> fits bs hs d0 ->
  ths ≡ₚ block_active l bs b ->
  blockDim_x l * n <= Z.of_nat (length sh) ->
  exists r, run_segments (kernel_segments l hs) (with_mean (fun _ => m0) ths)
              (BState d0 sh) = Ok r
    /\ rows_done (blockDim_x l * b) (blockDim_x l * (b + 1)) d0 (dev r.2).
Proof.
  intros Hb Hfits Hperm Hsh. unfold kernel_segments.
  replace (phase1 l hs ++ [fun t => seg_mean l hs t] ++ phase2 l hs
           ++ [fun t => seg_out l hs t])
    with ((phase1 l hs ++ [fun t => seg_mean l hs t] ++ phase2 l hs)
          ++ [fun t => seg_out l hs t]) by (by rewrite <- !app_assoc).
  rewrite run_segments_app.
  destruct (run_reductions l bs hs b wf Hb d0 ltac:(apply Hfits) ths Hperm m0 sh Hsh)
    as (sh' & -> & Hlen' & HIS).
  cbn [mbind result_bind fst snd run_segments].
  destruct (run_seg_out l bs hs b wf Hb d0 Hfits
              (fun r => k_mean n hs (x_row (d_x d0) hs r))
              (fun r => k_invstd n hs (x_row (d_x d0) hs r)) sh' ltac:(lia)
              ths Hperm
              ltac:(intros t Ht; by rewrite (HIS t Ht)))
    as (d' & Hrun & Hsame & Hy & Hykeep & Hc & Hckeep).
  cbv beta in Hrun. rewrite Hrun. eexists. split; [reflexivity|].
  cbn [mbind result_bind fst snd dev].
  split; [done|]. split; [|split; [|split]].
  - intros r i Hr Hbs Hi. by apply Hy.
  - intros j Hj Hne. apply Hykeep; [done|]. intros r i [Hr Hbs] Hi. by apply Hne.
  - intros r Hr Hbs. by apply Hc.
  - intros j Hj Hne. apply Hckeep; [done|]. intros r [Hr Hbs]. by apply Hne.
Qed.

Lemma run_block_spec b (d0 : device T) :
  0 <= b < gridDim_x l -> fits bs hs d0 ->
  exists d', run_block l bs hs (sh0 b) m0 b d0 = Ok d'
    /\ rows_done (blockDim_x l * b) (blockDim_x l * (b + 1)) d0 d'.
Proof.
  intros Hb Hfits. unfold run_block.
  destruct (run_kernel_spec b d0 (block_active l bs b)
              (sh0 b <$> seqZ 0 (shared_elems l)) Hb Hfits)
    as (r & Hrun & Hdone); [done| |].
  { rewrite length_fmap, length_seqZ. destruct wf. lia. }
  exists (dev r.2). split; [|done].
  fold (block_active l bs b). fold (with_mean (fun _ => m0) (block_active l bs b)).
  by rewrite Hrun.
Qed.

(** What the rows get determines the device. *)
Lemma rows_done_unique lo hi (d0 d1 d2 : device T) :
  0 <= lo -> 0 <= hs ->
  rows_done lo hi d0 d1 -> rows_done lo hi d0 d2 -> d1 = d2.
Proof.
  intros Hlo Hhs (Hsame1 & Hy1 & Hykeep1 & Hc1 & Hckeep1)
    (Hsame2 & Hy2 & Hykeep2 & Hc2 & Hckeep2).
  destruct Hsame1 as (Ha1 & Hb1 & Hx1 & Ly1 & Lc1).
  destruct Hsame2 as (Ha2 & Hb2 & Hx2 & Ly2 & Lc2).
  assert (Hy : d_y d1 = d_y d2).
  { apply get_ext; [congruence|]. intros j Hj.
    destruct (decide (0 < hs /\ lo <= j / hs < hi /\ j / hs < bs))
      as [(Hpos & Hr & Hbs)|Hno].
    - pose proof (Z.mod_pos_bound j hs Hpos).
      assert (Hji : j = j / hs * hs + j mod hs) by (rewrite Z.mod_eq; lia).
      rewrite Hji. rewrite Hy1, Hy2 by done. done.
    - rewrite Hykeep1, Hykeep2; [done|lia| |lia|].
      + intros r i Hr Hbs Hi ->. apply Hno.
        replace ((r * hs + i) / hs) with r; [lia|].
        rewrite Z.add_comm, Z.div_add by lia. rewrite Z.div_small by lia. lia.
      + intros r i Hr Hbs Hi ->. apply Hno.
        replace ((r * hs + i) / hs) with r; [lia|].
        rewrite Z.add_comm, Z.div_add by lia. rewrite Z.div_small by lia. lia. }
  assert (Hc : d_cache d1 = d_cache d2).
  { apply get_ext; [congruence|]. intros j Hj.
    destruct (decide (lo <= j / 2 < hi /\ j / 2 < bs)) as [(Hr & Hbs)|Hno].
    - destruct (Hc1 (j / 2) Hr Hbs) as [Hm1 Hi1], (Hc2 (j / 2) Hr Hbs) as [Hm2 Hi2].
      pose proof (Z.mod_pos_bound j 2 ltac:(lia)).
      assert (Hji : j = 2 * (j / 2) + j mod 2) by (rewrite Z.mod_eq; lia).
      assert (j mod 2 = 0 \/ j mod 2 = 1) as [Hpar|Hpar] by lia;
        rewrite Hpar in Hji; rewrite Hji.
      + rewrite Z.add_0_r. congruence.
      + congruence.
    - rewrite Hckeep1, Hckeep2; [done|lia| |lia|].
      + intros r Hr Hbs. split; intros ->; apply Hno.
        * replace (2 * r / 2) with r; [lia|]. by rewrite Z.mul_comm, Z.div_mul.
        * replace ((2 * r + 1) / 2) with r; [lia|].
          rewrite Z.add_comm, Z.mul_comm, Z.div_add by lia. done.
      + intros r Hr Hbs. split; intros ->; apply Hno.
        * replace (2 * r / 2) with r; [lia|]. by rewrite Z.mul_comm, Z.div_mul.
        * replace ((2 * r + 1) / 2) with r; [lia|].
          rewrite Z.add_comm, Z.mul_comm, Z.div_add by lia. done. }
  destruct d1, d2. simpl in *. congruence.
Qed.

(** Whatever the order in which the threads of a block are run, and whatever
    shared memory held, the block leaves the buffers as [run_block] does. *)
Lemma run_block_any_order b (d0 : device T) (ths : list thread) (sh : list T) :
  0 <= b < gridDim_x l -> fits bs hs d0 ->
  ths ≡ₚ block_active l bs b ->
  blockDim_x l * n <= Z.of_nat (length sh) ->
  exists r, run_segments (kernel_segments l hs) (with_mean (fun _ => m0) ths)
              (BState d0 sh) = Ok r
    /\ run_block l bs hs (sh0 b) m0 b d0 = Ok (dev r.2).
Proof.
  intros Hb Hfits Hperm Hsh.
  destruct (run_kernel_spec b d0 ths sh Hb Hfits Hperm Hsh) as (r & Hrun & Hdone).
  destruct (run_block_spec b d0 Hb Hfits) as (d' & Hrun' & Hdone').
  exists r. split; [done|]. rewrite Hrun'. f_equal.
  apply (rows_done_unique (blockDim_x l * b) (blockDim_x l * (b + 1)) d0);
    [destruct wf; nia|apply wf|done..].
Qed.

Lemma run_blocks_app (bl1 bl2 : list Z) (d : device T) :
  run_blocks l bs hs sh0 m0 (bl1 ++ bl2) d
  = d' ← run_blocks l bs hs sh0 m0 bl1 d; run_blocks l bs hs sh0 m0 bl2 d'.
Proof.
  revert d. induction bl1 as [|b bl1 IH]; intros d; simpl; [done|].
  destruct (run_block l bs hs (sh0 b) m0 b d); simpl; [apply IH|done..].
Qed.

Lemma rows_done_app lo mid hi (d0 d1 d2 : device T) :
  lo <= mid <= hi -> 0 <= lo ->
  rows_done lo mid d0 d1 -> rows_done mid hi d1 d2 -> rows_done lo hi d0 d2.
Proof.
  intros Hmid Hlo (Hsame1 & Hy1 & Hykeep1 & Hc1 & Hckeep1)
    (Hsame2 & Hy2 & Hykeep2 & Hc2 & Hckeep2).
  pose proof Hsame1 as (Ha & Hb & Hx & _ & _).
  split; [by apply (same_inputs_trans d0 d1 d2)|].
  split; [|split; [|split]].
  - intros r i Hr Hbs Hi. destruct (Z.lt_ge_cases r mid) as [Hlt|Hge].
    + rewrite Hykeep2; [apply Hy1; (done || lia)|nia|].
      intros r' i' Hr' _ Hi' Heq.
      destruct (cell_split hs r r' i i' Hi Hi' Heq). lia.
    + rewrite Hy2 by (done || lia). by rewrite Ha, Hb, Hx.
  - intros j Hj Hne. rewrite Hykeep2; [apply Hykeep1; [done|]|done|].
    + intros r i Hr Hbs Hi. apply Hne; (done || lia).
    + intros r i Hr Hbs Hi. apply Hne; (done || lia).
  - intros r Hr Hbs. destruct (Z.lt_ge_cases r mid) as [Hlt|Hge].
    + rewrite !Hckeep2; [apply Hc1; (done || lia)|lia| |lia|].
      * intros r' Hr' _. lia.
      * intros r' Hr' _. lia.
    + rewrite Hx in Hc2. apply Hc2; (done || lia).
  - intros j Hj Hne. rewrite Hckeep2; [apply Hckeep1; [done|]|done|].
    + intros r Hr Hbs. apply Hne; (done || lia).
    + intros r Hr Hbs. apply Hne; (done || lia).
Qed.

Lemma run_blocks_spec (k : nat) (d0 : device T) :
  Z.of_nat k <= gridDim_x l -> fits bs hs d0 ->
  exists d', run_blocks l bs hs sh0 m0 (seqZ 0 (Z.of_nat k)) d0 = Ok d'
    /\ rows_done 0 (blockDim_x l * Z.of_nat k) d0 d'.
Proof.
  intros Hk Hfits. induction k as [|k IH].
  - exists d0. split; [done|]. split; [done|].
    split; [intros; lia|]. split; [done|]. split; [intros; lia|done].
  - destruct IH as (d1 & Hrun1 & Hdone1); [lia|].
    destruct (run_block_spec (Z.of_nat k) d1) as (d2 & Hrun2 & Hdone2); [lia| |].
    { apply (fits_same_inputs d0); [done|apply Hdone1]. }
    exists d2. rewrite seqZ_S, run_blocks_app, Hrun1, Z.add_0_l.
    cbn [mbind result_bind run_blocks]. rewrite Hrun2. split; [done|].
    replace (Z.of_nat (S k)) with (Z.of_nat k + 1) by lia.
    apply (rows_done_app 0 (blockDim_x l * Z.of_nat k) _ d0 d1 d2);
      [destruct wf; nia|done|done|done].
Qed.

(** The kernel as launched on a grid that covers the batch. *)
Lemma LayerNorm_spec (d0 : device T) :
  0 <= gridDim_x l -> bs <= gridDim_x l * blockDim_x l -> fits bs hs d0 ->
  exists d', LayerNorm l bs hs sh0 m0 d0 = Ok d'
    /\ rows_done 0 bs d0 d'.
Proof.
  intros Hg Hcover Hfits. unfold LayerNorm.
  destruct (run_blocks_spec (Z.to_nat (gridDim_x l)) d0) as (d' & Hrun & Hdone);
    [lia|done|].
  rewrite Z2Nat.id in Hrun, Hdone by done.
  exists d'. split; [done|].
  destruct Hdone as (Hsame & Hy & Hykeep & Hc & Hckeep).
  split; [done|]. split; [|split; [|split]].
  - intros r i Hr Hbs Hi. apply Hy; (done || lia).
  - intros j Hj Hne. apply Hykeep; [done|]. intros r i Hr Hbs Hi. apply Hne; (done || lia).
  - intros r Hr Hbs. apply Hc; (done || lia).
  - intros j Hj Hne. apply Hckeep; [done|]. intros r Hr Hbs. apply Hne; (done || lia).
Qed.

End Launch.

(** ** Sums in exact arithmetic *)

Section Sums.
Import RowModel.
Context {T : Type} `{ExactAdd T}.

Lemma foldl_add (acc : T) (vs : list T) :
  foldl s_add acc vs = acc ⊕ sum_list vs.
Proof.
  unfold sum_list. revert acc. induction vs as [|v vs IH]; intros acc; simpl.
  - by rewrite s_add_comm, s_add_0_l.
  - rewrite (IH (acc ⊕ v)), (IH (s_zero ⊕ v)), s_add_0_l. by rewrite s_add_assoc.
Qed.

Lemma sum_list_nil : sum_list (@nil T) = s_zero.
Proof. done. Qed.

Lemma sum_list_cons (v : T) (vs : list T) : sum_list (v :: vs) = v ⊕ sum_list vs.
Proof. unfold sum_list at 1. simpl. by rewrite foldl_add, s_add_0_l. Qed.

Lemma sum_list_app (vs ws : list T) :
  sum_list (vs ++ ws) = sum_list vs ⊕ sum_list ws.
Proof. unfold sum_list at 1. rewrite foldl_app. fold (sum_list vs). apply foldl_add. Qed.

Lemma sum_list_perm (vs ws : list T) : vs ≡ₚ ws -> sum_list vs = sum_list ws.
Proof.
  induction 1 as [|v vs ws _ IH|v w vs|vs ws us _ IH1 _ IH2].
  - done.
  - by rewrite !sum_list_cons, IH.
  - rewrite !sum_list_cons, !s_add_assoc. f_equal. apply s_add_comm.
  - by rewrite IH1.
Qed.

Lemma sum_list_concat (vss : list (list T)) :
  sum_list (sum_list <$> vss) = sum_list (concat vss).
Proof.
  induction vss as [|vs vss IH]; [done|].
  rewrite fmap_cons. cbn [concat]. by rewrite sum_list_cons, sum_list_app, IH.
Qed.

Lemma sum_list_fmap_add {A} (p q : A -> T) (xs : list A) :
  sum_list ((fun a => p a ⊕ q a) <$> xs) = sum_list (p <$> xs) ⊕ sum_list (q <$> xs).
Proof.
  induction xs as [|a xs IH].
  - by rewrite !fmap_nil, sum_list_nil, s_add_0_l.
  - rewrite !fmap_cons, !sum_list_cons, IH, !s_add_assoc. f_equal.
    rewrite <- !s_add_assoc. f_equal. apply s_add_comm.
Qed.

(** *** The halving reduction sums the cells *)

Lemma tree_round_sum (s : Z) (p : Z -> T) :
  0 <= s ->
  sum_list (tree_round s p <$> seqZ 0 s) = sum_list (p <$> seqZ 0 (2 * s)).
Proof.
  intros Hs.
  replace (2 * s) with (s + s) by lia.
  rewrite seqZ_app by lia. rewrite fmap_app, sum_list_app.
  replace (0 + s) with (s + 0) by lia.
  rewrite <- (fmap_add_seqZ s 0 s), <- list_fmap_compose.
  rewrite <- sum_list_fmap_add. f_equal.
  apply list_fmap_ext. intros ? j Hj%list_elem_of_lookup_2.
  apply elem_of_seqZ in Hj. unfold tree_round. simpl.
  destruct (Z.ltb_spec j s); [|lia]. by rewrite (Z.add_comm s j).
Qed.

Lemma tree_red_sum (s : positive) : forall p : Z -> T,
  pow2 s -> tree_red s p 0 = sum_list (p <$> seqZ 0 (2 * Z.pos s)).
Proof.
  induction s as [q IH|q IH|]; intros p Hp; simpl in Hp |- *.
  - done.
  - rewrite (IH _ Hp). apply tree_round_sum. lia.
  - unfold tree_round. simpl.
    change (seqZ 0 2) with [0; 1]. simpl.
    by rewrite !sum_list_cons, sum_list_nil, (s_add_comm (p 1)), s_add_0_l.
Qed.

(** [n] workers, [n] a power of two. *)
Lemma tree_reduce_sum (m : positive) (p : Z -> T) :
  pow2 m -> tree_reduce (Z.pos m) p = sum_list (p <$> seqZ 0 (Z.pos m)).
Proof.
  intros Hm. unfold tree_reduce, int_half. destruct m as [q|q|]; [done| |].
  - replace (Z.quot (Z.pos q~0) 2) with (Z.pos q).
    + apply (tree_red_sum q p Hm).
    + rewrite Z.quot_div_nonneg by lia.
      change (Z.pos q~0) with (2 * Z.pos q). by rewrite Z.mul_comm, Z.div_mul.
  - change (Z.quot 1 2) with 0. change (seqZ 0 1) with [0]. simpl.
    by rewrite sum_list_cons, sum_list_nil, s_add_comm, s_add_0_l.
Qed.

(** *** The workers' partial sums cover the row *)

Lemma strided_partition (n hs : Z) :
  0 < n -> 0 <= hs ->
  seqZ 0 n ≫= strided n hs (Z.to_nat hs) ≡ₚ seqZ 0 hs.
Proof.
  intros Hn Hhs. apply NoDup_Permutation.
  - apply NoDup_bind; [| |apply NoDup_seqZ].
    + intros k1 k2 i Hk1 Hk2 Hi1 Hi2. apply elem_of_seqZ in Hk1, Hk2.
      apply strided_elem in Hi1 as [_ Hm1]; [|lia..].
      apply strided_elem in Hi2 as [_ Hm2]; [|lia..].
      apply Z.mod_divide in Hm1 as [q1 Hq1], Hm2 as [q2 Hq2]; [|lia..].
      assert (k1 - k2 = (q2 - q1) * n) by lia.
      assert (q2 - q1 = 0) by nia. lia.
    + intros k _. by apply strided_NoDup.
  - apply NoDup_seqZ.
  - intros i. rewrite list_elem_of_bind, elem_of_seqZ. split.
    + intros (k & Hi & Hk). apply elem_of_seqZ in Hk.
      apply strided_elem in Hi; lia.
    + intros Hi. exists (i mod n).
      pose proof (Z.mod_pos_bound i n Hn). pose proof (Z.mod_le i n ltac:(lia) Hn).
      rewrite elem_of_seqZ. split; [|lia].
      apply strided_elem; [done|lia|]. split; [lia|].
      by rewrite Zminus_mod, Zmod_mod, Z.sub_diag.
Qed.

Lemma partial_sum (n hs : Z) (f : Z -> T) :
  0 < n -> 0 <= hs ->
  sum_list (partial n hs f <$> seqZ 0 n) = sum_list (f <$> seqZ 0 hs).
Proof.
  intros Hn Hhs.
  transitivity (sum_list (f <$> (seqZ 0 n ≫= strided n hs (Z.to_nat hs)))).
  - generalize (seqZ 0 n). intros ks. induction ks as [|k ks IH]; [done|].
    rewrite fmap_cons, sum_list_cons, IH. unfold partial.
    change ((k :: ks) ≫= strided n hs (Z.to_nat hs))
      with (strided n hs (Z.to_nat hs) k ++ (ks ≫= strided n hs (Z.to_nat hs))).
    by rewrite fmap_app, sum_list_app.
  - apply sum_list_perm. by rewrite strided_partition.
Qed.

(** The first reduction of the kernel yields the sum of the row. *)
Lemma kernel_sum (m : positive) (hs : Z) (f : Z -> T) :
  pow2 m -> 0 <= hs ->
  tree_reduce (Z.pos m) (partial (Z.pos m) hs f) = sum_list (f <$> seqZ 0 hs).
Proof. intros Hm Hhs. by rewrite tree_reduce_sum, partial_sum. Qed.

End Sums.

(** ** The functional model and the reference agree *)

Section ModelReference.
Import RowModel Reference.
Context {T : Type} `{ExactAdd T}.

Lemma row_as_fmap (hs : Z) (xs : list T) (r : Z) :
  0 <= r -> 0 <= hs -> (r + 1) * hs <= Z.of_nat (length xs) ->
  row hs xs r = x_row xs hs r <$> seqZ 0 hs.
Proof.
  intros Hr Hhs Hlen. unfold row. apply list_eq. intros i.
  rewrite list_lookup_fmap.
  destruct (decide (Z.of_nat i < hs)) as [Hi|Hi].
  - rewrite lookup_take_lt, lookup_drop, lookup_seqZ_lt by lia. simpl.
    unfold x_row. rewrite <- get_lookup by nia.
    f_equal. nia.
  - rewrite lookup_seqZ_ge by lia. simpl.
    apply lookup_ge_None. rewrite length_take. lia.
Qed.

Lemma get_row (hs : Z) (xs : list T) (r i : Z) :
  0 <= r -> 0 <= i < hs -> (r + 1) * hs <= Z.of_nat (length xs) ->
  get (row hs xs r) i = x_row xs hs r i.
Proof.
  intros Hr Hi Hlen. rewrite row_as_fmap by lia.
  unfold get at 1. rewrite list_lookup_fmap, lookup_seqZ_lt by lia. simpl.
  f_equal. lia.
Qed.

Section Row.
Variables (m : positive) (hs : Z) (xs : list T) (r : Z).
Hypothesis m_pow2 : pow2 m.
Hypothesis r_range : 0 <= r.
Hypothesis hs_range : 0 <= hs.
Hypothesis xs_len : (r + 1) * hs <= Z.of_nat (length xs).

Lemma k_mean_ref : k_mean (Z.pos m) hs (x_row xs hs r) = mean hs (row hs xs r).
Proof. unfold k_mean, mean. by rewrite kernel_sum, row_as_fmap. Qed.

Lemma k_invstd_ref : k_invstd (Z.pos m) hs (x_row xs hs r) = invstd hs (row hs xs r).
Proof.
  unfold k_invstd, invstd, variance. cbv zeta.
  rewrite kernel_sum, k_mean_ref by done.
  rewrite (row_as_fmap hs xs r) at 2 by done.
  by rewrite <- list_fmap_compose.
Qed.

Lemma k_out_ref (alpha beta : list T) (i : Z) :
  0 <= i < hs ->
  k_out (Z.pos m) hs (x_row xs hs r) alpha beta i
  = layer_norm hs alpha beta (row hs xs r) i.
Proof.
  intros Hi. unfold k_out, layer_norm.
  by rewrite k_mean_ref, k_invstd_ref, get_row.
Qed.

End Row.
End ModelReference.

(** ** The launch made by [Run] *)

Section RunLaunch.
Import RowModel LayerNorm LayerNormSpec.
Context {T : Type} `{Scalar T}.
Variables (bs hs : Z).
Hypothesis range : in_range bs hs.

Local Abbreviation run_launch := (LayerNormSpec.run_launch bs).

Lemma Run_unfold (sh0 : Z -> Z -> T) (m0 : T) (d : device T) :
  Run bs hs sh0 m0 d = LayerNorm run_launch bs hs sh0 m0 d.
Proof.
  destruct range as (Hbs & Hhs & Hx & Hc & Hl). unfold INT_MAX in *.
  unfold Run, LayerNormSpec.run_launch. do 2 f_equal.
  unfold uint_div, uint_sub, uint_add.
  rewrite (to_uint_small bs) by (unfold UINT_MOD; lia).
  rewrite (to_uint_small (bs + 4)) by (unfold UINT_MOD; lia).
  rewrite to_uint_small by (unfold UINT_MOD; lia).
  rewrite Z.quot_div_nonneg by lia. f_equal. lia.
Qed.

Lemma run_launch_wf : wf_launch run_launch bs hs.
Proof.
  destruct range as (Hbs & Hhs & Hx & Hc & Hl). unfold INT_MAX in *.
  pose proof (Z.mul_div_le (bs + 3) 4 ltac:(lia)).
  split; unfold LayerNormSpec.run_launch, INT_MAX; simpl; lia.
Qed.

(** The grid is rounded up: it covers the batch with at most 3 rows to spare. *)
Lemma run_launch_cover :
  0 <= gridDim_x run_launch
  /\ 0 <= gridDim_x run_launch * blockDim_x run_launch - bs <= 3.
Proof.
  destruct range as (Hbs & _). unfold LayerNormSpec.run_launch. simpl.
  pose proof (Z.mul_div_le (bs + 3) 4 ltac:(lia)).
  pose proof (Z.mul_succ_div_gt (bs + 3) 4 ltac:(lia)).
  pose proof (Z.div_pos (bs + 3) 4 ltac:(lia) ltac:(lia)).
  assert (Hm : (bs + 3) mod 4 = bs + 3 - 4 * ((bs + 3) / 4)) by (rewrite Z.mod_eq; lia).
  split; [lia|]. split; [|lia].
  destruct (Z.eq_dec ((bs + 3) mod 4) 3) as [Heq|Hne]; [lia|].
  pose proof (Z.mod_pos_bound (bs + 3) 4 ltac:(lia)). lia.
Qed.

Lemma Run_spec (sh0 : Z -> Z -> T) (m0 : T) (d : device T) :
  fits bs hs d ->
  exists d', Run bs hs sh0 m0 d = Ok d' /\ rows_done run_launch bs hs d 0 bs d'.
Proof.
  intros Hfits. rewrite Run_unfold.
  destruct run_launch_cover as [Hg Hc].
  apply (LayerNorm_spec run_launch bs hs run_launch_wf); [done|lia|done].
Qed.

End RunLaunch.

(** ** The kernel never writes its inputs

    This holds for every launch and every outcome: no precondition on the
    sizes is needed. *)

Section Frame.
Import RowModel LayerNorm LayerNormSpec.
Context {T : Type} `{Scalar T}.
Variables (l : launch) (hs : Z).

Local Ltac inv_bind H :=
  repeat match type of H with
  | mbind _ ?m = Ok _ =>
      let E := fresh "E" in
      destruct m eqn:E; cbn [mbind result_bind] in H; [|discriminate H..]
  end.

Lemma inputs_eq_refl (d : device T) : inputs_eq d d.
Proof. done. Qed.

Lemma inputs_eq_trans (d1 d2 d3 : device T) :
  inputs_eq d1 d2 -> inputs_eq d2 d3 -> inputs_eq d1 d3.
Proof.
  intros (Ha & Hb & Hx) (Ha' & Hb' & Hx'). unfold inputs_eq.
  by rewrite Ha', Hb', Hx'.
Qed.

Lemma for_strided_inv {A} (P : A -> Prop) (body : Z -> A -> result A) fuel :
  (forall j a a', P a -> body j a = Ok a' -> P a') ->
  forall i a r, P a -> for_strided l hs fuel i body a = Ok r -> P r.
Proof.
  intros Hbody. induction fuel as [|fuel IH]; intros i a r Ha Hrun; simpl in Hrun.
  - destruct (i <? hs); [done|]. by injection Hrun as <-.
  - destruct (i <? hs); [|by injection Hrun as <-].
    inv_bind Hrun. eapply IH; [|exact Hrun]. by eapply Hbody.
Qed.

Lemma seg_sum_frame : frame_seg (fun t => seg_sum l hs t).
Proof.
  intros t m s m' s' Hrun. unfold seg_sum in Hrun. inv_bind Hrun.
  by injection Hrun as _ <-.
Qed.

Lemma seg_sumsq_frame : frame_seg (fun t => seg_sumsq l hs t).
Proof.
  intros t m s m' s' Hrun. unfold seg_sumsq in Hrun. inv_bind Hrun.
  by injection Hrun as _ <-.
Qed.

Lemma seg_tree_frame s0 : frame_seg (fun t => seg_tree l t s0).
Proof.
  intros t m s m' s' Hrun. unfold seg_tree in Hrun.
  destruct (index t <? s0).
  - inv_bind Hrun. by injection Hrun as _ <-.
  - by injection Hrun as _ <-.
Qed.

Lemma seg_mean_frame : frame_seg (fun t => seg_mean l hs t).
Proof.
  intros t m s m' s' Hrun. unfold seg_mean in Hrun. inv_bind Hrun.
  by injection Hrun as _ <-.
Qed.

Lemma seg_out_frame : frame_seg (fun t => seg_out l hs t).
Proof.
  intros t m s m' s' Hrun. unfold seg_out in Hrun.
  destruct (ld (shared s) (batch_block_idx l t)) as [v| |] eqn:Ev;
    cbn [mbind result_bind] in Hrun; [|done..].
  match type of Hrun with
  | mbind _ (for_strided _ _ ?fuel ?i ?body ?a) = _ =>
      destruct (for_strided l hs fuel i body a) as [d1| |] eqn:Eloop;
        cbn [mbind result_bind] in Hrun; [|done..];
      apply (for_strided_inv (inputs_eq (dev s))) in Eloop
  end.
  - inv_bind Hrun. injection Hrun as _ <-. simpl. exact Eloop.
  - intros j a a' Ha Hbody. inv_bind Hbody. injection Hbody as <-.
    exact Ha.
  - done.
Qed.

Lemma tree_from_frame (s : positive) : Forall frame_seg (tree_from l s).
Proof.
  induction s as [q IH|q IH|]; simpl; constructor;
    (apply seg_tree_frame || done || constructor).
Qed.

Lemma tree_segs_frame : Forall frame_seg (tree_segs l).
Proof. unfold tree_segs. destruct (int_half _); [done|apply tree_from_frame|done]. Qed.

Lemma kernel_segments_frame : Forall frame_seg (kernel_segments l hs).
Proof.
  unfold kernel_segments, phase1, phase2.
  apply Forall_app. split.
  { apply Forall_cons_2; [apply seg_sum_frame|apply tree_segs_frame]. }
  apply Forall_cons_2; [apply seg_mean_frame|].
  apply Forall_app. split.
  { apply Forall_cons_2; [apply seg_sumsq_frame|apply tree_segs_frame]. }
  apply Forall_cons_2; [apply seg_out_frame|apply Forall_nil_2].
Qed.

Lemma run_segment_frame (seg : segment T) ths : frame_seg seg ->
  forall s r, run_segment seg ths s = Ok r -> inputs_eq (dev s) (dev r.2).
Proof.
  intros Hseg. induction ths as [|[t m] ths IH]; intros s r Hrun;
    cbn [run_segment] in Hrun.
  - by injection Hrun as <-.
  - destruct (seg t m s) as [[m1 s1]| |] eqn:E1;
      cbn [mbind result_bind fst snd] in Hrun; [|done..].
    destruct (run_segment seg ths s1) as [r1| |] eqn:E2;
      cbn [mbind result_bind fst snd] in *; [|done..].
    injection Hrun as <-. simpl.
    apply (inputs_eq_trans _ (dev s1)); [by eapply Hseg|by apply IH].
Qed.

Lemma run_segments_frame (segs : list (segment T)) : Forall frame_seg segs ->
  forall ths s r, run_segments segs ths s = Ok r -> inputs_eq (dev s) (dev r.2).
Proof.
  induction 1 as [|seg segs Hseg _ IH]; intros ths s r Hrun;
    cbn [run_segments] in Hrun.
  - by injection Hrun as <-.
  - destruct (run_segment seg ths s) as [r1| |] eqn:E1;
      cbn [mbind result_bind] in Hrun; [|done..].
    apply (inputs_eq_trans _ (dev r1.2)); [by eapply run_segment_frame|by eapply IH].
Qed.

Lemma run_block_frame bs sh0 m0 b (d d' : device T) :
  run_block l bs hs sh0 m0 b d = Ok d' -> inputs_eq d d'.
Proof.
  unfold run_block. intros Hrun.
  match type of Hrun with
  | mbind _ ?m = _ => destruct m as [r| |] eqn:E; cbn [mbind result_bind] in Hrun;
                      [|done..]
  end.
  injection Hrun as <-.
  by apply (run_segments_frame _ kernel_segments_frame) in E.
Qed.

Lemma run_blocks_frame bs sh0 m0 bl : forall d d' : device T,
  run_blocks l bs hs sh0 m0 bl d = Ok d' -> inputs_eq d d'.
Proof.
  induction bl as [|b bl IH]; intros d d' Hrun; cbn [run_blocks] in Hrun.
  - by injection Hrun as <-.
  - destruct (run_block l bs hs (sh0 b) m0 b d) as [d1| |] eqn:E;
      cbn [mbind result_bind] in Hrun; [|done..].
    apply (inputs_eq_trans _ d1); [by eapply run_block_frame|by apply IH].
Qed.

End Frame.

(** ** Exact and rounded addition *)

Global Instance Z_exact_add : ExactAdd Z.
Proof. split; simpl; intros; lia. Qed.

(** Binary64 addition is not associative: [1e16 + (1 + 1)] is not
    [(1e16 + 1) + 1]. *)
Lemma float_not_exact : ~ ExactAdd float.
Proof.
  intros [Hassoc _ _].
  specialize (Hassoc 1e16%float 1%float 1%float).
  apply (f_equal (fun v => PrimFloat.eqb v (1e16 + (1 + 1))%float)) in Hassoc.
  vm_compute in Hassoc. discriminate.
Qed.

(** * The layer-normalization kernel: results *)

Section ForwardPass.
Import RowModel Reference LayerNorm LayerNormSpec.
Context {T : Type} `{Scalar T}.
Variables (bs hs : Z).
Variables (sh0 : Z -> Z -> T) (m0 : T) (d : device T).

(** [Run] returns, and describes each row by the functional model. *)
Lemma Run_rows :
  in_range bs hs -> fits bs hs d ->
  exists d', Run bs hs sh0 m0 d = Ok d'
    /\ same_inputs d d'
    /\ (forall r i, 0 <= r < bs -> 0 <= i < hs ->
          d_y d' !! Z.to_nat (r * hs + i)
          = Some (k_out 256 hs (x_row (d_x d) hs r) (d_alpha d) (d_beta d) i))
    /\ (forall r, 0 <= r < bs ->
          d_cache d' !! Z.to_nat (2 * r) = Some (k_mean 256 hs (x_row (d_x d) hs r))
          /\ d_cache d' !! Z.to_nat (2 * r + 1)
             = Some (k_invstd 256 hs (x_row (d_x d) hs r))).
Proof.
  intros Hrange Hfits.
  destruct (Run_spec bs hs Hrange sh0 m0 d Hfits)
    as (d' & Hrun & Hsame & Hy & _ & Hc & _).
  exists d'. split; [done|]. split; [done|].
  destruct Hfits as (_ & _ & _ & Fy & Fc).
  destruct Hsame as (_ & _ & _ & Ly & Lc).
  destruct Hrange as (Hbs & Hhs & _).
  split.
  - intros r i Hr Hi. rewrite get_lookup by nia.
    f_equal. apply Hy; (done || lia).
  - intros r Hr. rewrite !get_lookup by lia.
    destruct (Hc r ltac:(lia) ltac:(lia)) as [-> ->]. done.
Qed.

End ForwardPass.


(** ** The functional model depends on the row only *)

Section ModelExt.
Import RowModel.
Context {T : Type} `{Scalar T}.
Variables (n hs : Z) (f f' : Z -> T).
Hypothesis n_pos : 0 < n.
Hypothesis f_eq : forall i, 0 <= i < hs -> f i = f' i.

Lemma k_mean_ext : k_mean n hs f = k_mean n hs f'.
Proof.
  unfold k_mean. f_equal. apply tree_reduce_ext; [done|].
  intros k Hk. apply partial_ext; (done || lia).
Qed.

Lemma k_invstd_ext : k_invstd n hs f = k_invstd n hs f'.
Proof.
  unfold k_invstd. cbv zeta. rewrite k_mean_ext. do 3 f_equal.
  apply tree_reduce_ext; [done|]. intros k Hk.
  apply partial_ext; [done|lia|]. intros i Hi. by rewrite f_eq.
Qed.

Lemma k_out_ext alpha beta i :
  0 <= i < hs -> k_out n hs f alpha beta i = k_out n hs f' alpha beta i.
Proof. intros Hi. unfold k_out. by rewrite k_mean_ext, k_invstd_ext, f_eq. Qed.

End ModelExt.

(** ** Rows in another order *)

Section PermuteRows.
Import RowModel LayerNormSpec.
Context {T : Type} `{Scalar T}.
Variables (hs : Z) (xs : list T).
Hypothesis hs_pos : 0 <= hs.

Local Abbreviation rows_in := (LayerNormSpec.rows_in hs xs).

Lemma permute_rows_cons v perm :
  permute_rows hs (v :: perm) xs
  = take (Z.to_nat hs) (drop (Z.to_nat (v * hs)) xs) ++ permute_rows hs perm xs.
Proof. done. Qed.

Lemma length_chunk v :
  0 <= v -> (v + 1) * hs <= Z.of_nat (length xs) ->
  length (take (Z.to_nat hs) (drop (Z.to_nat (v * hs)) xs)) = Z.to_nat hs.
Proof. intros Hv Hlen. rewrite length_take, length_drop. nia. Qed.

Lemma length_permute_rows perm :
  rows_in perm ->
  Z.of_nat (length (permute_rows hs perm xs)) = Z.of_nat (length perm) * hs.
Proof.
  induction perm as [|v perm IH]; intros Hin; [done|].
  rewrite permute_rows_cons, length_app, length_chunk.
  - rewrite Nat2Z.inj_add, IH; [simpl length; lia|].
    intros w Hw. apply Hin, elem_of_cons. by right.
  - apply Hin, elem_of_cons. by left.
  - apply Hin, elem_of_cons. by left.
Qed.

Lemma get_permute_rows perm : forall r v i,
  rows_in perm ->
  perm !! r = Some v -> 0 <= i < hs ->
  get (permute_rows hs perm xs) (Z.of_nat r * hs + i) = get xs (v * hs + i).
Proof.
  induction perm as [|w perm IH]; intros r v i Hin Hr Hi; [done|].
  assert (Hw : 0 <= w /\ (w + 1) * hs <= Z.of_nat (length xs))
    by (apply Hin, elem_of_cons; by left).
  rewrite permute_rows_cons. unfold get. destruct r as [|r].
  - injection Hr as ->. simpl Z.of_nat. rewrite Z.mul_0_l, Z.add_0_l.
    rewrite lookup_app_l by (rewrite length_chunk; lia).
    rewrite lookup_take_lt, lookup_drop by lia.
    do 2 f_equal. nia.
  - simpl in Hr.
    rewrite lookup_app_r by (rewrite length_chunk; nia).
    rewrite length_chunk by lia.
    replace (Z.to_nat (Z.of_nat (S r) * hs + i) - Z.to_nat hs)%nat
      with (Z.to_nat (Z.of_nat r * hs + i)) by nia.
    apply (IH r v i); [|done..].
    intros u Hu. apply Hin, elem_of_cons. by right.
Qed.

End PermuteRows.

Section PermutationFacts.
Import LayerNormSpec.

Lemma perm_rows_in {T : Type} (hs bs : Z) (xs : list T) (perm : list Z) :
  0 <= hs -> Z.of_nat (length xs) = bs * hs ->
  perm ≡ₚ seqZ 0 bs -> rows_in hs xs perm.
Proof.
  intros Hhs Hlen Hperm v Hv. rewrite Hperm in Hv. apply elem_of_seqZ in Hv. nia.
Qed.

Lemma perm_length (bs : Z) (perm : list Z) :
  0 <= bs -> perm ≡ₚ seqZ 0 bs -> Z.of_nat (length perm) = bs.
Proof. intros Hbs ->. rewrite length_seqZ. lia. Qed.

Lemma perm_lookup (bs : Z) (perm : list Z) (r : Z) :
  perm ≡ₚ seqZ 0 bs -> 0 <= r < bs ->
  exists v, perm !! Z.to_nat r = Some v /\ 0 <= v < bs.
Proof.
  intros Hperm Hr.
  destruct (lookup_lt_is_Some_2 perm (Z.to_nat r)) as [v Hv].
  { pose proof (perm_length bs perm ltac:(lia) Hperm). lia. }
  exists v. split; [done|].
  apply list_elem_of_lookup_2 in Hv. rewrite Hperm in Hv.
  apply elem_of_seqZ in Hv. lia.
Qed.

End PermutationFacts.
Section Claims.
Import RowModel Reference LayerNorm LayerNormSpec.


(** C3 (amended): for sizes in the [int] range and buffers of the assumed
    sizes, and whatever the arithmetic of the element type, [Run] stores for
    every row [r] of the batch the two statistics that the kernel has
    computed: in [cache[2r]] the sum of the row divided by [hidden_size], in
    [cache[2r + 1]] the factor [rsqrt (v + eps)], both sums formed in the
    order of the kernel; the two stored values are the ones by which [y] is
    computed. No flag skips the stores. Where addition is exact, the stored
    values are the arithmetic mean of the row and [rsqrt (variance + eps)]. *)
Theorem cache_holds_row_statistics {T : Type} `{Scalar T}
    (bs hs : Z) (sh0 : Z -> Z -> T) (m0 : T) (d : device T) :
  in_range bs hs -> fits bs hs d ->
  exists d', Run bs hs sh0 m0 d = Ok d'
    /\ forall r, 0 <= r < bs ->
         d_cache d' !! Z.to_nat (2 * r)
         = Some (tree_reduce 256 (partial 256 hs (x_row (d_x d) hs r))
                 ⊘ s_of_int hs)
         /\ d_cache d' !! Z.to_nat (2 * r + 1)
            = Some (s_rsqrt
                      (tree_reduce 256
                         (partial 256 hs
                            (fun i => sqdiff (get (d_cache d') (2 * r))
                                        (x_row (d_x d) hs r i)))
                       ⊘ s_of_int hs ⊕ s_eps))
         /\ (forall i, 0 <= i < hs ->
               d_y d' !! Z.to_nat (r * hs + i)
               = Some ((get (d_x d) (r * hs + i) ⊖ get (d_cache d') (2 * r))
                       ⊗ get (d_cache d') (2 * r + 1)
                       ⊗ get (d_alpha d) i ⊕ get (d_beta d) i))
         /\ (ExactAdd T ->
             d_cache d' !! Z.to_nat (2 * r) = Some (mean hs (row hs (d_x d) r))
             /\ d_cache d' !! Z.to_nat (2 * r + 1)
                = Some (s_rsqrt (variance hs (row hs (d_x d) r) ⊕ s_eps))).
Proof.
  intros Hrange Hfits.
  destruct (Run_rows bs hs sh0 m0 d Hrange Hfits) as (d' & Hrun & _ & Hy & Hc).
  exists d'. split; [done|]. intros r Hr.
  destruct (Hc r Hr) as [Hc0 Hc1].
  assert (G0 : get (d_cache d') (2 * r) = k_mean 256 hs (x_row (d_x d) hs r))
    by (unfold get; by rewrite Hc0).
  assert (G1 : get (d_cache d') (2 * r + 1) = k_invstd 256 hs (x_row (d_x d) hs r))
    by (unfold get; by rewrite Hc1).
  split; [done|]. split; [by rewrite Hc1, G0|]. split.
  - intros i Hi. by rewrite (Hy r i Hr Hi), G0, G1.
  - intros Hexact. rewrite Hc0, Hc1.
    destruct Hfits as (_ & _ & Fx & _). destruct Hrange as (_ & Hhs & _).
    rewrite (k_mean_ref 256), (k_invstd_ref 256) by (done || lia || nia). done.
Qed.

(** C10: whatever the launch and the sizes, a kernel that ends leaves [x],
    [alpha] and [beta] as they were; and [Run] on buffers of the assumed sizes
    does end. *)
Theorem kernel_leaves_inputs_unchanged {T : Type} `{Scalar T}
    (l : launch) (bs hs : Z) (sh0 : Z -> Z -> T) (m0 : T) (d : device T) :
  (forall d', LayerNorm l bs hs sh0 m0 d = Ok d' ->
     d_x d' = d_x d /\ d_alpha d' = d_alpha d /\ d_beta d' = d_beta d)
  /\ (in_range bs hs -> fits bs hs d ->
      exists d', Run bs hs sh0 m0 d = Ok d'
        /\ d_x d' = d_x d /\ d_alpha d' = d_alpha d /\ d_beta d' = d_beta d).
Proof.
  split.
  - intros d' Hrun. apply run_blocks_frame in Hrun as (Ha & Hb & Hx). done.
  - intros Hrange Hfits.
    destruct (Run_rows bs hs sh0 m0 d Hrange Hfits)
      as (d' & Hrun & (Ha & Hb & Hx & _) & _).
    by exists d'.
Qed.

(** C2 (amended): in a block of any launch in range, and whatever the
    arithmetic of the element type, the first reduction (strided partial sums
    accumulated from zero, then the halving rounds) leaves in cell
    [batch_block_idx] of every row the partial sums of the row's workers
    combined in the order of the rounds; the threads then hold that value
    divided by [hidden_size] as the mean; and the second reduction leaves
    there the likewise combined partial sums of the squared differences from
    that mean. Between two barriers the threads of the block run in any order
    [ths]. Where addition is exact and the worker group is a power of two,
    these are the sum of the row, its arithmetic mean, and the sum of its
    squared differences from the mean. *)
Theorem two_phase_reduction_is_reference {T : Type} `{Scalar T}
    (l : launch) (bs hs b : Z) (m0 : T) (sh0 : list T)
    (d : device T) (ths : list thread) :
  wf_launch l bs hs ->
  0 <= b < gridDim_x l ->
  Z.of_nat (length (d_x d)) = bs * hs ->
  blockDim_x l * blockDim_y l <= Z.of_nat (length sh0) ->
  ths ≡ₚ block_active l bs b ->
  let n := blockDim_y l in
  let xr := fun t => x_row (d_x d) hs (row_of l b t) in
  let xrow := fun t => row hs (d_x d) (row_of l b t) in
  exists sh1 sh2,
    run_segments (phase1 l hs) (with_mean (fun _ => m0) ths) (BState d sh0)
    = Ok (with_mean (fun _ => m0) ths, BState d sh1)
    /\ run_segments (phase1 l hs ++ [fun t => seg_mean l hs t] ++ phase2 l hs)
         (with_mean (fun _ => m0) ths) (BState d sh0)
       = Ok (with_mean
               (fun t => tree_reduce n (partial n hs (xr t)) ⊘ s_of_int hs) ths,
             BState d sh2)
    /\ forall t, t ∈ ths ->
         let mean_t := tree_reduce n (partial n hs (xr t)) ⊘ s_of_int hs in
         get sh1 (batch_block_idx l t) = tree_reduce n (partial n hs (xr t))
         /\ get sh2 (batch_block_idx l t)
            = tree_reduce n (partial n hs (fun i => sqdiff mean_t (xr t i)))
         /\ (ExactAdd T -> forall m, n = Z.pos m -> pow2 m ->
             get sh1 (batch_block_idx l t) = sum_list (xrow t)
             /\ mean_t = mean hs (xrow t)
             /\ get sh2 (batch_block_idx l t)
                = sum_list (sqdiff (mean hs (xrow t)) <$> xrow t)).
Proof.
  intros Hwf Hb Hx Hsh Hperm n xr xrow. subst n xr xrow. cbv beta.
  destruct (run_phase1 l bs hs b Hwf Hb d Hx ths Hperm (fun _ => m0) sh0 Hsh)
    as (sh1 & Hrun1 & _ & Hval1).
  destruct (run_reductions l bs hs b Hwf Hb d Hx ths Hperm m0 sh0 Hsh)
    as (sh2 & Hrun2 & _ & Hval2).
  assert (Hrow : forall t, t ∈ block_active l bs b ->
            0 <= row_of l b t /\ (row_of l b t + 1) * hs <= Z.of_nat (length (d_x d))).
  { intros t Ht. pose proof (block_active_row_range l bs hs b Hwf Hb t Ht).
    destruct Hwf. nia. }
  assert (Hhs : 0 <= hs) by apply Hwf.
  exists sh1, sh2. split; [done|]. split; [exact Hrun2|].
  intros t Ht. rewrite Hperm in Ht. destruct (Hrow t Ht) as [Hr0 Hr1].
  cbv zeta.
  rewrite (batch_block_idx_eq l bs hs Hwf b)
    by (by apply (block_active_in_block l bs hs b Hwf Hb)).
  split; [exact (Hval1 t Ht)|]. split; [exact (Hval2 t Ht)|].
  intros Hexact m Hm Hpow.
  assert (Hmean : k_mean (blockDim_y l) hs (x_row (d_x d) hs (row_of l b t))
                  = mean hs (row hs (d_x d) (row_of l b t)))
    by (rewrite Hm; by apply k_mean_ref).
  unfold k_mean in Hmean. split; [|split; [exact Hmean|]].
  - rewrite (Hval1 t Ht), Hm, kernel_sum by done. by rewrite row_as_fmap.
  - rewrite (Hval2 t Ht). fold (k_mean (blockDim_y l) hs (x_row (d_x d) hs (row_of l b t))).
    unfold k_mean. rewrite Hmean, Hm, kernel_sum by done.
    rewrite (row_as_fmap hs (d_x d) (row_of l b t)) at 2 by done.
    by rewrite <- list_fmap_compose.
Qed.

(** C4: for a permutation [perm] of the rows, [Run] on the input whose rows
    are those of [x] in the order [perm] gives the rows of the output and of
    the cache of [Run] on [x], in the order [perm]; [alpha], [beta] and the
    permuted input are as before. What [y], [cache], shared memory and the
    thread-local variables hold beforehand does not matter. *)
Theorem layer_norm_row_permutation {T : Type} `{Scalar T}
    (bs hs : Z) (sh0 sh0' : Z -> Z -> T) (m0 m0' : T) (d : device T)
    (perm : list Z) (y' cache' : list T) :
  in_range bs hs -> fits bs hs d ->
  perm ≡ₚ seqZ 0 bs ->
  length y' = length (d_y d) -> length cache' = length (d_cache d) ->
  let dp := Device (d_alpha d) (d_beta d) (permute_rows hs perm (d_x d)) y' cache' in
  exists d1 d2,
    Run bs hs sh0 m0 d = Ok d1
    /\ Run bs hs sh0' m0' dp = Ok d2
    /\ d_y d2 = permute_rows hs perm (d_y d1)
    /\ d_cache d2 = permute_rows 2 perm (d_cache d1)
    /\ d_alpha d2 = d_alpha dp /\ d_beta d2 = d_beta dp /\ d_x d2 = d_x dp.
Proof.
  intros Hrange Hfits Hperm Hy' Hc' dp.
  pose proof Hrange as (Hbs & Hhs & _).
  pose proof Hfits as (Fa & Fb & Fx & Fy & Fc).
  pose proof (perm_length bs perm Hbs Hperm) as Hplen.
  assert (Hfits' : fits bs hs dp).
  { unfold fits, dp. simpl. rewrite Hy', Hc'.
    rewrite length_permute_rows by (done || by apply (perm_rows_in hs bs)).
    by rewrite Hplen. }
  destruct (Run_rows bs hs sh0 m0 d Hrange Hfits)
    as (d1 & Hrun1 & (_ & _ & _ & Ly1 & Lc1) & Hy1 & Hcache1).
  destruct (Run_rows bs hs sh0' m0' dp Hrange Hfits')
    as (d2 & Hrun2 & (Ha2 & Hb2 & Hx2 & Ly2 & Lc2) & Hy2 & Hcache2).
  exists d1, d2. split; [done|]. split; [done|].
  assert (Hin1 : rows_in hs (d_y d1) perm)
    by (apply (perm_rows_in hs bs); [done|lia|done]).
  assert (Hin2 : rows_in 2 (d_cache d1) perm)
    by (apply (perm_rows_in 2 bs); [done|lia|done]).
  assert (Hinx : rows_in hs (d_x d) perm)
    by (by apply (perm_rows_in hs bs)).
  split; [|split; [|done]].
  - apply get_ext.
    { apply Nat2Z.inj. rewrite length_permute_rows by done. simpl in Ly2. lia. }
    intros j Hj. simpl in Ly2.
    assert (Hhs' : 0 < hs) by nia.
    set (r := j / hs). set (i := j mod hs).
    assert (Hji : j = r * hs + i) by (unfold r, i; rewrite Z.mod_eq; lia).
    assert (Hi : 0 <= i < hs) by (by apply Z.mod_pos_bound).
    assert (Hr : 0 <= r < bs).
    { unfold r. split; [apply Z.div_pos; lia|]. apply Z.div_lt_upper_bound; lia. }
    destruct (perm_lookup bs perm r Hperm Hr) as (v & Hv & Hvr).
    rewrite Hji. replace r with (Z.of_nat (Z.to_nat r)) at 2 by lia.
    rewrite (get_permute_rows hs (d_y d1) Hhs perm _ v i Hin1 Hv Hi).
    unfold get. rewrite (Hy1 v i Hvr Hi), (Hy2 r i Hr Hi). simpl.
    apply k_out_ext; [done| |done].
    intros i' Hi'. unfold x_row.
    replace r with (Z.of_nat (Z.to_nat r)) by lia.
    by apply get_permute_rows.
  - apply get_ext.
    { apply Nat2Z.inj. rewrite length_permute_rows by done. simpl in Lc2. lia. }
    intros j Hj. simpl in Lc2.
    set (r := j / 2). set (i := j mod 2).
    assert (Hji : j = r * 2 + i) by (unfold r, i; rewrite Z.mod_eq; lia).
    assert (Hi : 0 <= i < 2) by (by apply Z.mod_pos_bound).
    assert (Hr : 0 <= r < bs).
    { unfold r. split; [apply Z.div_pos; lia|]. apply Z.div_lt_upper_bound; lia. }
    destruct (perm_lookup bs perm r Hperm Hr) as (v & Hv & Hvr).
    rewrite Hji. replace r with (Z.of_nat (Z.to_nat r)) at 2 by lia.
    rewrite (get_permute_rows 2 (d_cache d1) ltac:(lia) perm _ v i Hin2 Hv Hi).
    destruct (Hcache1 v Hvr) as [Hm1 Hi1], (Hcache2 r Hr) as [Hm2 Hi2].
    assert (Hext : forall i', 0 <= i' < hs ->
              x_row (d_x dp) hs r i' = x_row (d_x d) hs v i').
    { intros i' Hi'. unfold x_row, dp. simpl.
      replace r with (Z.of_nat (Z.to_nat r)) by lia.
      by apply get_permute_rows. }
    unfold get.
    assert (i = 0 \/ i = 1) as [->| ->] by lia.
    + replace (r * 2 + 0) with (2 * r) by lia.
      replace (v * 2 + 0) with (2 * v) by lia.
      rewrite Hm1, Hm2. simpl. by apply k_mean_ext.
    + replace (r * 2 + 1) with (2 * r + 1) by lia.
      replace (v * 2 + 1) with (2 * v + 1) by lia.
      rewrite Hi1, Hi2. simpl. by apply k_invstd_ext.
Qed.
End Claims.

(** * The GRU inference harness *)

Section IntProducts.

Lemma to_int_mul_l a b : to_int (to_int a * b) = to_int (a * b).
Proof.
  unfold to_int, UINT_MOD. f_equal.
  rewrite (Z.mod_eq (a + 2147483648) 4294967296) by lia.
  set (q := (a + 2147483648) / 4294967296).
  replace ((a + 2147483648 - 4294967296 * q - 2147483648) * b + 2147483648)
    with (a * b + 2147483648 + (- q * b) * 4294967296) by lia.
  by rewrite Z.mod_add by lia.
Qed.

Lemma int_mul3 a b c : in_int (a * b * c) -> int_mul (int_mul a b) c = a * b * c.
Proof. intros Hr. unfold int_mul. rewrite to_int_mul_l. by apply to_int_small. Qed.

Lemma int_mul4 a b c e :
  in_int (a * b * c * e) -> int_mul (int_mul (int_mul a b) c) e = a * b * c * e.
Proof.
  intros Hr. unfold int_mul. rewrite to_int_mul_l, <- Z.mul_assoc, to_int_mul_l.
  rewrite Z.mul_assoc. by apply to_int_small.
Qed.

End IntProducts.

Section GruFacts.
Import Gru.
Context {F : Type}.
Variable fzero : F.
Variable place : list device_ptr -> Z -> Z.
Variable Iterate : ForwardPass -> iterate_args F -> (Z -> F) -> (Z -> F).
Variables (W R bx br x : Tensor F) (dv : device F).

Local Abbreviation tr := (GruInference fzero place Iterate W R bx br x dv).
Local Abbreviation setup := (gru_buffers fzero place W R bx br x dv).
Local Abbreviation time_steps := (dimension x 2).
Local Abbreviation batch_size := (dimension x 1).
Local Abbreviation input_size := (dimension x 0).
Local Abbreviation hidden_size := (dimension R 1).

Lemma gru_loop_calls fwd b l : forall s,
  (foldl (gru_step fzero Iterate fwd b batch_size input_size hidden_size) s l).2
  = s.2 ++ (call_args fzero b batch_size input_size hidden_size <$> l).
Proof.
  induction l as [|t l IH]; intros s; simpl.
  - by rewrite app_nil_r.
  - rewrite IH. simpl. by rewrite <- app_assoc.
Qed.

Lemma GruInference_bufs : bufs tr = setup.1.
Proof. unfold GruInference. by destruct setup. Qed.

Lemma GruInference_calls :
  calls tr
  = call_args fzero (bufs tr) batch_size input_size hidden_size
    <$> seqZ 0 time_steps.
Proof.
  rewrite GruInference_bufs. unfold GruInference. destruct setup as [b dv'].
  simpl. by rewrite gru_loop_calls.
Qed.

Lemma GruInference_allocs : allocs (dev tr) = allocs setup.2.
Proof. unfold GruInference. by destruct setup. Qed.

Lemma setup_allocs :
  allocs setup.2
  = allocs dv ++ [W_dev setup.1; R_dev setup.1; bx_dev setup.1; br_dev setup.1;
                    x_dev setup.1; h_dev setup.1; tmp_Wx_dev setup.1;
                    tmp_Rh_dev setup.1].
Proof.
  unfold gru_buffers, device_ptr_of, device_ptr_scratch, zero. simpl.
  by rewrite <- !app_assoc.
Qed.

Lemma zero_mem (p : device_ptr) (dv' : device F) a :
  in_slice (data p) (size p) a -> mem (zero fzero p dv') a = fzero.
Proof.
  unfold in_slice, zero. intros Ha. simpl.
  destruct (Z.leb_spec (data p) a); [|lia].
  destruct (Z.ltb_spec a (data p + size p)); [done|lia].
Qed.

Lemma setup_zeroed : exists dv', setup.2 = zero fzero (h_dev setup.1) dv'.
Proof.
  unfold gru_buffers, device_ptr_of, device_ptr_scratch.
  cbn [fst snd h_dev]. eexists. reflexivity.
Qed.

Lemma setup_h_zero a :
  in_slice (data (h_dev setup.1)) (size (h_dev setup.1)) a ->
  mem setup.2 a = fzero.
Proof. destruct setup_zeroed as [dv' ->]. apply zero_mem. Qed.

Lemma setup_sizes :
  size (tmp_Wx_dev setup.1)
  = to_size (int_mul (int_mul (int_mul time_steps batch_size) hidden_size) 3)
  /\ size (tmp_Rh_dev setup.1)
     = to_size (int_mul (int_mul batch_size hidden_size) 3).
Proof. done. Qed.

Section InRange.
Hypothesis range : sizes_in_range x R.

Lemma dims_eq :
  time_steps = nth 2 (dims x) 0 /\ batch_size = nth 1 (dims x) 0
  /\ hidden_size = nth 1 (dims R) 0.
Proof.
  destruct range as (? & ? & ? & ? & ? & ? & _). unfold dimension.
  rewrite !to_int_small by (by apply in_int_bounds). done.
Qed.

Lemma dims_range :
  0 <= time_steps /\ 0 <= batch_size /\ 0 <= hidden_size
  /\ time_steps * batch_size * hidden_size * 3 <= INT_MAX
  /\ batch_size * hidden_size * 3 <= INT_MAX.
Proof.
  destruct dims_eq as (-> & -> & ->).
  destruct range as (? & ? & ? & ? & ? & ? & ? & ?). done.
Qed.

Lemma Wx_offset t :
  0 <= t < time_steps ->
  int_mul (int_mul (int_mul t batch_size) hidden_size) 3
  = t * (batch_size * 3 * hidden_size).
Proof.
  intros Ht. destruct dims_range as (Hts & Hb & Hh & Hall & _).
  rewrite int_mul4; [lia|]. apply in_int_bounds.
  assert (0 <= batch_size * hidden_size) by nia.
  split; nia.
Qed.

Lemma Wx_size :
  size (tmp_Wx_dev (bufs tr)) = time_steps * batch_size * 3 * hidden_size.
Proof.
  rewrite GruInference_bufs. destruct setup_sizes as [-> _].
  destruct dims_range as (Hts & Hb & Hh & Hall & _).
  assert (0 <= time_steps * batch_size * hidden_size * 3) by nia.
  rewrite int_mul4 by (by apply in_int_bounds).
  unfold to_size. rewrite Z.mod_small; [lia|]. unfold INT_MAX in *. lia.
Qed.

Lemma Rh_size :
  size (tmp_Rh_dev (bufs tr)) = batch_size * 3 * hidden_size.
Proof.
  rewrite GruInference_bufs. destruct setup_sizes as [_ ->].
  destruct dims_range as (Hts & Hb & Hh & _ & Hall).
  assert (0 <= batch_size * hidden_size * 3) by nia.
  rewrite int_mul3 by (by apply in_int_bounds).
  unfold to_size. rewrite Z.mod_small; [lia|]. unfold INT_MAX in *. lia.
Qed.

Lemma calls_length : Z.of_nat (length (calls tr)) = time_steps.
Proof.
  rewrite GruInference_calls, length_fmap, length_seqZ.
  destruct dims_range as (? & _). lia.
Qed.

Lemma calls_lookup t args :
  0 <= t -> calls tr !! Z.to_nat t = Some args ->
  t < time_steps
  /\ args = call_args fzero (bufs tr) batch_size input_size hidden_size t.
Proof.
  intros Ht Hargs. rewrite GruInference_calls, list_lookup_fmap in Hargs.
  destruct (seqZ 0 time_steps !! Z.to_nat t) as [t'|] eqn:Hl; [|done].
  apply lookup_seqZ in Hl as [-> Hlt]. injection Hargs as <-.
  split; [lia|]. f_equal. lia.
Qed.

Lemma calls_tmp_Wx t args :
  0 <= t -> calls tr !! Z.to_nat t = Some args ->
  t < time_steps
  /\ a_tmp_Wx args
     = data (tmp_Wx_dev (bufs tr)) + t * (batch_size * 3 * hidden_size).
Proof.
  intros Ht Hargs. destruct (calls_lookup t args Ht Hargs) as [Hlt ->].
  split; [done|]. unfold call_args. cbn [a_tmp_Wx]. by rewrite Wx_offset by lia.
Qed.

End InRange.
End GruFacts.

Section GruClaims.
Import Gru.
Context {F : Type}.
Variable fzero : F.
Variable place : list device_ptr -> Z -> Z.
Variable Iterate : ForwardPass -> iterate_args F -> (Z -> F) -> (Z -> F).
Variables (W R bx br x : Tensor F) (dv : device F).

(** C6: with [time_steps = 0], [GruInference] calls [Iterate] not once, and
    device memory is what it was after [h_dev.zero()]: the hidden-state buffer
    holds zeros. *)
Theorem zero_length_sequence_keeps_hidden_state :
  dimension x 2 = 0 ->
  let tr := GruInference fzero place Iterate W R bx br x dv in
  calls tr = []
  /\ mem (dev tr) = mem (gru_buffers fzero place W R bx br x dv).2
  /\ forall a, in_slice (data (h_dev (bufs tr))) (size (h_dev (bufs tr))) a ->
       mem (dev tr) a = fzero.
Proof.
  intros Hts tr.
  assert (Hmem : mem (dev tr) = mem (gru_buffers fzero place W R bx br x dv).2).
  { unfold tr, GruInference. rewrite Hts.
    by destruct (gru_buffers fzero place W R bx br x dv). }
  split; [|split; [done|]].
  - unfold tr. rewrite GruInference_calls, Hts. done.
  - intros a Ha. rewrite Hmem. apply setup_h_zero.
    unfold tr in Ha. by rewrite GruInference_bufs in Ha.
Qed.

(** C7: the input-side buffer is allocated once, before the loop, with
    [time_steps * batch_size * 3 * hidden_size] elements; the call of [Iterate]
    at timestep [t] gets the address [t * batch_size * 3 * hidden_size] elements
    into it; the slices of [batch_size * 3 * hidden_size] elements of two
    different timesteps share no address, and each lies within the buffer. *)
Theorem input_preactivation_slices_disjoint :
  sizes_in_range x R ->
  let time_steps := dimension x 2 in
  let n := dimension x 1 * 3 * dimension R 1 in
  let tr := GruInference fzero place Iterate W R bx br x dv in
  let b := bufs tr in
  size (tmp_Wx_dev b) = time_steps * dimension x 1 * 3 * dimension R 1
  /\ allocs (dev tr)
     = allocs dv ++ [W_dev b; R_dev b; bx_dev b; br_dev b; x_dev b; h_dev b;
                     tmp_Wx_dev b; tmp_Rh_dev b]
  /\ Z.of_nat (length (calls tr)) = time_steps
  /\ (forall t args, 0 <= t -> calls tr !! Z.to_nat t = Some args ->
        a_tmp_Wx args = data (tmp_Wx_dev b) + t * n
        /\ data (tmp_Wx_dev b) <= a_tmp_Wx args
        /\ a_tmp_Wx args + n <= data (tmp_Wx_dev b) + size (tmp_Wx_dev b))
  /\ (forall t t' args args', 0 <= t -> 0 <= t' -> t <> t' ->
        calls tr !! Z.to_nat t = Some args ->
        calls tr !! Z.to_nat t' = Some args' ->
        forall a, ~ (in_slice (a_tmp_Wx args) n a /\ in_slice (a_tmp_Wx args') n a)).
Proof.
  intros Hrange time_steps n tr b. subst time_steps n tr b.
  pose proof (dims_range _ _ Hrange) as (Hts & Hb & Hh & _).
  assert (Hn : 0 <= dimension x 1 * 3 * dimension R 1) by nia.
  split; [by apply Wx_size|]. split.
  { rewrite GruInference_allocs, GruInference_bufs. apply setup_allocs. }
  split; [by apply calls_length|]. split.
  - intros t args Ht Hargs.
    destruct (calls_tmp_Wx fzero place Iterate W R bx br x dv Hrange t args Ht Hargs)
      as [Hlt ->].
    rewrite (Wx_size fzero place Iterate W R bx br x dv Hrange).
    split; [done|]. split; nia.
  - intros t t' args args' Ht Ht' Hne Hargs Hargs' a [Ha Ha'].
    destruct (calls_tmp_Wx fzero place Iterate W R bx br x dv Hrange t args Ht Hargs)
      as [_ Heq].
    destruct (calls_tmp_Wx fzero place Iterate W R bx br x dv Hrange t' args' Ht' Hargs')
      as [_ Heq'].
    unfold in_slice in Ha, Ha'. rewrite Heq in Ha. rewrite Heq' in Ha'.
    assert (t < t' \/ t' < t) as [Hlt|Hlt] by lia; nia.
Qed.

(** C8: the recurrent scratch is one buffer of [batch_size * 3 * hidden_size]
    elements, allocated before the loop, and every call of [Iterate] gets its
    address; the loop allocates nothing. *)
Theorem recurrent_scratch_single_buffer :
  sizes_in_range x R ->
  let tr := GruInference fzero place Iterate W R bx br x dv in
  let b := bufs tr in
  size (tmp_Rh_dev b) = dimension x 1 * 3 * dimension R 1
  /\ allocs (dev tr)
     = allocs dv ++ [W_dev b; R_dev b; bx_dev b; br_dev b; x_dev b; h_dev b;
                     tmp_Wx_dev b; tmp_Rh_dev b]
  /\ Z.of_nat (length (calls tr)) = dimension x 2
  /\ forall args, args ∈ calls tr -> a_tmp_Rh args = data (tmp_Rh_dev b).
Proof.
  intros Hrange tr b. subst tr b.
  split; [by apply Rh_size|]. split.
  { rewrite GruInference_allocs, GruInference_bufs. apply setup_allocs. }
  split; [by apply calls_length|].
  intros args Hargs. rewrite GruInference_calls in Hargs.
  apply list_elem_of_fmap in Hargs as (t & -> & _). done.
Qed.

End GruClaims.

(** * The statements at concrete inputs *)

Section Witnesses.
Import RowModel Reference LayerNorm LayerNormSpec Inputs Samples.

Lemma unit_row_in_range : in_range 1 2.
Proof. unfold in_range, INT_MAX. lia. Defined.

Lemma unit_row_fits : fits 1 2 unit_row.
Proof. repeat split. Defined.


Lemma small_launch_wf : wf_launch small_launch 1 3.
Proof. split; unfold small_launch, INT_MAX; simpl; lia. Defined.

Lemma swapped_perm : swapped ≡ₚ block_active small_launch 1 0.
Proof. vm_compute. apply perm_swap. Defined.

Lemma two_phase_reduction_is_reference_witness :
  wf_launch small_launch 1 3
  /\ swapped ≡ₚ block_active small_launch 1 0
  /\ exists sh1 sh2 : list float,
       run_segments (phase1 small_launch 3)
         (with_mean (fun _ => 9%float) swapped)
         (BState one_two_three [8; 8]%float)
       = Ok (with_mean (fun _ => 9%float) swapped, BState one_two_three sh1)
       /\ run_segments
            (phase1 small_launch 3 ++ [fun t => seg_mean small_launch 3 t]
             ++ phase2 small_launch 3)
            (with_mean (fun _ => 9%float) swapped)
            (BState one_two_three [8; 8]%float)
          = Ok (with_mean
                  (fun t =>
                     tree_reduce 2
                       (partial 2 3
                          (x_row (d_x one_two_three) 3 (row_of small_launch 0 t)))
                     ⊘ s_of_int 3) swapped,
                BState one_two_three sh2)
       /\ get sh1 0
          = tree_reduce 2 (partial 2 3 (x_row (d_x one_two_three) 3 0))
       /\ get sh2 0
          = tree_reduce 2
              (partial 2 3
                 (fun i =>
                    sqdiff
                      (tree_reduce 2 (partial 2 3 (x_row (d_x one_two_three) 3 0))
                       ⊘ s_of_int 3)
                      (x_row (d_x one_two_three) 3 0 i))).
Proof.
  split; [exact small_launch_wf|]. split; [exact swapped_perm|].
  destruct (two_phase_reduction_is_reference small_launch 1 3 0
              9%float [8; 8]%float one_two_three swapped)
    as (sh1 & sh2 & Hrun1 & Hrun2 & Hval).
  - exact small_launch_wf.
  - unfold small_launch. simpl. lia.
  - reflexivity.
  - unfold small_launch. simpl. lia.
  - exact swapped_perm.
  - exists sh1, sh2. split; [exact Hrun1|]. split; [exact Hrun2|].
    destruct (Hval (Thread 0 0 0)) as (Hv1 & Hv2 & _).
    + apply list_elem_of_further, list_elem_of_here.
    + split; [exact Hv1|exact Hv2].
Defined.

Lemma cache_holds_row_statistics_witness :
  in_range 1 2 /\ fits 1 2 unit_row
  /\ exists d', Run 1 2 junk 0%float unit_row = Ok d'
       /\ d_cache d' !! 0%nat
          = Some (tree_reduce 256 (partial 256 2 (x_row (d_x unit_row) 2 0))
                  ⊘ s_of_int 2)
       /\ d_cache d' !! 1%nat
          = Some (s_rsqrt
                    (tree_reduce 256
                       (partial 256 2
                          (fun i => sqdiff (get (d_cache d') 0)
                                      (x_row (d_x unit_row) 2 0 i)))
                     ⊘ s_of_int 2 ⊕ s_eps))
       /\ forall i, 0 <= i < 2 ->
            d_y d' !! Z.to_nat (0 * 2 + i)
            = Some ((get (d_x unit_row) (0 * 2 + i) ⊖ get (d_cache d') 0)
                    ⊗ get (d_cache d') 1
                    ⊗ get (d_alpha unit_row) i ⊕ get (d_beta unit_row) i).
Proof.
  split; [exact unit_row_in_range|]. split; [exact unit_row_fits|].
  destruct (cache_holds_row_statistics 1 2 junk 0%float unit_row
              unit_row_in_range unit_row_fits) as (d' & Hrun & Hc).
  exists d'. split; [exact Hrun|].
  destruct (Hc 0 ltac:(lia)) as (Hc0 & Hc1 & Hy & _).
  split; [exact Hc0|]. split; [exact Hc1|exact Hy].
Defined.

Lemma two_rows_in_range : in_range 2 1.
Proof. unfold in_range, INT_MAX. lia. Defined.

Lemma two_rows_fits : fits 2 1 two_rows.
Proof. repeat split. Defined.

Lemma layer_norm_row_permutation_witness :
  exists d1 d2,
    Run 2 1 (fun _ _ => 0) 0 two_rows = Ok d1
    /\ Run 2 1 (fun _ _ => 1) 1 (Device [1] [0] [5; 3] [9; 9] [9; 9; 9; 9]) = Ok d2
    /\ d_y d2 = permute_rows 1 [1; 0] (d_y d1)
    /\ d_cache d2 = permute_rows 2 [1; 0] (d_cache d1).
Proof.
  destruct (layer_norm_row_permutation 2 1 (fun _ _ => 0) (fun _ _ => 1) 0 1
              two_rows [1; 0] [9; 9] [9; 9; 9; 9]
              two_rows_in_range two_rows_fits)
    as (d1 & d2 & Hrun1 & Hrun2 & Hy & Hc & _).
  - apply perm_swap.
  - reflexivity.
  - reflexivity.
  - exists d1, d2. split; [exact Hrun1|]. split; [exact Hrun2|].
    split; [exact Hy|exact Hc].
Defined.

Lemma kernel_leaves_inputs_unchanged_witness :
  exists d', Run 1 2 junk 0%float unit_row = Ok d'
    /\ d_x d' = [1; -1]%float /\ d_alpha d' = [1; 1]%float
    /\ d_beta d' = [0; 0]%float.
Proof.
  exact (proj2 (kernel_leaves_inputs_unchanged (run_launch 1) 1 2 junk 0%float
                  unit_row)
           unit_row_in_range unit_row_fits).
Defined.

End Witnesses.

Section GruWitnesses.
Import Gru Inputs.

Lemma zero_length_sequence_keeps_hidden_state_witness :
  dimension x_empty 2 = 0
  /\ calls (GruInference 0 bump some_Iterate W_host R_host bx_host br_host
              x_empty fresh_device) = [].
Proof.
  split; [reflexivity|].
  exact (proj1 (zero_length_sequence_keeps_hidden_state 0 bump some_Iterate
                  W_host R_host bx_host br_host x_empty fresh_device eq_refl)).
Defined.

Lemma x_host_in_range : sizes_in_range x_host R_host.
Proof. unfold sizes_in_range, INT_MAX. simpl. lia. Defined.

Lemma input_preactivation_slices_disjoint_witness :
  sizes_in_range x_host R_host
  /\ size (tmp_Wx_dev (bufs (GruInference 0 bump some_Iterate W_host R_host
                               bx_host br_host x_host fresh_device)))
     = dimension x_host 2 * dimension x_host 1 * 3 * dimension R_host 1.
Proof.
  split; [exact x_host_in_range|].
  exact (proj1 (input_preactivation_slices_disjoint 0 bump some_Iterate
                  W_host R_host bx_host br_host x_host fresh_device x_host_in_range)).
Defined.

Lemma recurrent_scratch_single_buffer_witness :
  sizes_in_range x_host R_host
  /\ size (tmp_Rh_dev (bufs (GruInference 0 bump some_Iterate W_host R_host
                               bx_host br_host x_host fresh_device)))
     = dimension x_host 1 * 3 * dimension R_host 1.
Proof.
  split; [exact x_host_in_range|].
  exact (proj1 (recurrent_scratch_single_buffer 0 bump some_Iterate
                  W_host R_host bx_host br_host x_host fresh_device x_host_in_range)).
Defined.

End GruWitnesses.

(** * The model at work *)

Section Examples.
Import RowModel Reference LayerNorm LayerNormSpec Inputs.

(** [Run] on five rows of three integers, whatever shared memory held. *)
Example Run_five_rows :
  Run 5 3 (fun _ _ => 77) 99 five_rows
  = Ok (Device [1; 2; 3] [10; 20; 30]
          [1; 2; 3; 4; 8; 9; 0; 0; 6; 5; 5; 5; 1; 0; -1]
          [-989; 20; 3027; -2975; 2010; 6000; -1972; -3944; 11922; 10; 20; 30;
           1009; 20; -2967]
          [2; 999; 7; 995; 2; 991; 5; 999; 0; 999]).
Proof. vm_compute. reflexivity. Qed.

(** With [x] one element short the last row reads past its end. *)
Example Run_short_x :
  Run 5 3 (fun _ _ => 77) 99
    (Device [1; 2; 3] [10; 20; 30]
       [1; 2; 3; 4; 8; 9; 0; 0; 6; 5; 5; 5; 1; 0]
       (replicate 15 0) (replicate 10 0))
  = Fault.
Proof. vm_compute. reflexivity. Qed.

(** Four workers sum the numbers 1 to 12: the mean is 78 / 12. *)
Example four_workers :
  LayerNorm (Launch 1 1 4 4) 1 12 (fun _ _ => 77) 99 twelve
  = Ok (Device (replicate 12 1) (replicate 12 0) (d_x twelve)
          [-4935; -3948; -2961; -1974; -987; 0; 987; 1974; 2961; 3948; 4935; 5922]
          [6; 987]).
Proof. vm_compute. reflexivity. Qed.

(** Six workers are not a power of two: the halving rounds 3 and 1 never add
    cell 2 and its partner, 12 + 18 is lost, and the mean comes out as
    48 / 12. *)
Example six_workers_lose_cells :
  exists d', LayerNorm (Launch 1 1 6 6) 1 12 (fun _ _ => 77) 99 twelve = Ok d'
    /\ get (d_cache d') 0 = 4
    /\ mean 12 (d_x twelve) = 6.
Proof. eexists. split; [vm_compute; reflexivity|]. split; reflexivity. Qed.

(** Past the range of [int]: with three rows of 2^30 elements the offset of
    row 2 wraps around to a negative index. *)
Example batch_idx_wraps :
  batch_idx (run_launch 3) 1073741824 (Thread 0 2 0) = -2147483648
  /\ ~ in_range 3 1073741824.
Proof. split; [reflexivity|]. unfold in_range, INT_MAX. lia. Qed.

(** Binary64: on the row [1, -1], whose mean is 0 and whose variance is 1,
    with [alpha] ones and [beta] zeros, the output is the row times
    [rsqrt (1 + eps)], which is 0.99999500003749975. *)
Example Run_unit_row :
  exists d', Run 1 2 junk 0%float unit_row = Ok d'
    /\ d_y d' = [1 ⊗ s_rsqrt (1 ⊕ s_eps); -1 ⊗ s_rsqrt (1 ⊕ s_eps)]%float
    /\ d_cache d' = [0; s_rsqrt (1 ⊕ s_eps)]%float
    /\ (s_rsqrt (1 ⊕ s_eps) = 0x1.ffff583aa62f6p-1)%float.
Proof.
  eexists. split; [vm_compute; reflexivity|].
  split; [vm_compute; reflexivity|]. split; vm_compute; reflexivity.
Qed.

End Examples.

Section GruExamples.
Import Gru Inputs.

(** Three timesteps: the slices of the input-side buffer start 6 elements
    apart, the recurrent scratch is the same in every call. *)
Example three_timesteps :
  (fun a => (a_tmp_Wx a, a_tmp_Rh a))
  <$> calls (GruInference 0 bump some_Iterate W_host R_host bx_host br_host
               x_host fresh_device)
  = [(44, 62); (50, 62); (56, 62)].
Proof. vm_compute. reflexivity. Qed.

End GruExamples.
(** * Further properties of the kernel *)

Section RowResults.
Import RowModel Reference LayerNorm LayerNormSpec.

Lemma row_lookup {T : Type} `{Scalar T} (hs : Z) (xs : list T) (r i : Z) :
  0 <= r -> 0 <= i < hs -> (r + 1) * hs <= Z.of_nat (length xs) ->
  row hs xs r !! Z.to_nat i = xs !! Z.to_nat (r * hs + i).
Proof.
  intros Hr Hi Hlen. unfold row.
  rewrite lookup_take_lt, lookup_drop by lia. f_equal. nia.
Qed.

Lemma length_row {T : Type} `{Scalar T} (hs : Z) (xs : list T) (r : Z) :
  0 <= r -> 0 <= hs -> (r + 1) * hs <= Z.of_nat (length xs) ->
  length (row hs xs r) = Z.to_nat hs.
Proof. intros Hr Hhs Hlen. unfold row. rewrite length_take, length_drop. nia. Qed.

(** Two rows of two buffers are the same list when they agree element by
    element. *)
Lemma row_ext {T : Type} `{Scalar T} (hs : Z) (xs ys : list T) (r s : Z) :
  0 <= r -> 0 <= s -> 0 <= hs ->
  (r + 1) * hs <= Z.of_nat (length xs) -> (s + 1) * hs <= Z.of_nat (length ys) ->
  (forall i, 0 <= i < hs ->
     xs !! Z.to_nat (r * hs + i) = ys !! Z.to_nat (s * hs + i)) ->
  row hs xs r = row hs ys s.
Proof.
  intros Hr Hs Hhs Hx Hy Heq. apply list_eq. intros k.
  destruct (decide (k < Z.to_nat hs)%nat) as [Hk|Hk].
  - replace k with (Z.to_nat (Z.of_nat k)) by lia.
    rewrite !row_lookup by lia. apply Heq. lia.
  - rewrite !lookup_ge_None_2; [done|rewrite length_row by lia; lia..].
Qed.

Lemma x_row_of_row {T : Type} `{Scalar T} (hs : Z) (xs ys : list T) (r s i : Z) :
  0 <= r -> 0 <= s -> 0 <= i < hs ->
  (r + 1) * hs <= Z.of_nat (length xs) -> (s + 1) * hs <= Z.of_nat (length ys) ->
  row hs xs r = row hs ys s ->
  x_row xs hs r i = x_row ys hs s i.
Proof.
  intros Hr Hs Hi Hx Hy Heq.
  rewrite <- (get_row hs xs r i), <- (get_row hs ys s i) by done. by rewrite Heq.
Qed.

(** X1: whatever the arithmetic of the element type (no law is assumed, so
    rounding is included), [Run] ends and every element of [y] and of [cache]
    is the value obtained by the kernel's own order of operations: 256 strided
    partial sums accumulated from zero, combined by the halving rounds, for
    the mean and again for the squared differences. *)
Theorem Run_any_arithmetic {T : Type} `{Scalar T}
    (bs hs : Z) (sh0 : Z -> Z -> T) (m0 : T) (d : device T) :
  in_range bs hs -> fits bs hs d ->
  exists d', Run bs hs sh0 m0 d = Ok d'
    /\ (forall r i, 0 <= r < bs -> 0 <= i < hs ->
          d_y d' !! Z.to_nat (r * hs + i)
          = Some ((get (d_x d) (r * hs + i) ⊖ k_mean 256 hs (x_row (d_x d) hs r))
                  ⊗ k_invstd 256 hs (x_row (d_x d) hs r)
                  ⊗ get (d_alpha d) i ⊕ get (d_beta d) i))
    /\ (forall r, 0 <= r < bs ->
          d_cache d' !! Z.to_nat (2 * r)
          = Some (tree_reduce 256 (partial 256 hs (x_row (d_x d) hs r))
                  ⊘ s_of_int hs)
          /\ d_cache d' !! Z.to_nat (2 * r + 1)
             = Some (s_rsqrt
                       (tree_reduce 256
                          (partial 256 hs
                             (fun i => sqdiff (k_mean 256 hs (x_row (d_x d) hs r))
                                         (x_row (d_x d) hs r i)))
                        ⊘ s_of_int hs ⊕ s_eps))).
Proof.
  intros Hrange Hfits.
  destruct (Run_rows bs hs sh0 m0 d Hrange Hfits) as (d' & Hrun & _ & Hy & Hc).
  exists d'. split; [done|]. split.
  - intros r i Hr Hi. by rewrite (Hy r i Hr Hi).
  - intros r Hr. destruct (Hc r Hr) as [-> ->]. done.
Qed.

(** X2: the result for a row depends on nothing but that row, [alpha] and
    [beta]: not on the size of the batch, on the place of the row in it, on
    the other rows, nor on what [y], [cache], shared memory and the local
    variables held. No law of arithmetic is assumed, so the two results are
    the same value, rounding included. *)
Theorem row_result_independent_of_batch {T : Type} `{Scalar T}
    (bs1 bs2 hs : Z) (sh1 sh2 : Z -> Z -> T) (m1 m2 : T) (d1 d2 : device T)
    (r1 r2 : Z) :
  in_range bs1 hs -> in_range bs2 hs -> fits bs1 hs d1 -> fits bs2 hs d2 ->
  d_alpha d1 = d_alpha d2 -> d_beta d1 = d_beta d2 ->
  0 <= r1 < bs1 -> 0 <= r2 < bs2 ->
  row hs (d_x d1) r1 = row hs (d_x d2) r2 ->
  exists d1' d2',
    Run bs1 hs sh1 m1 d1 = Ok d1' /\ Run bs2 hs sh2 m2 d2 = Ok d2'
    /\ row hs (d_y d1') r1 = row hs (d_y d2') r2
    /\ row 2 (d_cache d1') r1 = row 2 (d_cache d2') r2.
Proof.
  intros Hrange1 Hrange2 Hfits1 Hfits2 Ha Hb Hr1 Hr2 Hrow.
  destruct (Run_rows bs1 hs sh1 m1 d1 Hrange1 Hfits1)
    as (d1' & Hrun1 & (_ & _ & _ & Ly1 & Lc1) & Hy1 & Hc1).
  destruct (Run_rows bs2 hs sh2 m2 d2 Hrange2 Hfits2)
    as (d2' & Hrun2 & (_ & _ & _ & Ly2 & Lc2) & Hy2 & Hc2).
  exists d1', d2'. split; [done|]. split; [done|].
  destruct Hfits1 as (_ & _ & Fx1 & Fy1 & Fc1).
  destruct Hfits2 as (_ & _ & Fx2 & Fy2 & Fc2).
  destruct Hrange1 as (_ & Hhs & _).
  assert (Hf : forall i, 0 <= i < hs ->
            x_row (d_x d1) hs r1 i = x_row (d_x d2) hs r2 i).
  { intros i Hi. apply x_row_of_row; (done || lia || nia). }
  split.
  - apply row_ext; [lia|lia|done|rewrite Ly1; nia|rewrite Ly2; nia|].
    intros i Hi. rewrite (Hy1 r1 i Hr1 Hi), (Hy2 r2 i Hr2 Hi), Ha, Hb. f_equal.
    by apply k_out_ext.
  - apply row_ext; [lia|lia|lia|rewrite Lc1; lia|rewrite Lc2; lia|].
    intros i Hi.
    destruct (Hc1 r1 Hr1) as [Hm1 Hi1], (Hc2 r2 Hr2) as [Hm2 Hi2].
    assert (i = 0 \/ i = 1) as [->| ->] by lia.
    + rewrite !Z.add_0_r, (Z.mul_comm r1), (Z.mul_comm r2), Hm1, Hm2. f_equal.
      by apply k_mean_ext.
    + rewrite (Z.mul_comm r1), (Z.mul_comm r2), Hi1, Hi2. f_equal.
      by apply k_invstd_ext.
Qed.

End RowResults.

(** ** The threads of a block in any order, segment by segment *)

Section Schedules.
Import RowModel LayerNorm LayerNormSpec LayerNormSchedule.
Context {T : Type} `{Scalar T}.
Variables (l : launch) (bs hs b : Z).
Hypothesis wf : wf_launch l bs hs.
Hypothesis b_range : 0 <= b < gridDim_x l.
Local Abbreviation act := (block_active l bs b).
Local Abbreviation n := (blockDim_y l).

Lemma find_with_mean (Mf : thread -> T) (ths : list thread) (t : thread) :
  t ∈ ths ->
  snd <$> list_find (fun p : thread * T => p.1 = t) (with_mean Mf ths)
  = Some (t, Mf t).
Proof.
  induction ths as [|a ths IH]; intros Ht; [by apply elem_of_nil in Ht|].
  cbn [with_mean fmap list_fmap list_find]. fold (with_mean Mf ths).
  destruct (decide ((a, Mf a).1 = t)) as [Heq|Hne].
  - simpl in Heq. by subst a.
  - apply elem_of_cons in Ht as [->|Ht]; [done|].
    specialize (IH Ht).
    destruct (list_find _ (with_mean Mf ths)) as [[i p]|]; [|done].
    simpl in IH |- *. done.
Qed.

Lemma in_order_with_mean (Mf : thread -> T) (ths order : list thread) :
  (forall t, t ∈ order -> t ∈ ths) ->
  in_order order (with_mean Mf ths) = with_mean Mf order.
Proof.
  unfold in_order. induction order as [|t order IH]; intros Hin; [done|].
  cbn [omap list_omap]. rewrite find_with_mean by (apply Hin, list_elem_of_here).
  cbn [with_mean fmap list_fmap]. f_equal.
  apply IH. intros t' Ht'. by apply Hin, list_elem_of_further.
Qed.

Lemma run_segments_in_app (orders : nat -> list thread)
    (segs1 segs2 : list (segment T)) : forall k ts (s : bstate T),
  run_segments_in orders k (segs1 ++ segs2) ts s
  = r ← run_segments_in orders k segs1 ts s;
    run_segments_in orders (k + length segs1) segs2 r.1 r.2.
Proof.
  induction segs1 as [|seg segs1 IH]; intros k ts s.
  - cbn [app run_segments_in mbind result_bind fst snd length].
    by rewrite Nat.add_0_r.
  - cbn [app run_segments_in length].
    destruct (run_segment seg _ s) as [r| |]; cbn [mbind result_bind]; [|done..].
    rewrite IH. by rewrite Nat.add_succ_r.
Qed.

Section Reductions.
Variable d : device T.
Hypothesis x_len : Z.of_nat (length (d_x d)) = bs * hs.
Local Abbreviation red_seg := (LayerNormSchedule.red_seg l bs b d).

(** A segment in which every thread sets its own cell. *)
Lemma red_seg_set (seg : segment T) (V : (thread -> T) -> thread -> T) :
  (forall Mf t sh, t ∈ act -> blockDim_x l * n <= Z.of_nat (length sh) ->
     seg t (Mf t) (BState d sh)
     = Ok (Mf t, BState d (<[Z.to_nat (cell l t) := V Mf t]> sh))) ->
  red_seg seg.
Proof.
  intros Hseg Mf sh ths ths' Hperm Hperm' Hlen.
  assert (Hnd : NoDup (cell l <$> ths))
    by (rewrite Hperm; apply (block_active_cells_NoDup l bs hs b wf b_range)).
  assert (Hb : forall t, t ∈ ths -> 0 <= cell l t < Z.of_nat (length sh)).
  { intros t Ht. rewrite Hperm in Ht.
    by apply (cell_in_shared l bs hs b wf b_range). }
  assert (Hc : forall t sh1, t ∈ ths -> length sh1 = length sh ->
            (forall j, 0 <= j ->
               (forall t', t' ∈ ths -> cell l t' = j ->
                  t' = t \/ Some (V Mf t') = None) ->
               get sh1 j = get sh j) ->
            seg t (Mf t) (BState d sh1)
            = Ok (Mf t, BState d (<[Z.to_nat (cell l t) := V Mf t]> sh1))).
  { intros t sh1 Ht Hl _. rewrite Hperm in Ht. apply Hseg; [done|lia]. }
  destruct (run_segment_cells l seg Mf (fun t => Some (V Mf t)) d sh ths Hnd Hb Hc)
    as (sh' & Hrun & Hlen' & _).
  destruct (run_segment_cells_order l seg Mf (fun t => Some (V Mf t)) d sh ths ths')
    as (sh'' & Hrun1 & Hrun2); [by rewrite Hperm, Hperm'|done..|].
  rewrite Hrun in Hrun1. injection Hrun1 as <-.
  by exists Mf, sh'.
Qed.

Lemma red_seg_sum : red_seg (fun t => seg_sum l hs t).
Proof.
  apply (red_seg_set _
           (fun _ t => partial n hs (x_row (d_x d) hs (row_of l b t)) (threadIdx_y t))).
  intros Mf t sh Ht Hl.
  by apply (seg_sum_thread l bs hs b wf b_range d x_len).
Qed.

Lemma red_seg_sumsq : red_seg (fun t => seg_sumsq l hs t).
Proof.
  apply (red_seg_set _
           (fun Mf t => partial n hs
                          (fun i => sqdiff (Mf t) (x_row (d_x d) hs (row_of l b t) i))
                          (threadIdx_y t))).
  intros Mf t sh Ht Hl.
  by apply (seg_sumsq_thread l bs hs b wf b_range d x_len).
Qed.

Lemma red_seg_mean : red_seg (fun t => seg_mean l hs t).
Proof.
  intros Mf sh ths ths' Hperm Hperm' Hlen.
  exists (fun t => get sh (threadIdx_x t * n) ⊘ s_of_int hs), sh.
  split; [done|].
  split; by apply (run_seg_mean l bs hs b wf b_range d).
Qed.

Lemma red_seg_tree (s : Z) :
  0 < s -> 2 * s <= n -> red_seg (fun t => seg_tree l t s).
Proof.
  intros Hs Hs2 Mf sh ths ths' Hperm Hperm' Hlen.
  set (upd := fun t => if threadIdx_y t <? s
                       then Some (get sh (cell l t) ⊕ get sh (cell l t + s))
                       else None).
  assert (Hnd : NoDup (cell l <$> ths))
    by (rewrite Hperm; apply (block_active_cells_NoDup l bs hs b wf b_range)).
  assert (Hb : forall t, t ∈ ths -> 0 <= cell l t < Z.of_nat (length sh)).
  { intros t Ht. rewrite Hperm in Ht.
    by apply (cell_in_shared l bs hs b wf b_range). }
  assert (Hc : forall t sh1, t ∈ ths -> length sh1 = length sh ->
            (forall j, 0 <= j ->
               (forall t', t' ∈ ths -> cell l t' = j -> t' = t \/ upd t' = None) ->
               get sh1 j = get sh j) ->
            seg_tree l t s (Mf t) (BState d sh1)
            = Ok (Mf t, BState d (match upd t with
                                  | Some v => <[Z.to_nat (cell l t) := v]> sh1
                                  | None => sh1
                                  end))).
  { intros t sh1 Ht Hl Hagree. rewrite Hperm in Ht.
    rewrite (seg_tree_thread l bs hs b wf b_range d sh1) by (done || lia).
    unfold upd.
    destruct (Z.ltb_spec (threadIdx_y t) s) as [Hlt|Hge]; [|done].
    pose proof (block_active_in_block l bs hs b wf b_range t Ht) as Hin.
    pose proof (cell_bounds l b t Hin) as Hcb.
    pose proof Hin as (_ & _ & Hty).
    rewrite !Hagree; [done|lia| |lia|].
    + intros t' Ht' Hc'. right. rewrite Hperm in Ht'.
      apply (block_active_in_block l bs hs b wf b_range) in Ht'.
      assert (threadIdx_y t' = threadIdx_y t + s) as Hy'.
      { destruct Ht' as (_ & _ & ?).
        by destruct (cell_split n (threadIdx_x t') (threadIdx_x t)
                       (threadIdx_y t') (threadIdx_y t + s)
                       ltac:(lia) ltac:(lia)
                       ltac:(unfold cell in Hc'; lia)). }
      unfold upd. rewrite Hy'.
      destruct (Z.ltb_spec (threadIdx_y t + s) s); [lia|done].
    + intros t' Ht' Hc'. left. rewrite Hperm in Ht'.
      apply (block_active_in_block l bs hs b wf b_range) in Ht'.
      by apply (cell_inj l b). }
  destruct (run_segment_cells l (fun t => seg_tree l t s) Mf upd d sh ths Hnd Hb Hc)
    as (sh' & Hrun & Hlen' & _).
  destruct (run_segment_cells_order l (fun t => seg_tree l t s) Mf upd d sh ths ths')
    as (sh'' & Hrun1 & Hrun2); [by rewrite Hperm, Hperm'|done..|].
  rewrite Hrun in Hrun1. injection Hrun1 as <-.
  by exists Mf, sh'.
Qed.

Lemma red_tree_from (s : positive) :
  2 * Z.pos s <= n -> Forall red_seg (tree_from l s).
Proof.
  induction s as [q IH|q IH|]; intros Hn; cbn [tree_from].
  - constructor; [apply red_seg_tree; lia|apply IH; lia].
  - constructor; [apply red_seg_tree; lia|apply IH; lia].
  - constructor; [apply red_seg_tree; lia|constructor].
Qed.

Lemma red_tree_segs : Forall red_seg (tree_segs l).
Proof.
  unfold tree_segs. fold (stride l). rewrite (stride_eq l bs hs wf).
  destruct wf. unfold int_half.
  destruct (Z.quot n 2) as [|s|s] eqn:Hq; [constructor| |constructor].
  apply red_tree_from.
  rewrite <- Hq, Z.quot_div_nonneg by lia. pose proof (Z.mul_div_le n 2). lia.
Qed.

Lemma red_reductions :
  Forall red_seg (phase1 l hs ++ [fun t => seg_mean l hs t] ++ phase2 l hs).
Proof.
  unfold phase1, phase2. rewrite !Forall_app, !Forall_cons.
  split; [split; [apply red_seg_sum|apply red_tree_segs]|].
  split; [split; [apply red_seg_mean|constructor]|].
  split; [apply red_seg_sumsq|apply red_tree_segs].
Qed.

(** Segments of the reductions, each run in an order of its own, end as they
    do when all are run in one order. *)
Lemma run_segments_in_red (orders : nat -> list thread) (segs : list (segment T)) :
  (forall k, orders k ≡ₚ act) ->
  Forall red_seg segs ->
  forall k (Mf : thread -> T) (sh : list T) (ths order : list thread),
    ths ≡ₚ act -> order ≡ₚ act ->
    blockDim_x l * n <= Z.of_nat (length sh) ->
    exists (Mf' : thread -> T) (sh' : list T) (order' : list thread),
      order' ≡ₚ act /\ length sh' = length sh
      /\ run_segments segs (with_mean Mf ths) (BState d sh)
         = Ok (with_mean Mf' ths, BState d sh')
      /\ run_segments_in orders k segs (with_mean Mf order) (BState d sh)
         = Ok (with_mean Mf' order', BState d sh').
Proof.
  intros Hord Hred. induction Hred as [|seg segs Hseg _ IH];
    intros k Mf sh ths order Hperm Hperm' Hlen.
  - by exists Mf, sh, order.
  - destruct (Hseg Mf sh ths (orders k) Hperm (Hord k) Hlen)
      as (Mf1 & sh1 & Hlen1 & Hrun1 & Hrun1').
    destruct (IH (S k) Mf1 sh1 ths (orders k) Hperm (Hord k) ltac:(lia))
      as (Mf' & sh' & order' & Hperm'' & Hlen' & Hrun & Hrun').
    exists Mf', sh', order'. split; [done|]. split; [congruence|].
    cbn [run_segments run_segments_in].
    rewrite Hrun1. cbn [mbind result_bind fst snd]. split; [done|].
    rewrite in_order_with_mean
      by (intros t Ht; by rewrite Hperm', <- (Hord k)).
    rewrite Hrun1'. done.
Qed.

End Reductions.

Lemma with_mean_inv (Mf Mf' : thread -> T) (ths : list thread) (t : thread) :
  with_mean Mf ths = with_mean Mf' ths -> t ∈ ths -> Mf t = Mf' t.
Proof.
  intros Heq Ht. apply list_elem_of_lookup in Ht as [i Hi].
  apply (f_equal (fun ts => ts !! i)) in Heq.
  unfold with_mean in Heq. rewrite !list_lookup_fmap, Hi in Heq.
  by injection Heq.
Qed.

(** X3: the turns that the threads of a block take between two barriers do
    not matter. In the model a thread runs its part of a segment, the code
    between two barriers, as a whole, and the threads take their turns in
    some order. Whatever these orders are, one for each segment, whatever
    [shared] holds at the start and whatever the uninitialised local variable
    holds, the block ends and leaves the buffers exactly as it does when every
    segment is run in the order of the thread index. *)
Theorem block_result_independent_of_thread_order
    (sh0 : Z -> T) (m0 m1 : T) (d : device T) (orders : nat -> list thread)
    (sh : list T) :
  fits bs hs d ->
  (forall k, orders k ≡ₚ block_active l bs b) ->
  blockDim_x l * blockDim_y l <= Z.of_nat (length sh) ->
  exists r,
    run_segments_in orders 0 (kernel_segments l hs)
      ((fun t => (t, m1)) <$> block_active l bs b) (BState d sh)
    = Ok r
    /\ run_block l bs hs sh0 m0 b d = Ok (dev r.2).
Proof.
  intros Hfits Hord Hsh. fold (with_mean (fun _ => m1) act).
  pose proof Hfits as (_ & _ & Hx & _).
  unfold kernel_segments.
  replace (phase1 l hs ++ [fun t => seg_mean l hs t] ++ phase2 l hs
           ++ [fun t => seg_out l hs t])
    with ((phase1 l hs ++ [fun t => seg_mean l hs t] ++ phase2 l hs)
          ++ [fun t => seg_out l hs t]) by (by rewrite <- !app_assoc).
  rewrite run_segments_in_app.
  set (reds := phase1 l hs ++ [fun t => seg_mean l hs t] ++ phase2 l hs).
  destruct (run_segments_in_red d orders reds Hord (red_reductions d Hx)
              0%nat (fun _ => m1) sh act act ltac:(done) ltac:(done) Hsh)
    as (Mf' & sh' & order' & Hperm' & Hlen' & Hrun & Hrun').
  destruct (run_reductions l bs hs b wf b_range d Hx act ltac:(done) m1 sh Hsh)
    as (sh2 & Hrun2 & _ & HIS).
  fold reds in Hrun2. rewrite Hrun in Hrun2. injection Hrun2 as HM ->.
  rewrite Hrun'. cbn [mbind result_bind fst snd run_segments_in].
  set (K := (0 + length reds)%nat).
  rewrite in_order_with_mean by (intros t Ht; by rewrite Hperm', <- (Hord K)).
  rewrite (with_mean_ext Mf'
             (fun t => k_mean n hs (x_row (d_x d) hs (row_of l b t)))).
  2:{ intros t Ht. rewrite (Hord K) in Ht.
      exact (with_mean_inv _ _ act t HM Ht). }
  destruct (run_seg_out l bs hs b wf b_range d Hfits
              (fun r => k_mean n hs (x_row (d_x d) hs r))
              (fun r => k_invstd n hs (x_row (d_x d) hs r)) sh2 ltac:(lia)
              (orders K) (Hord K)
              ltac:(intros t Ht; by rewrite (HIS t Ht)))
    as (d' & Hrun3 & Hsame & Hy & Hykeep & Hc & Hckeep).
  cbv beta in Hrun3. rewrite Hrun3. eexists. split; [reflexivity|].
  cbn [mbind result_bind fst snd dev].
  destruct (run_block_spec l bs hs wf (fun _ => sh0) m0 b d b_range Hfits)
    as (d'' & Hrun'' & Hdone'').
  rewrite Hrun''. f_equal.
  apply (rows_done_unique l bs hs
           (blockDim_x l * b) (blockDim_x l * (b + 1)) d);
    [destruct wf; nia|apply wf|done|].
  split; [done|]. split; [|split; [|split]].
  - intros r i Hr Hbs Hi. by apply Hy.
  - intros j Hj Hne. apply Hykeep; [done|]. intros r i [Hr Hbs] Hi. by apply Hne.
  - intros r Hr Hbs. by apply Hc.
  - intros j Hj Hne. apply Hckeep; [done|]. intros r [Hr Hbs]. by apply Hne.
Qed.

End Schedules.

Section AnyLaunch.
Import RowModel Reference LayerNorm LayerNormSpec.

(** X4: the kernel does not depend on the launch that [Run] makes: on any
    grid that covers the batch, with any number of rows per block, any number
    [n] of workers per row and enough shared memory, it ends, whatever the
    arithmetic of the element type, and leaves in [y] and [cache] the values
    that the order of the kernel gives for [n] workers: [n] strided partial
    sums combined by the halving rounds. Where addition is exact and [n] is a
    power of two, these are the values of the reference. *)
Theorem LayerNorm_any_launch {T : Type} `{Scalar T}
    (l : launch) (bs hs : Z) (sh0 : Z -> Z -> T) (m0 : T) (d : device T) :
  wf_launch l bs hs ->
  0 <= gridDim_x l -> bs <= gridDim_x l * blockDim_x l -> fits bs hs d ->
  let n := blockDim_y l in
  exists d', LayerNorm l bs hs sh0 m0 d = Ok d'
    /\ (forall r i, 0 <= r < bs -> 0 <= i < hs ->
          d_y d' !! Z.to_nat (r * hs + i)
          = Some ((get (d_x d) (r * hs + i) ⊖ k_mean n hs (x_row (d_x d) hs r))
                  ⊗ k_invstd n hs (x_row (d_x d) hs r)
                  ⊗ get (d_alpha d) i ⊕ get (d_beta d) i))
    /\ (forall r, 0 <= r < bs ->
          d_cache d' !! Z.to_nat (2 * r)
          = Some (tree_reduce n (partial n hs (x_row (d_x d) hs r)) ⊘ s_of_int hs)
          /\ d_cache d' !! Z.to_nat (2 * r + 1)
             = Some (s_rsqrt
                       (tree_reduce n
                          (partial n hs
                             (fun i => sqdiff (k_mean n hs (x_row (d_x d) hs r))
                                         (x_row (d_x d) hs r i)))
                        ⊘ s_of_int hs ⊕ s_eps)))
    /\ (ExactAdd T -> forall m, n = Z.pos m -> pow2 m ->
        (forall r i, 0 <= r < bs -> 0 <= i < hs ->
           d_y d' !! Z.to_nat (r * hs + i)
           = Some (layer_norm hs (d_alpha d) (d_beta d) (row hs (d_x d) r) i))
        /\ (forall r, 0 <= r < bs ->
              d_cache d' !! Z.to_nat (2 * r) = Some (mean hs (row hs (d_x d) r))
              /\ d_cache d' !! Z.to_nat (2 * r + 1)
                 = Some (invstd hs (row hs (d_x d) r)))).
Proof.
  intros Hwf Hg Hcover Hfits n.
  destruct (LayerNorm_spec l bs hs Hwf sh0 m0 d Hg Hcover Hfits)
    as (d' & Hrun & (_ & _ & _ & Ly & Lc) & Hy & _ & Hc & _).
  exists d'. split; [done|].
  destruct Hfits as (_ & _ & Fx & Fy & Fc).
  assert (Hhs : 0 <= hs) by apply Hwf.
  assert (Hy' : forall r i, 0 <= r < bs -> 0 <= i < hs ->
            d_y d' !! Z.to_nat (r * hs + i)
            = Some (k_out n hs (x_row (d_x d) hs r) (d_alpha d) (d_beta d) i)).
  { intros r i Hr Hi. rewrite get_lookup by (rewrite Ly; nia). f_equal.
    apply Hy; (done || lia). }
  assert (Hc' : forall r, 0 <= r < bs ->
            d_cache d' !! Z.to_nat (2 * r) = Some (k_mean n hs (x_row (d_x d) hs r))
            /\ d_cache d' !! Z.to_nat (2 * r + 1)
               = Some (k_invstd n hs (x_row (d_x d) hs r))).
  { intros r Hr. rewrite !get_lookup by (rewrite Lc; lia).
    destruct (Hc r ltac:(lia) ltac:(lia)) as [-> ->]. done. }
  split; [exact Hy'|]. split; [exact Hc'|].
  intros Hexact m Hm Hpow. split.
  - intros r i Hr Hi. rewrite (Hy' r i Hr Hi), Hm. f_equal.
    apply k_out_ref; (done || lia || nia).
  - intros r Hr. destruct (Hc' r Hr) as [-> ->]. rewrite Hm.
    rewrite k_mean_ref, k_invstd_ref by (done || lia || nia). done.
Qed.

End AnyLaunch.

Section EdgeSizes.
Import RowModel Reference LayerNorm LayerNormSpec.

(** X5: for an empty batch the grid of [Run] has no block, and nothing is
    read or written, whatever the buffers are (their sizes are not
    constrained). This is so for [batch_size] from -3 to 0, for which
    [(batch_size + 4 - 1) / 4] is 0 in [unsigned] arithmetic. *)
Theorem Run_empty_batch {T : Type} `{Scalar T}
    (bs hs : Z) (sh0 : Z -> Z -> T) (m0 : T) (d : device T) :
  -3 <= bs <= 0 -> Run bs hs sh0 m0 d = Ok d.
Proof.
  intros Hbs.
  assert (bs = -3 \/ bs = -2 \/ bs = -1 \/ bs = 0) as [->|[->|[->| ->]]] by lia;
    reflexivity.
Qed.

(** With no element to add, every partial sum is zero, and so is what the
    halving rounds make of them when [0 + 0] is [0]. *)
Lemma tree_red_zero {T : Type} `{Scalar T} (s : positive) :
  s_zero ⊕ s_zero = s_zero ->
  forall (p : Z -> T) (j : Z), (forall k, p k = s_zero) -> tree_red s p j = s_zero.
Proof.
  intros H0.
  assert (Hround : forall (s' : Z) (p : Z -> T), (forall k, p k = s_zero) ->
            forall k, tree_round s' p k = s_zero).
  { intros s' p Hp k. unfold tree_round. rewrite !Hp. by destruct (k <? s'). }
  induction s as [q IH|q IH|]; intros p j Hp; cbn [tree_red].
  - apply IH. by apply Hround.
  - apply IH. by apply Hround.
  - by apply Hround.
Qed.

Lemma tree_reduce_zero {T : Type} `{Scalar T} (n : Z) (p : Z -> T) :
  s_zero ⊕ s_zero = s_zero -> (forall k, p k = s_zero) ->
  tree_reduce n p = s_zero.
Proof.
  intros H0 Hp. unfold tree_reduce.
  destruct (int_half n); [apply Hp|by apply tree_red_zero|apply Hp].
Qed.

(** X6: with [hidden_size = 0] no element of [x] is read and [y] is not
    written; every row gets the mean [0 / 0] and the factor
    [rsqrt (0 / 0 + eps)] in [cache], in the arithmetic of the element type.
    Nothing is assumed of that arithmetic but that [0 + 0] is [0]; in binary64
    [0 / 0] is a NaN. *)
Theorem Run_zero_hidden_size {T : Type} `{Scalar T}
    (bs : Z) (sh0 : Z -> Z -> T) (m0 : T) (d : device T) :
  s_zero ⊕ s_zero = s_zero ->
  in_range bs 0 -> fits bs 0 d ->
  exists d', Run bs 0 sh0 m0 d = Ok d'
    /\ d_y d' = [] /\ d_x d' = []
    /\ forall r, 0 <= r < bs ->
         d_cache d' !! Z.to_nat (2 * r) = Some (s_zero ⊘ s_of_int 0)
         /\ d_cache d' !! Z.to_nat (2 * r + 1)
            = Some (s_rsqrt (s_zero ⊘ s_of_int 0 ⊕ s_eps)).
Proof.
  intros H0 Hrange Hfits.
  destruct (Run_rows bs 0 sh0 m0 d Hrange Hfits)
    as (d' & Hrun & (_ & _ & Hx & Ly & _) & _ & Hc).
  exists d'. split; [done|].
  destruct Hfits as (_ & _ & Fx & Fy & _).
  split; [apply nil_length_inv; lia|].
  split; [rewrite Hx; apply nil_length_inv; lia|].
  intros r Hr. destruct (Hc r Hr) as [-> ->].
  unfold k_invstd, k_mean. rewrite !tree_reduce_zero; done.
Qed.

End EdgeSizes.

Section BlocksAnyOrder.
Import RowModel Reference LayerNorm LayerNormSpec LayerNormOrder.
Context {T : Type} `{Scalar T}.
Variables (l : launch) (bs hs : Z).
Hypothesis wf : wf_launch l bs hs.

Local Abbreviation bdx := (blockDim_x l).

Lemma block_of_row b r :
  r / bdx = b <-> bdx * b <= r < bdx * (b + 1).
Proof.
  destruct wf. split.
  - intros <-. pose proof (Z.mul_div_le r bdx ltac:(lia)).
    pose proof (Z.mul_succ_div_gt r bdx ltac:(lia)). lia.
  - intros Hr. symmetry. apply (Z.div_unique r bdx b (r - bdx * b)); lia.
Qed.

Lemma rows_done_block b (d0 d' : device T) :
  0 <= b ->
  rows_done l bs hs d0 (bdx * b) (bdx * (b + 1)) d' ->
  blocks_done l bs hs d0 [b] d'.
Proof.
  intros Hb0 (Hsame & Hy & Hykeep & Hc & Hckeep).
  split; [done|]. split; [|split; [|split]].
  - intros r i Hin Hr Hi. apply list_elem_of_singleton, block_of_row in Hin.
    apply Hy; (done || lia).
  - intros j Hj Hne. apply Hykeep; [done|]. intros r i Hr Hbs Hi.
    apply Hne; [|destruct wf; nia|done].
    by apply list_elem_of_singleton, block_of_row.
  - intros r Hin Hr. apply list_elem_of_singleton, block_of_row in Hin.
    apply Hc; (done || lia).
  - intros j Hj Hne. apply Hckeep; [done|]. intros r Hr Hbs.
    apply Hne; [|destruct wf; nia].
    by apply list_elem_of_singleton, block_of_row.
Qed.

Lemma blocks_done_nil (d0 : device T) : blocks_done l bs hs d0 [] d0.
Proof.
  split; [done|]. split; [|split; [done|split; [|done]]].
  - intros r i Hin. by apply elem_of_nil in Hin.
  - intros r Hin. by apply elem_of_nil in Hin.
Qed.

Lemma blocks_done_app bl1 bl2 (d0 d1 d2 : device T) :
  blocks_done l bs hs d0 bl1 d1 -> blocks_done l bs hs d1 bl2 d2 ->
  blocks_done l bs hs d0 (bl1 ++ bl2) d2.
Proof.
  intros (Hsame1 & Hy1 & Hykeep1 & Hc1 & Hckeep1)
    (Hsame2 & Hy2 & Hykeep2 & Hc2 & Hckeep2).
  pose proof Hsame1 as (Ha & Hb & Hx & _ & _).
  assert (Hhs : 0 <= hs) by apply wf.
  split; [by apply (same_inputs_trans d0 d1 d2)|].
  split; [|split; [|split]].
  - intros r i Hin Hr Hi.
    destruct (decide (r / bdx ∈ bl2)) as [Hin2|Hout2].
    + rewrite Hy2 by done. by rewrite Ha, Hb, Hx.
    + apply elem_of_app in Hin as [Hin1|Hin2]; [|done].
      rewrite Hykeep2; [by apply Hy1|nia|].
      intros r' i' Hin' Hr' Hi' Heq.
      destruct (cell_split hs r r' i i' Hi Hi' Heq) as [-> _]. done.
  - intros j Hj Hne. rewrite Hykeep2; [apply Hykeep1; [done|]|done|].
    + intros r i Hin Hr Hi. apply Hne; [|done..]. apply elem_of_app. by left.
    + intros r i Hin Hr Hi. apply Hne; [|done..]. apply elem_of_app. by right.
  - intros r Hin Hr.
    destruct (decide (r / bdx ∈ bl2)) as [Hin2|Hout2].
    + rewrite Hx in Hc2. by apply Hc2.
    + apply elem_of_app in Hin as [Hin1|Hin2]; [|done].
      rewrite !Hckeep2; [by apply Hc1|lia| |lia|].
      * intros r' Hin' Hr'. assert (r <> r') by (by intros ->). lia.
      * intros r' Hin' Hr'. assert (r <> r') by (by intros ->). lia.
  - intros j Hj Hne. rewrite Hckeep2; [apply Hckeep1; [done|]|done|].
    + intros r Hin Hr. apply Hne; [|done]. apply elem_of_app. by left.
    + intros r Hin Hr. apply Hne; [|done]. apply elem_of_app. by right.
Qed.

Lemma run_blocks_done (sh0 : Z -> Z -> T) (m0 : T) bl : forall d0 : device T,
  (forall b, b ∈ bl -> 0 <= b < gridDim_x l) -> fits bs hs d0 ->
  exists d', run_blocks l bs hs sh0 m0 bl d0 = Ok d'
    /\ blocks_done l bs hs d0 bl d'.
Proof.
  induction bl as [|b bl IH]; intros d0 Hbl Hfits.
  - exists d0. split; [done|apply blocks_done_nil].
  - assert (Hb : 0 <= b < gridDim_x l) by (apply Hbl, elem_of_cons; by left).
    destruct (run_block_spec l bs hs wf sh0 m0 b d0) as (d1 & Hrun1 & Hdone1);
      [done|done|].
    destruct (IH d1) as (d2 & Hrun2 & Hdone2).
    { intros b' Hb'. apply Hbl, elem_of_cons. by right. }
    { apply (fits_same_inputs bs hs d0); [done|apply Hdone1]. }
    exists d2. split.
    + cbn [run_blocks]. rewrite Hrun1. exact Hrun2.
    + apply (blocks_done_app [b] bl d0 d1 d2); [|done].
      apply rows_done_block; [lia|done].
Qed.

(** What the blocks of a set get determines the device. *)
Lemma blocks_done_unique bl bl' (d0 d1 d2 : device T) :
  (forall b, b ∈ bl <-> b ∈ bl') ->
  blocks_done l bs hs d0 bl d1 -> blocks_done l bs hs d0 bl' d2 -> d1 = d2.
Proof.
  intros Hset (Hsame1 & Hy1 & Hykeep1 & Hc1 & Hckeep1)
    (Hsame2 & Hy2 & Hykeep2 & Hc2 & Hckeep2).
  destruct Hsame1 as (Ha1 & Hb1 & Hx1 & Ly1 & Lc1).
  destruct Hsame2 as (Ha2 & Hb2 & Hx2 & Ly2 & Lc2).
  assert (Hhs : 0 <= hs) by apply wf.
  assert (Hrow : forall r i, 0 <= i < hs -> (r * hs + i) / hs = r).
  { intros r i Hi. rewrite Z.add_comm, Z.div_add by lia.
    rewrite Z.div_small by lia. lia. }
  assert (Hy : d_y d1 = d_y d2).
  { apply get_ext; [congruence|]. intros j Hj.
    destruct (decide (0 < hs /\ j / hs / bdx ∈ bl /\ 0 <= j / hs < bs))
      as [(Hpos & Hin & Hr)|Hno].
    - pose proof (Z.mod_pos_bound j hs Hpos).
      assert (Hji : j = j / hs * hs + j mod hs) by (rewrite Z.mod_eq; lia).
      rewrite Hji. rewrite Hy1, Hy2; [done|by apply Hset|done..].
    - rewrite Hykeep1, Hykeep2; [done|lia| |lia|].
      + intros r i Hin Hr Hi ->. apply Hno. rewrite Hrow by done.
        split; [lia|]. split; [by apply Hset|done].
      + intros r i Hin Hr Hi ->. apply Hno. rewrite Hrow by done.
        split; [lia|]. done. }
  assert (Hhalf : forall r, 2 * r / 2 = r /\ (2 * r + 1) / 2 = r).
  { intros r. split.
    - by rewrite Z.mul_comm, Z.div_mul.
    - rewrite Z.add_comm, Z.mul_comm, Z.div_add by lia. done. }
  assert (Hc : d_cache d1 = d_cache d2).
  { apply get_ext; [congruence|]. intros j Hj.
    destruct (decide (j / 2 / bdx ∈ bl /\ 0 <= j / 2 < bs)) as [(Hin & Hr)|Hno].
    - destruct (Hc1 (j / 2) Hin Hr) as [Hm1 Hi1].
      destruct (Hc2 (j / 2) ltac:(by apply Hset) Hr) as [Hm2 Hi2].
      pose proof (Z.mod_pos_bound j 2 ltac:(lia)).
      assert (Hji : j = 2 * (j / 2) + j mod 2) by (rewrite Z.mod_eq; lia).
      assert (j mod 2 = 0 \/ j mod 2 = 1) as [Hpar|Hpar] by lia;
        rewrite Hpar in Hji; rewrite Hji.
      + rewrite Z.add_0_r. congruence.
      + congruence.
    - rewrite Hckeep1, Hckeep2; [done|lia| |lia|].
      + intros r Hin Hr. destruct (Hhalf r) as [H0 H1].
        split; intros ->; apply Hno; [rewrite H0|rewrite H1];
          (split; [by apply Hset|done]).
      + intros r Hin Hr. destruct (Hhalf r) as [H0 H1].
        split; intros ->; apply Hno; [rewrite H0|rewrite H1]; done. }
  destruct d1, d2. simpl in *. congruence.
Qed.

End BlocksAnyOrder.

Section BlockOrderResult.
Import RowModel Reference LayerNorm LayerNormSpec LayerNormOrder.

(** X8: the blocks of a launch may run in any order: they share nothing but the
    buffers, and no block reads what another writes. For every order [bl] of
    the blocks of the grid, and whatever shared memory and the local variables
    hold at the start of each block, the result is that of [LayerNorm]. *)
Theorem blocks_in_any_order {T : Type} `{Scalar T}
    (l : launch) (bs hs : Z) (sh0 sh1 : Z -> Z -> T) (m0 m1 : T)
    (d : device T) (bl : list Z) :
  wf_launch l bs hs -> fits bs hs d ->
  bl ≡ₚ seqZ 0 (gridDim_x l) ->
  exists d', LayerNorm l bs hs sh0 m0 d = Ok d'
    /\ run_blocks l bs hs sh1 m1 bl d = Ok d'.
Proof.
  intros Hwf Hfits Hperm.
  destruct (run_blocks_done l bs hs Hwf sh0 m0 (seqZ 0 (gridDim_x l)) d)
    as (d1 & Hrun1 & Hdone1); [|done|].
  { intros b Hb. apply elem_of_seqZ in Hb. lia. }
  destruct (run_blocks_done l bs hs Hwf sh1 m1 bl d) as (d2 & Hrun2 & Hdone2);
    [|done|].
  { intros b Hb. rewrite Hperm in Hb. apply elem_of_seqZ in Hb. lia. }
  exists d1. split; [exact Hrun1|]. rewrite Hrun2. f_equal.
  apply (blocks_done_unique l bs hs Hwf bl (seqZ 0 (gridDim_x l)) d);
    [|done..].
  intros b. by rewrite Hperm.
Qed.

End BlockOrderResult.

(** ** Buffers longer than the kernel assumes *)

Section Extension.
Import RowModel Reference LayerNorm LayerNormSpec LayerNormSizes.
Context {T : Type} `{Scalar T}.
Variables (l : launch) (hs : Z).
Variable e : device T.

Local Ltac inv_bind H :=
  repeat match type of H with
  | mbind _ ?m = Ok _ =>
      let E := fresh "E" in
      destruct m eqn:E; cbn [mbind result_bind] in H; [|discriminate H..]
  end.

Lemma ld_app (a a' : list T) i v : ld a i = Ok v -> ld (a ++ a') i = Ok v.
Proof.
  intros Hld. apply ld_inv in Hld as [Hi ->].
  rewrite ld_ok by (rewrite length_app; lia).
  f_equal. unfold get. rewrite lookup_app_l by lia. done.
Qed.

Lemma st_app (a a' b : list T) i v :
  st a i v = Ok b -> st (a ++ a') i v = Ok (b ++ a').
Proof.
  intros Hst. apply st_inv in Hst as [Hi ->].
  rewrite st_ok by (rewrite length_app; lia).
  f_equal. apply insert_app_l. lia.
Qed.

Lemma for_strided_sim {A B} (R : A -> B -> Prop)
    (body : Z -> A -> result A) (body' : Z -> B -> result B) fuel :
  (forall j a b a', R a b -> body j a = Ok a' ->
     exists b', body' j b = Ok b' /\ R a' b') ->
  forall i a b a', R a b -> for_strided l hs fuel i body a = Ok a' ->
    exists b', for_strided l hs fuel i body' b = Ok b' /\ R a' b'.
Proof.
  intros Hbody. induction fuel as [|fuel IH]; intros i a b a' HR Hrun;
    simpl in Hrun |- *.
  - destruct (i <? hs); [done|]. injection Hrun as <-. by exists b.
  - destruct (i <? hs); [|injection Hrun as <-; by exists b].
    inv_bind Hrun.
    destruct (Hbody i a b a0 HR E) as (b0 & -> & HR0).
    cbn [mbind result_bind]. by apply (IH _ a0).
Qed.

Lemma seg_sum_ext : ext_seg e (fun t => seg_sum l hs t).
Proof.
  intros t m s r Hrun. unfold seg_sum in Hrun |- *. inv_bind Hrun.
  injection Hrun as <-.
  destruct (for_strided_sim eq
              (fun i sum => v ← ld (d_x (dev s)) (int_add (batch_idx l hs t) i);
                            Ok (sum ⊕ v))
              (fun i sum => v ← ld (d_x (dev (ext_state e s)))
                                   (int_add (batch_idx l hs t) i);
                            Ok (sum ⊕ v))
              (loop_fuel hs)) with (i := index t) (a := s_zero) (b := s_zero) (a' := a)
    as (b' & -> & <-); [|done|done|].
  { intros j u ? u' <- Hb. inv_bind Hb. injection Hb as <-.
    exists (u ⊕ a1). split; [|done]. simpl. by rewrite (ld_app _ _ _ _ E1). }
  cbn [mbind result_bind]. simpl. rewrite E0. done.
Qed.

Lemma seg_sumsq_ext : ext_seg e (fun t => seg_sumsq l hs t).
Proof.
  intros t m s r Hrun. unfold seg_sumsq in Hrun |- *. inv_bind Hrun.
  injection Hrun as <-.
  destruct (for_strided_sim eq
              (fun i sumsq => v ← ld (d_x (dev s)) (int_add (batch_idx l hs t) i);
                 Ok (sumsq ⊕ (v ⊖ m) ⊗ (v ⊖ m)))
              (fun i sumsq => v ← ld (d_x (dev (ext_state e s)))
                                     (int_add (batch_idx l hs t) i);
                 Ok (sumsq ⊕ (v ⊖ m) ⊗ (v ⊖ m)))
              (loop_fuel hs)) with (i := index t) (a := s_zero) (b := s_zero) (a' := a)
    as (b' & -> & <-); [|done|done|].
  { intros j u ? u' <- Hb. inv_bind Hb. injection Hb as <-.
    eexists. split; [|done]. simpl. by rewrite (ld_app _ _ _ _ E1). }
  cbn [mbind result_bind]. simpl. rewrite E0. done.
Qed.

Lemma seg_tree_ext s0 : ext_seg e (fun t => seg_tree l t s0).
Proof.
  intros t m s r Hrun. unfold seg_tree in Hrun |- *. simpl.
  destruct (index t <? s0).
  - inv_bind Hrun. injection Hrun as <-.
    cbn [mbind result_bind]. rewrite E1. done.
  - injection Hrun as <-. done.
Qed.

Lemma seg_mean_ext : ext_seg e (fun t => seg_mean l hs t).
Proof.
  intros t m s r Hrun. unfold seg_mean in Hrun |- *. simpl.
  inv_bind Hrun. injection Hrun as <-. done.
Qed.

Local Tactic Notation "inv_bind1" hyp(H) ident(x) ident(E) :=
  match type of H with
  | mbind _ ?m = Ok _ =>
      destruct m as [x| |] eqn:E; cbn [mbind result_bind] in H; [|discriminate H..]
  end.

Lemma seg_out_ext : ext_seg e (fun t => seg_out l hs t).
Proof.
  intros t m s r Hrun. unfold seg_out in Hrun |- *.
  inv_bind1 Hrun v Ev. inv_bind1 Hrun d2 Ed.
  inv_bind1 Hrun c0 Ec0. inv_bind1 Hrun c1 Ec1.
  injection Hrun as <-. simpl. rewrite Ev. cbn [mbind result_bind].
  match goal with
  | |- context [for_strided l hs ?fu ?ix ?body' (extend (dev s) e)] =>
      destruct (for_strided_sim (fun d d' => d' = extend d e)
                  (fun i d =>
                     xv ← ld (d_x d) (int_add (batch_idx l hs t) i);
                     a ← ld (d_alpha d) i;
                     b ← ld (d_beta d) i;
                     y' ← st (d_y d) (int_add (batch_idx l hs t) i)
                            ((xv ⊖ m) ⊗ s_rsqrt (v ⊘ s_of_int hs ⊕ s_eps) ⊗ a ⊕ b);
                     Ok (Device (d_alpha d) (d_beta d) (d_x d) y' (d_cache d)))
                  body' fu) with (i := ix) (a := dev s) (b := extend (dev s) e)
                                 (a' := d2)
        as (b' & -> & ->); [|done|exact Ed|]
  end.
  { intros j d1 ? d1' -> Hb.
    inv_bind1 Hb xv Ex. inv_bind1 Hb av Ea. inv_bind1 Hb bv Eb. inv_bind1 Hb y' Ey.
    injection Hb as <-.
    eexists. split; [|reflexivity]. simpl.
    rewrite (ld_app _ _ _ _ Ex), (ld_app _ _ _ _ Ea), (ld_app _ _ _ _ Eb).
    cbn [mbind result_bind]. rewrite (st_app _ _ _ _ _ Ey). done. }
  cbn [mbind result_bind]. simpl.
  rewrite (st_app _ _ _ _ _ Ec0). cbn [mbind result_bind].
  rewrite (st_app _ _ _ _ _ Ec1). done.
Qed.

Lemma run_segment_ext seg ths : forall s r,
  ext_seg e seg ->
  run_segment seg ths s = Ok r ->
  run_segment seg ths (ext_state e s) = Ok (r.1, ext_state e r.2).
Proof.
  induction ths as [|[t m] ths IH]; intros s r Hseg Hrun; simpl in Hrun |- *.
  - by injection Hrun as <-.
  - inv_bind Hrun. injection Hrun as <-.
    rewrite (Hseg t m s a E). cbn [mbind result_bind snd fst].
    rewrite (IH a.2 a0 Hseg E0). done.
Qed.

Lemma run_segments_ext segs : forall ths s r,
  Forall (ext_seg e) segs ->
  run_segments segs ths s = Ok r ->
  run_segments segs ths (ext_state e s) = Ok (r.1, ext_state e r.2).
Proof.
  induction segs as [|seg segs IH]; intros ths s r Hsegs Hrun; simpl in Hrun |- *.
  - by injection Hrun as <-.
  - inv_bind Hrun. apply Forall_cons in Hsegs as [Hseg Hsegs].
    rewrite (run_segment_ext seg ths s a Hseg E). cbn [mbind result_bind snd fst].
    by apply IH.
Qed.

Lemma tree_from_ext s0 : Forall (ext_seg e) (tree_from l s0).
Proof.
  induction s0 as [q IH|q IH|]; simpl.
  - apply Forall_cons_2; [apply seg_tree_ext|done].
  - apply Forall_cons_2; [apply seg_tree_ext|done].
  - apply Forall_cons_2; [apply seg_tree_ext|apply Forall_nil_2].
Qed.

Lemma tree_segs_ext : Forall (ext_seg e) (tree_segs l).
Proof.
  unfold tree_segs. destruct (int_half (to_int (blockDim_y l)));
    [apply Forall_nil_2|apply tree_from_ext|apply Forall_nil_2].
Qed.

Lemma kernel_segments_ext : Forall (ext_seg e) (kernel_segments l hs).
Proof.
  unfold kernel_segments, phase1, phase2.
  apply Forall_cons_2; [apply seg_sum_ext|].
  apply Forall_app. split; [apply tree_segs_ext|].
  apply Forall_cons_2; [apply seg_mean_ext|].
  apply Forall_cons_2; [apply seg_sumsq_ext|].
  apply Forall_app. split; [apply tree_segs_ext|].
  apply Forall_cons_2; [apply seg_out_ext|apply Forall_nil_2].
Qed.

Lemma run_block_ext bs sh0 m0 b (d d' : device T) :
  run_block l bs hs sh0 m0 b d = Ok d' ->
  run_block l bs hs sh0 m0 b (extend d e) = Ok (extend d' e).
Proof.
  unfold run_block. cbv zeta. intros Hrun. inv_bind Hrun. injection Hrun as <-.
  change (BState (extend d e) (sh0 <$> seqZ 0 (shared_elems l)))
    with (ext_state e (BState d (sh0 <$> seqZ 0 (shared_elems l)))).
  rewrite (run_segments_ext _ _ _ a kernel_segments_ext E). done.
Qed.

Lemma run_blocks_ext bs sh0 m0 bl : forall d d' : device T,
  run_blocks l bs hs sh0 m0 bl d = Ok d' ->
  run_blocks l bs hs sh0 m0 bl (extend d e) = Ok (extend d' e).
Proof.
  induction bl as [|b bl IH]; intros d d' Hrun; simpl in Hrun |- *.
  - by injection Hrun as <-.
  - inv_bind Hrun. rewrite (run_block_ext _ _ _ _ _ _ E).
    cbn [mbind result_bind]. by apply IH.
Qed.

End Extension.

Section LongerBuffers.
Import RowModel Reference LayerNorm LayerNormSpec LayerNormSizes.
Context {T : Type} `{Scalar T}.

Lemma LayerNorm_ext l bs hs sh0 m0 (d d' e : device T) :
  LayerNorm l bs hs sh0 m0 d = Ok d' ->
  LayerNorm l bs hs sh0 m0 (extend d e) = Ok (extend d' e).
Proof. apply run_blocks_ext. Qed.

Lemma extend_leading bs hs (d : device T) :
  extend (leading bs hs d) (behind bs hs d) = d.
Proof. destruct d. unfold extend, leading, behind. simpl. by rewrite !take_drop. Qed.

Lemma leading_fits bs hs (d : device T) :
  0 <= bs -> 0 <= hs -> at_least bs hs d -> fits bs hs (leading bs hs d).
Proof.
  intros Hbs Hhs (La & Lb & Lx & Ly & Lc). unfold fits, leading. simpl.
  rewrite !length_take. repeat split; nia.
Qed.

End LongerBuffers.

(** ** The sizes that a run needs *)

Section Visits.
Import RowModel Reference LayerNorm LayerNormSpec LayerNormSizes.
Context {T : Type} `{Scalar T}.
Variables (l : launch) (hs : Z).

Local Tactic Notation "inv_bind1" hyp(H) ident(x) ident(E) :=
  match type of H with
  | mbind _ ?m = Ok _ =>
      destruct m as [x| |] eqn:E; cbn [mbind result_bind] in H; [|discriminate H..]
  end.

Lemma same_size_refl (d : device T) : same_size d d.
Proof. done. Qed.

Lemma same_size_trans (d1 d2 d3 : device T) :
  same_size d1 d2 -> same_size d2 d3 -> same_size d1 d3.
Proof.
  intros (Ha & Hb & Hx & Hy & Hc) (Ha' & Hb' & Hx' & Hy' & Hc').
  unfold same_size. by rewrite Ha', Hb', Hx', Hy', Hc'.
Qed.

Lemma st_length (a b : list T) i v : st a i v = Ok b -> length b = length a.
Proof. intros Hst. apply st_inv in Hst as [_ ->]. apply length_insert. Qed.

Lemma seg_sum_size : size_seg (fun t => seg_sum l hs t).
Proof.
  intros t m s r Hrun. unfold seg_sum in Hrun.
  inv_bind1 Hrun v Ev. inv_bind1 Hrun sh Esh. by injection Hrun as <-.
Qed.

Lemma seg_sumsq_size : size_seg (fun t => seg_sumsq l hs t).
Proof.
  intros t m s r Hrun. unfold seg_sumsq in Hrun.
  inv_bind1 Hrun v Ev. inv_bind1 Hrun sh Esh. by injection Hrun as <-.
Qed.

Lemma seg_tree_size s0 : size_seg (fun t => seg_tree l t s0).
Proof.
  intros t m s r Hrun. unfold seg_tree in Hrun. destruct (index t <? s0).
  - inv_bind1 Hrun a Ea. inv_bind1 Hrun b Eb. inv_bind1 Hrun sh Esh.
    by injection Hrun as <-.
  - by injection Hrun as <-.
Qed.

Lemma seg_mean_size : size_seg (fun t => seg_mean l hs t).
Proof.
  intros t m s r Hrun. unfold seg_mean in Hrun.
  inv_bind1 Hrun v Ev. by injection Hrun as <-.
Qed.

(** The body of the loop of lines 77-78 keeps the sizes. *)
Lemma out_body_size t m (iv : T) j (d d' : device T) :
  (xv ← ld (d_x d) (int_add (batch_idx l hs t) j);
   a ← ld (d_alpha d) j;
   b ← ld (d_beta d) j;
   y' ← st (d_y d) (int_add (batch_idx l hs t) j) ((xv ⊖ m) ⊗ iv ⊗ a ⊕ b);
   Ok (Device (d_alpha d) (d_beta d) (d_x d) y' (d_cache d))) = Ok d' ->
  same_size d d'
  /\ 0 <= int_add (batch_idx l hs t) j < Z.of_nat (length (d_x d))
  /\ 0 <= int_add (batch_idx l hs t) j < Z.of_nat (length (d_y d))
  /\ 0 <= j < Z.of_nat (length (d_alpha d))
  /\ 0 <= j < Z.of_nat (length (d_beta d)).
Proof.
  intros Hb.
  inv_bind1 Hb xv Ex. inv_bind1 Hb av Ea. inv_bind1 Hb bv Eb. inv_bind1 Hb y' Ey.
  injection Hb as <-.
  apply ld_inv in Ex as [Hx _], Ea as [Ha _], Eb as [Hbe _].
  pose proof (st_length _ _ _ _ Ey). apply st_inv in Ey as [Hy _].
  repeat split; (done || lia).
Qed.

Lemma seg_out_size : size_seg (fun t => seg_out l hs t).
Proof.
  intros t m s r Hrun. unfold seg_out in Hrun.
  inv_bind1 Hrun v Ev. inv_bind1 Hrun d2 Ed.
  inv_bind1 Hrun c0 Ec0. inv_bind1 Hrun c1 Ec1. injection Hrun as <-.
  apply (for_strided_inv l hs (same_size (dev s))) in Ed; [|..|done].
  - destruct Ed as (Ha & Hb & Hx & Hy & Hc). simpl.
    apply st_length in Ec0, Ec1. unfold same_size. simpl.
    repeat split; congruence.
  - intros j d d' Hd Hb. apply out_body_size in Hb as [Hb _].
    by apply (same_size_trans _ d).
Qed.

Lemma tree_from_size s0 : Forall size_seg (tree_from l s0).
Proof.
  induction s0 as [q IH|q IH|]; simpl.
  - apply Forall_cons_2; [apply seg_tree_size|done].
  - apply Forall_cons_2; [apply seg_tree_size|done].
  - apply Forall_cons_2; [apply seg_tree_size|apply Forall_nil_2].
Qed.

Lemma tree_segs_size : Forall size_seg (tree_segs l).
Proof.
  unfold tree_segs. destruct (int_half (to_int (blockDim_y l)));
    [apply Forall_nil_2|apply tree_from_size|apply Forall_nil_2].
Qed.

Lemma kernel_segments_size : Forall size_seg (kernel_segments l hs).
Proof.
  unfold kernel_segments, phase1, phase2.
  apply Forall_cons_2; [apply seg_sum_size|].
  apply Forall_app. split; [apply tree_segs_size|].
  apply Forall_cons_2; [apply seg_mean_size|].
  apply Forall_cons_2; [apply seg_sumsq_size|].
  apply Forall_app. split; [apply tree_segs_size|].
  apply Forall_cons_2; [apply seg_out_size|apply Forall_nil_2].
Qed.

(** A segment that ends has ended for every thread, on buffers of the sizes
    at the start. *)
Lemma run_segment_visits seg ths : forall s r,
  size_seg seg ->
  run_segment seg ths s = Ok r ->
  same_size (dev s) (dev r.2)
  /\ r.1.*1 = ths.*1
  /\ forall t, t ∈ ths.*1 ->
       exists (m : T) (s1 : bstate T) r1, seg t m s1 = Ok r1 /\ same_size (dev s) (dev s1).
Proof.
  induction ths as [|[t m] ths IH]; intros s r Hseg Hrun; simpl in Hrun.
  - injection Hrun as <-. split; [done|]. split; [done|].
    intros t Ht. by apply elem_of_nil in Ht.
  - inv_bind1 Hrun r1 E1. inv_bind1 Hrun r2 E2. injection Hrun as <-.
    pose proof (Hseg t m s r1 E1) as Hs1.
    destruct (IH r1.2 r2 Hseg E2) as (Hs2 & Hths & Hvis).
    split; [by apply (same_size_trans _ (dev r1.2))|].
    split; [cbn [fst]; rewrite !fmap_cons; cbn [fst]; by rewrite Hths|].
    intros t' Ht'. rewrite fmap_cons in Ht'. apply elem_of_cons in Ht' as [->|Ht'].
    + exists m, s, r1. done.
    + destruct (Hvis t' Ht') as (m' & s1 & r1' & Hrun' & Hs').
      exists m', s1, r1'. split; [done|]. by apply (same_size_trans _ (dev r1.2)).
Qed.

Lemma run_segments_visits segs : forall ths s r,
  Forall size_seg segs ->
  run_segments segs ths s = Ok r ->
  same_size (dev s) (dev r.2)
  /\ forall seg t, seg ∈ segs -> t ∈ ths.*1 ->
       exists (m : T) (s1 : bstate T) r1, seg t m s1 = Ok r1 /\ same_size (dev s) (dev s1).
Proof.
  induction segs as [|seg segs IH]; intros ths s r Hsegs Hrun; simpl in Hrun.
  - injection Hrun as <-. split; [done|]. intros seg t Hin. by apply elem_of_nil in Hin.
  - inv_bind1 Hrun r1 E1. apply Forall_cons in Hsegs as [Hseg Hsegs].
    destruct (run_segment_visits seg ths s r1 Hseg E1) as (Hs1 & Hths & Hvis).
    destruct (IH r1.1 r1.2 r Hsegs Hrun) as (Hs2 & Hvis2).
    split; [by apply (same_size_trans _ (dev r1.2))|].
    intros seg' t Hin Ht. apply elem_of_cons in Hin as [->|Hin].
    + by apply Hvis.
    + destruct (Hvis2 seg' t Hin ltac:(by rewrite Hths)) as (m' & s1 & r1' & Hrun' & Hs').
      exists m', s1, r1'. split; [done|]. by apply (same_size_trans _ (dev r1.2)).
Qed.

Lemma run_block_visits bs sh0 m0 b (d d' : device T) :
  run_block l bs hs sh0 m0 b d = Ok d' ->
  same_size d d'
  /\ forall t, t ∈ block_active l bs b ->
       exists (m : T) (s1 : bstate T) r1, seg_out l hs t m s1 = Ok r1 /\ same_size d (dev s1).
Proof.
  unfold run_block. cbv zeta. intros Hrun. inv_bind1 Hrun r E. injection Hrun as <-.
  destruct (run_segments_visits _ _ _ _ kernel_segments_size E) as (Hs & Hvis).
  split; [done|]. intros t Ht.
  apply (Hvis (fun t => seg_out l hs t) t).
  - unfold kernel_segments. rewrite !elem_of_app. right. right. right.
    apply list_elem_of_here.
  - rewrite <- list_fmap_compose. simpl. by rewrite list_fmap_id.
Qed.

Lemma run_blocks_visits bs sh0 m0 bl : forall d d' : device T,
  run_blocks l bs hs sh0 m0 bl d = Ok d' ->
  same_size d d'
  /\ forall b t, b ∈ bl -> t ∈ block_active l bs b ->
       exists (m : T) (s1 : bstate T) r1, seg_out l hs t m s1 = Ok r1 /\ same_size d (dev s1).
Proof.
  induction bl as [|b bl IH]; intros d d' Hrun; simpl in Hrun.
  - injection Hrun as <-. split; [done|]. intros b t Hb. by apply elem_of_nil in Hb.
  - inv_bind1 Hrun d1 E1.
    destruct (run_block_visits _ _ _ _ _ _ E1) as (Hs1 & Hvis1).
    destruct (IH d1 d' Hrun) as (Hs2 & Hvis2).
    split; [by apply (same_size_trans _ d1)|].
    intros b' t Hb' Ht. apply elem_of_cons in Hb' as [->|Hb'].
    + by apply Hvis1.
    + destruct (Hvis2 b' t Hb' Ht) as (m' & s1 & r1' & Hrun' & Hs').
      exists m', s1, r1'. split; [done|]. by apply (same_size_trans _ d1).
Qed.

(** A loop that ends has run its body at every index it visits. *)
Lemma for_strided_visits {A} (P : A -> Prop) (body : Z -> A -> result A) fuel :
  0 < stride l -> hs + stride l <= INT_MAX + 1 ->
  (forall j a a', P a -> body j a = Ok a' -> P a') ->
  forall i a r, 0 <= i -> P a ->
    for_strided l hs fuel i body a = Ok r ->
    forall j, j ∈ strided (stride l) hs fuel i ->
      exists a1 a2, P a1 /\ body j a1 = Ok a2.
Proof.
  intros Hpos Hint Hbody.
  induction fuel as [|fuel IH]; intros i a r Hi Ha Hrun j Hj; simpl in Hrun, Hj.
  - by apply elem_of_nil in Hj.
  - destruct (Z.ltb_spec i hs) as [Hlt|Hge]; [|by apply elem_of_nil in Hj].
    inv_bind1 Hrun a' Ea.
    apply elem_of_cons in Hj as [->|Hj].
    + by exists a, a'.
    + rewrite int_add_small in Hrun by (unfold in_int, INT_MIN, INT_MAX in *; lia).
      apply (IH (i + stride l) a' r); [lia|by apply (Hbody i a)|done..].
Qed.

End Visits.

Section SizesNeeded.
Import RowModel Reference LayerNorm LayerNormSpec LayerNormSizes.
Context {T : Type} `{Scalar T}.
Variables (l : launch) (bs hs : Z).
Hypothesis wf : wf_launch l bs hs.

Local Tactic Notation "inv_bind1" hyp(H) ident(x) ident(E) :=
  match type of H with
  | mbind _ ?m = Ok _ =>
      destruct m as [x| |] eqn:E; cbn [mbind result_bind] in H; [|discriminate H..]
  end.

(** What a thread that ends the last segment has found in bounds. *)
Lemma seg_out_needs b t m (s : bstate T) r :
  0 <= b < gridDim_x l -> t ∈ block_active l bs b ->
  seg_out l hs t m s = Ok r ->
  2 * row_of l b t + 1 < Z.of_nat (length (d_cache (dev s)))
  /\ forall i, i ∈ strided (blockDim_y l) hs (Z.to_nat hs) (threadIdx_y t) ->
       i < Z.of_nat (length (d_alpha (dev s)))
       /\ i < Z.of_nat (length (d_beta (dev s)))
       /\ row_of l b t * hs + i < Z.of_nat (length (d_x (dev s)))
       /\ row_of l b t * hs + i < Z.of_nat (length (d_y (dev s))).
Proof.
  intros Hb Ht Hrun. unfold seg_out in Hrun.
  inv_bind1 Hrun v Ev. inv_bind1 Hrun d2 Ed.
  inv_bind1 Hrun c0 Ec0. inv_bind1 Hrun c1 Ec1. clear Hrun.
  pose proof (block_active_row_range l bs hs b wf Hb t Ht) as Hrow.
  pose proof (block_active_in_block l bs hs b wf Hb t Ht) as Hin.
  assert (Hbody : forall j (d d' : device T),
            same_size (dev s) d ->
            (xv ← ld (d_x d) (int_add (batch_idx l hs t) j);
             a ← ld (d_alpha d) j;
             b ← ld (d_beta d) j;
             y' ← st (d_y d) (int_add (batch_idx l hs t) j)
                    ((xv ⊖ m) ⊗ s_rsqrt (v ⊘ s_of_int hs ⊕ s_eps) ⊗ a ⊕ b);
             Ok (Device (d_alpha d) (d_beta d) (d_x d) y' (d_cache d))) = Ok d' ->
            same_size (dev s) d').
  { intros j d d' Hd Hbd. apply out_body_size in Hbd as [Hbd _].
    by apply (same_size_trans _ d). }
  split.
  - apply (for_strided_inv l hs (same_size (dev s))) in Ed; [|exact Hbody|done].
    destruct Ed as (_ & _ & _ & _ & Lc).
    pose proof (st_length _ _ _ _ Ec0) as L0.
    apply st_inv in Ec1 as [Hi _].
    rewrite (block_active_batch l bs hs b wf Hb t Ht) in Hi.
    destruct wf. unfold INT_MAX in *.
    rewrite int_mul_small in Hi by (unfold in_int, INT_MIN, INT_MAX; lia).
    rewrite int_add_small in Hi by (unfold in_int, INT_MIN, INT_MAX; lia).
    lia.
  - intros i Hi.
    pose proof (strided_lower _ _ _ _ _ (wf_bdy _ _ _ wf) Hi) as Hir.
    destruct Hin as (_ & _ & Hty).
    rewrite <- (stride_eq l bs hs wf) in Hi.
    destruct (for_strided_visits l hs (same_size (dev s)) _ (loop_fuel hs)
                ltac:(rewrite (stride_eq l bs hs wf); apply wf)
                ltac:(rewrite (stride_eq l bs hs wf); apply wf)
                Hbody (index t) (dev s) d2) with (j := i)
      as (d1 & d1' & Hd1 & Hb1).
    + unfold index. rewrite to_int_small by (destruct wf; apply in_int_bounds; lia). lia.
    + done.
    + exact Ed.
    + unfold index. rewrite to_int_small by (destruct wf; apply in_int_bounds; lia).
      exact Hi.
    + apply out_body_size in Hb1 as (_ & Hx & Hy & Ha & Hbe).
      rewrite (block_active_batch_idx l bs hs b wf Hb t Ht) in Hx, Hy.
      destruct (row_elem_range l bs hs b wf Hb t i Ht ltac:(lia)) as [_ Hint].
      rewrite int_add_small in Hx, Hy by done.
      destruct Hd1 as (La & Lb & Lx & Ly & _). lia.
Qed.

(** The kernel ends only if the buffers hold what the last row needs. *)
Lemma LayerNorm_needs sh0 m0 (d d' : device T) :
  0 < bs -> bs <= gridDim_x l * blockDim_x l ->
  LayerNorm l bs hs sh0 m0 d = Ok d' ->
  2 * bs <= Z.of_nat (length (d_cache d))
  /\ (0 < hs -> at_least bs hs d).
Proof.
  intros Hbs Hcover Hrun. unfold LayerNorm in Hrun.
  apply run_blocks_visits in Hrun as [_ Hvis].
  assert (Hbdx : 0 < blockDim_x l) by apply wf.
  assert (Hbdy : 0 < blockDim_y l) by apply wf.
  set (b := (bs - 1) / blockDim_x l).
  pose proof (Z.mod_pos_bound (bs - 1) (blockDim_x l) Hbdx) as Hmx.
  assert (Hdiv : bs - 1 = blockDim_x l * b + (bs - 1) mod blockDim_x l)
    by (apply Z.div_mod; lia).
  assert (Hb : 0 <= b < gridDim_x l).
  { split; [apply Z.div_pos; lia|]. apply Z.div_lt_upper_bound; nia. }
  assert (Hact : forall ty, 0 <= ty < blockDim_y l ->
            Thread b ((bs - 1) mod blockDim_x l) ty ∈ block_active l bs b
            /\ row_of l b (Thread b ((bs - 1) mod blockDim_x l) ty) = bs - 1).
  { intros ty Hty. split.
    - apply (elem_of_block_active l bs hs b wf Hb). unfold in_block, row_of. simpl.
      split; [done|lia].
    - unfold row_of. simpl. lia. }
  assert (Hcache : 2 * bs <= Z.of_nat (length (d_cache d))).
  { destruct (Hact 0 ltac:(lia)) as [Ht Hr].
    destruct (Hvis b _ ltac:(apply elem_of_seqZ; lia) Ht) as (m & s1 & r1 & Hout & Hs).
    apply (seg_out_needs b) in Hout as [Hc _]; [|done..].
    rewrite Hr in Hc. destruct Hs as (_ & _ & _ & _ & Lc). lia. }
  split; [done|]. intros Hhs.
  pose proof (Z.mod_pos_bound (hs - 1) (blockDim_y l) Hbdy) as Hmy.
  destruct (Hact ((hs - 1) mod blockDim_y l) Hmy) as [Ht Hr].
  destruct (Hvis b _ ltac:(apply elem_of_seqZ; lia) Ht) as (m & s1 & r1 & Hout & Hs).
  apply (seg_out_needs b) in Hout as [_ Hi]; [|done..].
  destruct (Hi (hs - 1)) as (La & Lb & Lx & Ly).
  { pose proof (Z.mod_le (hs - 1) (blockDim_y l) ltac:(lia) Hbdy).
    simpl. apply strided_elem; [done|lia|]. split; [lia|].
    replace (hs - 1 - (hs - 1) mod blockDim_y l)
      with ((hs - 1) / blockDim_y l * blockDim_y l)
      by (pose proof (Z.div_mod (hs - 1) (blockDim_y l) ltac:(lia)); lia).
    apply Z.mod_mul. lia. }
  rewrite Hr in Lx, Ly.
  destruct Hs as (Sa & Sb & Sx & Sy & _). unfold at_least.
  repeat split; (done || nia).
Qed.

End SizesNeeded.

(** ** The loops end *)

Section Fuel.
Import RowModel Reference LayerNorm LayerNormSpec LayerNormSizes.
Context {T : Type} `{Scalar T}.
Variables (l : launch) (bs hs : Z).
Hypothesis wf : wf_launch l bs hs.

Lemma bind_fuel {A B} (m : result A) (f : A -> result B) :
  m <> OutOfFuel -> (forall a, m = Ok a -> f a <> OutOfFuel) ->
  m ≫= f <> OutOfFuel.
Proof. intros Hm Hf. destruct m; simpl; [by apply Hf|done|done]. Qed.

Lemma ld_fuel (a : list T) i : ld a i <> OutOfFuel.
Proof. unfold ld. destruct (i <? 0); [done|]. by destruct (a !! Z.to_nat i). Qed.

Lemma st_fuel (a : list T) i v : st a i v <> OutOfFuel.
Proof. unfold st. by destruct (_ && _). Qed.

Lemma for_strided_fuel {A} (body : Z -> A -> result A) fuel :
  (forall j a, body j a <> OutOfFuel) ->
  forall i a, 0 <= i -> (Z.to_nat (hs - i) <= fuel)%nat ->
    for_strided l hs fuel i body a <> OutOfFuel.
Proof.
  intros Hbody. pose proof (stride_eq l bs hs wf) as Hs.
  induction fuel as [|fuel IH]; intros i a Hi Hfuel; simpl.
  - destruct (Z.ltb_spec i hs); [lia|done].
  - destruct (Z.ltb_spec i hs) as [Hlt|Hge]; [|done].
    apply bind_fuel; [apply Hbody|]. intros a' _.
    destruct wf. rewrite int_add_small by (unfold in_int, INT_MIN, INT_MAX in *; lia).
    apply IH; lia.
Qed.

Local Ltac fuel_steps :=
  repeat first
    [ apply ld_fuel | apply st_fuel | discriminate
    | apply bind_fuel; [|intros ? _] ].

Lemma index_range b t : in_block l b t -> 0 <= index t < blockDim_y l.
Proof. intros Ht. rewrite (index_eq l bs hs wf b t Ht). apply Ht. Qed.

Lemma loop_fuel_enough b t :
  in_block l b t -> (Z.to_nat (hs - index t) <= loop_fuel hs)%nat.
Proof. intros Ht. pose proof (index_range b t Ht). unfold loop_fuel. lia. Qed.

(** No segment runs out of fuel on a thread of a block. *)
Lemma kernel_segments_fuel b seg t m (s : bstate T) :
  seg ∈ kernel_segments l hs -> in_block l b t -> seg t m s <> OutOfFuel.
Proof.
  intros Hseg Ht.
  pose proof (index_range b t Ht) as Hidx.
  pose proof (loop_fuel_enough b t Ht) as Hfuel.
  assert (Htree : forall s0, seg_tree l t s0 m s <> OutOfFuel).
  { intros s0. unfold seg_tree. destruct (index t <? s0); fuel_steps. }
  assert (Htrees : forall seg', seg' ∈ tree_segs l -> seg' t m s <> OutOfFuel).
  { intros seg'. unfold tree_segs.
    destruct (int_half (to_int (blockDim_y l))) as [|p|p];
      [by rewrite elem_of_nil| |by rewrite elem_of_nil].
    induction p as [q IH|q IH|]; simpl; rewrite elem_of_cons;
      (intros [->|Hin]; [apply Htree|]); try (by apply IH).
    by apply elem_of_nil in Hin. }
  unfold kernel_segments, phase1, phase2 in Hseg.
  rewrite !elem_of_app, !elem_of_cons in Hseg.
  destruct Hseg as [[->|Hin]|[[->|Hn]|[[->|Hin]|[->|Hn]]]];
    try (by apply elem_of_nil in Hn).
  - unfold seg_sum. fuel_steps.
    apply for_strided_fuel; [|lia|done]. intros j acc. fuel_steps.
  - by apply Htrees.
  - unfold seg_mean. fuel_steps.
  - unfold seg_sumsq. fuel_steps.
    apply for_strided_fuel; [|lia|done]. intros j acc. fuel_steps.
  - by apply Htrees.
  - unfold seg_out. fuel_steps.
    apply for_strided_fuel; [|lia|done]. intros j acc. fuel_steps.
Qed.

Lemma run_segment_fuel b seg ths : forall s : bstate T,
  seg ∈ kernel_segments l hs -> Forall (in_block l b) ths.*1 ->
  run_segment seg ths s <> OutOfFuel.
Proof.
  induction ths as [|[t m] ths IH]; intros s Hseg Hths; simpl; [done|].
  rewrite fmap_cons in Hths. apply Forall_cons in Hths as [Ht Hths].
  apply bind_fuel; [by apply (kernel_segments_fuel b)|]. intros r _.
  apply bind_fuel; [by apply IH|]. done.
Qed.

Lemma run_segments_fuel b segs : forall ths (s : bstate T),
  segs ⊆ kernel_segments l hs -> Forall (in_block l b) ths.*1 ->
  run_segments segs ths s <> OutOfFuel.
Proof.
  induction segs as [|seg segs IH]; intros ths s Hsegs Hths; simpl; [done|].
  assert (Hseg : seg ∈ kernel_segments l hs) by (apply Hsegs, list_elem_of_here).
  apply bind_fuel; [by apply (run_segment_fuel b)|]. intros r Hr.
  apply IH.
  - intros seg' Hin. by apply Hsegs, list_elem_of_further.
  - destruct (run_segment_visits seg ths s r) as (_ & -> & _); [|done..].
    pose proof (kernel_segments_size l hs) as Hall.
    rewrite Forall_forall in Hall. by apply Hall.
Qed.

Lemma run_block_fuel sh0 m0 b (d : device T) :
  run_block l bs hs sh0 m0 b d <> OutOfFuel.
Proof.
  unfold run_block. cbv zeta. apply bind_fuel; [|done].
  apply (run_segments_fuel b); [done|].
  rewrite <- list_fmap_compose. simpl. rewrite list_fmap_id.
  apply Forall_forall. intros t Ht. apply list_elem_of_filter in Ht as [_ Ht].
  by apply elem_of_block_threads in Ht.
Qed.

Lemma run_blocks_fuel sh0 m0 bl : forall d : device T,
  run_blocks l bs hs sh0 m0 bl d <> OutOfFuel.
Proof.
  induction bl as [|b bl IH]; intros d; simpl; [done|].
  apply bind_fuel; [apply run_block_fuel|]. intros d' _. apply IH.
Qed.

End Fuel.

Section BufferSizes.
Import RowModel Reference LayerNorm LayerNormSpec LayerNormSizes.
Context {T : Type} `{Scalar T}.
Variables (bs hs : Z) (sh0 : Z -> Z -> T) (m0 : T) (d : device T).

Lemma Run_longer :
  in_range bs hs -> at_least bs hs d ->
  exists d1, Run bs hs sh0 m0 (leading bs hs d) = Ok d1
    /\ same_inputs (leading bs hs d) d1
    /\ Run bs hs sh0 m0 d = Ok (extend d1 (behind bs hs d)).
Proof.
  intros Hrange Hlen.
  assert (Hfits : fits bs hs (leading bs hs d))
    by (apply leading_fits; [apply Hrange|apply Hrange|done]).
  destruct (Run_rows bs hs sh0 m0 _ Hrange Hfits) as (d1 & Hrun & Hsame & _).
  exists d1. split; [done|]. split; [done|].
  rewrite <- (extend_leading bs hs d) at 1.
  rewrite Run_unfold in Hrun |- * by done. by apply LayerNorm_ext.
Qed.

(** X9: on buffers that are longer than the kernel assumes, [Run] gives in
    the leading [hidden_size], [batch_size * hidden_size] and [2 * batch_size]
    elements what it gives on buffers of exactly these sizes, and leaves every
    element behind them as it was. *)
Theorem Run_on_longer_buffers :
  in_range bs hs -> at_least bs hs d ->
  exists d1, Run bs hs sh0 m0 (leading bs hs d) = Ok d1
    /\ Run bs hs sh0 m0 d = Ok (extend d1 (behind bs hs d))
    /\ Z.of_nat (length (d_y d1)) = bs * hs
    /\ Z.of_nat (length (d_cache d1)) = 2 * bs.
Proof.
  intros Hrange Hlen.
  destruct (Run_longer Hrange Hlen) as (d1 & Hrun1 & Hsame & Hrun).
  exists d1. split; [done|]. split; [done|].
  destruct Hsame as (_ & _ & _ & -> & ->).
  destruct (leading_fits bs hs d) as (_ & _ & _ & Fy & Fc);
    [apply Hrange|apply Hrange|done|done].
Qed.

(** X10: for a batch that is not empty and rows that are not empty, [Run] ends
    exactly when [alpha] and [beta] hold at least [hidden_size] elements, [x]
    and [y] at least [batch_size * hidden_size] and [cache] at least
    [2 * batch_size]; with a shorter buffer an access falls outside it. *)
Theorem Run_faults_iff_buffer_too_short :
  in_range bs hs -> 0 < bs -> 0 < hs ->
  (at_least bs hs d -> exists d', Run bs hs sh0 m0 d = Ok d')
  /\ (~ at_least bs hs d -> Run bs hs sh0 m0 d = Fault).
Proof.
  intros Hrange Hbs Hhs. split.
  - intros Hlen. destruct (Run_longer Hrange Hlen) as (d1 & _ & _ & Hrun).
    by eexists.
  - intros Hshort. rewrite Run_unfold by done.
    pose proof (run_launch_wf bs hs Hrange) as Hwf.
    destruct (LayerNorm (run_launch bs) bs hs sh0 m0 d) as [d'| |] eqn:Hrun.
    + destruct Hshort.
      destruct (run_launch_cover bs hs Hrange) as [Hg Hc].
      apply (LayerNorm_needs (run_launch bs) bs hs Hwf sh0 m0 d d');
        [done|lia|done|done].
    + done.
    + by apply (run_blocks_fuel (run_launch bs) bs hs Hwf) in Hrun.
Qed.

End BufferSizes.

(** ** Rows at the end of the [int] range *)

Section RowOffsets.
Import RowModel LayerNorm LayerNormSpec.
Context {T : Type} `{Scalar T}.

(** The first reduction of a thread whose indices into [x] and [shared] are
    in range and in bounds. *)
Lemma seg_sum_in_bounds (l : launch) (hs : Z) (t : thread) (m : T)
    (d : device T) (sh : list T) :
  0 < stride l -> hs + stride l <= INT_MAX + 1 -> 0 <= index t ->
  0 <= batch_idx l hs t -> batch_idx l hs t + hs <= INT_MAX + 1 ->
  batch_idx l hs t + hs <= Z.of_nat (length (d_x d)) ->
  0 <= int_add (batch_block_idx l t) (index t) < Z.of_nat (length sh) ->
  exists sh', seg_sum l hs t m (BState d sh) = Ok (m, BState d sh')
    /\ length sh' = length sh.
Proof.
  intros Hs Hloop Hi Hb Hint Hlen Hcell. unfold seg_sum. cbn [dev shared].
  edestruct (for_strided_fold l hs) with (I := fun _ : T => True)
    (g := fun acc j => acc ⊕ get (d_x d) (batch_idx l hs t + j))
    as [-> _]; [exact Hs|exact Hloop|exact Hi| |done| |].
  - unfold loop_fuel. lia.
  - intros j acc _ Hj. split; [|done].
    rewrite int_add_small by (unfold in_int, INT_MIN, INT_MAX in *; lia).
    by rewrite ld_ok by lia.
  - cbn [mbind result_bind]. rewrite st_ok by done. cbn [mbind result_bind].
    eexists. split; [done|]. apply length_insert.
Qed.

(** A thread whose row offset has wrapped below zero reads in front of [x]. *)
Lemma seg_sum_before_x (l : launch) (hs : Z) (t : thread) (m : T) (s : bstate T) :
  index t < hs -> 0 < hs ->
  int_add (batch_idx l hs t) (index t) < 0 ->
  seg_sum l hs t m s = Fault.
Proof.
  intros Hi Hhs Hneg. unfold seg_sum, loop_fuel.
  destruct (Z.to_nat hs) as [|fuel] eqn:E; [lia|]. cbn [for_strided].
  destruct (Z.ltb_spec (index t) hs); [|lia].
  unfold ld. by destruct (Z.ltb_spec (int_add (batch_idx l hs t) (index t)) 0); [|lia].
Qed.

Lemma run_segment_third_faults (seg : segment T) (t0 t1 t2 : thread) (m : T)
    (rest : list (thread * T)) (s s1 s2 : bstate T) :
  seg t0 m s = Ok (m, s1) -> seg t1 m s1 = Ok (m, s2) -> seg t2 m s2 = Fault ->
  run_segment seg ((t0, m) :: (t1, m) :: (t2, m) :: rest) s = Fault.
Proof.
  intros H0 H1 H2. cbn [run_segment]. rewrite H0. cbn [mbind result_bind snd].
  rewrite H1. cbn [mbind result_bind snd]. by rewrite H2.
Qed.

(** With three rows of [2 ^ 30] elements the offset of the third row,
    [2 * 2 ^ 30], is past [INT_MAX]: the first access of its first worker is
    [x[-2147483648]]. *)
Lemma Run_third_row_wraps (hs : Z) (sh0 : Z -> Z -> T) (m0 : T) (d : device T) :
  hs = 2 ^ 30 -> fits 3 hs d -> Run 3 hs sh0 m0 d = Fault.
Proof.
  intros Hhs (_ & _ & Fx & _).
  change (2 ^ 30) with 1073741824 in Hhs.
  set (l := Launch 1 4 256 1024).
  assert (Hrun : Run 3 hs sh0 m0 d
                 = (d' ← run_block l 3 hs (sh0 0) m0 0 d; Ok d')) by done.
  rewrite Hrun. clear Hrun. unfold run_block.
  set (ths := filter _ (block_threads l 0)).
  assert (Hths : ths = Thread 0 0 0 :: Thread 0 1 0 :: Thread 0 2 0 :: drop 3 ths)
    by (vm_compute; reflexivity).
  clearbody ths. rewrite Hths, !fmap_cons.
  unfold kernel_segments, phase1. rewrite <- app_comm_cons. cbn [run_segments].
  set (sh := sh0 0 <$> seqZ 0 (shared_elems l)).
  assert (Hsh : length sh = 1024%nat)
    by (unfold sh; by rewrite length_fmap, length_seqZ).
  clearbody sh.
  assert (Hs : stride l = 256) by done.
  assert (Hb0 : batch_idx l hs (Thread 0 0 0) = 0) by done.
  assert (Hb1 : batch_idx l hs (Thread 0 1 0) = hs).
  { change (batch_idx l hs (Thread 0 1 0)) with (to_int (1 * hs)).
    rewrite Z.mul_1_l, Hhs. done. }
  assert (Hb2 : batch_idx l hs (Thread 0 2 0) = -2147483648).
  { change (batch_idx l hs (Thread 0 2 0)) with (to_int (2 * hs)).
    rewrite Hhs. done. }
  destruct (seg_sum_in_bounds l hs (Thread 0 0 0) m0 d sh) as (sh1 & Hrun1 & Hsh1).
  { rewrite Hs. lia. }
  { rewrite Hs. unfold INT_MAX. lia. }
  { done. }
  { rewrite Hb0. lia. }
  { rewrite Hb0. unfold INT_MAX. lia. }
  { rewrite Hb0. lia. }
  { rewrite Hsh. done. }
  destruct (seg_sum_in_bounds l hs (Thread 0 1 0) m0 d sh1) as (sh2 & Hrun2 & Hsh2).
  { rewrite Hs. lia. }
  { rewrite Hs. unfold INT_MAX. lia. }
  { done. }
  { rewrite Hb1. lia. }
  { rewrite Hb1. unfold INT_MAX. lia. }
  { rewrite Hb1. lia. }
  { rewrite Hsh1, Hsh. done. }
  rewrite (run_segment_third_faults _ _ _ _ _ _ _ _ _ Hrun1 Hrun2); [done|].
  apply seg_sum_before_x.
  - change (index (Thread 0 2 0)) with 0. lia.
  - lia.
  - rewrite Hb2. done.
Qed.

End RowOffsets.

(** ** The rows past the batch *)

Section ExcessRows.
Import RowModel LayerNorm LayerNormSpec LayerNormSizes Inputs Samples.

(** C9 (amended): for sizes in the [int] range, the grid that [Run] computes
    is [batch_size / 4] rounded up, so that it has at most 3 rows past the
    batch, and the launch makes no access past the [hidden_size] leading
    elements of [alpha] and [beta], the [batch_size * hidden_size] leading
    elements of [x] and [y] and the [2 * batch_size] leading elements of
    [cache]: on buffers cut to these sizes, where any other access ends the
    run, [Run] ends; and on the buffers as they are it gives the same
    elements there and leaves every element behind them as it was. *)
Theorem excess_rows_touch_nothing {T : Type} `{Scalar T}
    (bs hs : Z) (sh0 : Z -> Z -> T) (m0 : T) (d : device T) :
  in_range bs hs -> at_least bs hs d ->
  let grid := uint_div (uint_sub (uint_add (to_uint bs) 4) 1) 4 in
  Run bs hs sh0 m0 d = LayerNorm (Launch grid 4 256 (4 * 256)) bs hs sh0 m0 d
  /\ grid = (bs + 3) / 4
  /\ 0 <= grid * 4 - bs <= 3
  /\ exists d1,
       Run bs hs sh0 m0 (leading bs hs d) = Ok d1
       /\ fits bs hs d1
       /\ Run bs hs sh0 m0 d = Ok (extend d1 (behind bs hs d)).
Proof.
  intros Hrange Hlen grid. split; [done|].
  assert (Hgrid : grid = (bs + 3) / 4).
  { destruct Hrange as (Hbs & _ & _ & Hc & _). unfold INT_MAX in Hc.
    unfold grid, uint_div, uint_sub, uint_add.
    rewrite (to_uint_small bs) by (unfold UINT_MOD; lia).
    rewrite (to_uint_small (bs + 4)) by (unfold UINT_MOD; lia).
    rewrite to_uint_small by (unfold UINT_MOD; lia).
    rewrite Z.quot_div_nonneg by lia. f_equal. lia. }
  split; [done|]. split.
  { rewrite Hgrid. apply (run_launch_cover bs hs Hrange). }
  destruct (Run_longer bs hs sh0 m0 d Hrange Hlen) as (d1 & Hrun1 & Hsame & Hrun).
  exists d1. split; [done|]. split; [|done].
  destruct (leading_fits bs hs d) as (Fa & Fb & Fx & Fy & Fc);
    [apply Hrange|apply Hrange|done|].
  destruct Hsame as (Sa & Sb & Sx & Sy & Sc).
  unfold fits. by rewrite Sa, Sb, Sx, Sy, Sc.
Qed.

Lemma long_buffers_at_least : at_least 1 2 long_buffers.
Proof. unfold at_least, long_buffers. simpl. lia. Qed.

Lemma excess_rows_touch_nothing_witness :
  in_range 1 2 /\ at_least 1 2 long_buffers
  /\ uint_div (uint_sub (uint_add (to_uint 1) 4) 1) 4 = (1 + 3) / 4
  /\ exists d1,
       Run 1 2 zeros 0 (leading 1 2 long_buffers) = Ok d1
       /\ fits 1 2 d1
       /\ Run 1 2 zeros 0 long_buffers = Ok (extend d1 (behind 1 2 long_buffers)).
Proof.
  split; [exact unit_row_in_range|]. split; [exact long_buffers_at_least|].
  destruct (excess_rows_touch_nothing 1 2 zeros 0 long_buffers
              unit_row_in_range long_buffers_at_least)
    as (_ & Hgrid & _ & Hrun).
  split; [exact Hgrid|exact Hrun].
Defined.

Lemma wide_fits : fits 3 (2 ^ 30) wide.
Proof.
  unfold fits, wide. cbn [d_alpha d_beta d_x d_y d_cache].
  rewrite !length_replicate. change (2 ^ 30) with 1073741824. lia.
Qed.

(** Past the [int] range: three rows of [2 ^ 30] binary64 numbers, in buffers
    of the sizes that the kernel assumes. The first worker of the third row
    passes the guard, its first index into [x] is -2147483648, and the run
    ends with an access outside a buffer. *)
Lemma Run_reads_in_front_of_x :
  fits 3 (2 ^ 30) wide
  /\ active (run_launch 3) 3 (Thread 0 2 0) = true
  /\ int_add (batch_idx (run_launch 3) (2 ^ 30) (Thread 0 2 0))
       (index (Thread 0 2 0)) = -2147483648
  /\ Run 3 (2 ^ 30) junk 0%float wide = Fault.
Proof.
  split; [exact wide_fits|]. split; [done|]. split; [done|].
  apply Run_third_row_wraps; [done|exact wide_fits].
Qed.

End ExcessRows.

(** ** Binary64: the order of the additions shows *)

Section Rounding.
Import RowModel Reference LayerNorm LayerNormSpec Inputs Samples.

(** Two binary64 numbers with different representations are different. *)
Lemma float_neq (a b : float) : Prim2SF a <> Prim2SF b -> a <> b.
Proof. intros Hne ->. done. Qed.

Lemma some_float_neq (a b : float) : Prim2SF a <> Prim2SF b -> Some a <> Some b.
Proof. intros Hne [= ->]. done. Qed.


(** The arithmetic mean of the row [1, 1e16, -1e16, 1] is 0.5, a binary64
    number; evaluated in binary64 from left to right it is 0.25; [Run] stores
    0. On a row of three times [a], the mean stored is not [a]. And past the
    [int] range, on three rows of [2 ^ 30] elements, [Run] leaves no [cache]
    at all. *)
Lemma binary64_cache_is_not_the_mean :
  float_of_int (foldr Z.add 0 cancelling_row) ⊘ s_of_int 4 = 0.5%float
  /\ mean 4 (row 4 (d_x cancelling) 0) = 0.25%float
  /\ (exists d', Run 1 4 junk 0%float cancelling = Ok d'
        /\ d_cache d' !! 0%nat = Some 0%float
        /\ d_cache d' !! 0%nat <> Some 0.5%float
        /\ d_cache d' !! 0%nat <> Some (mean 4 (row 4 (d_x cancelling) 0)))
  /\ (exists d', Run 1 3 junk 0%float tenths = Ok d'
        /\ d_cache d' !! 0%nat <> Some tenth)
  /\ fits 3 (2 ^ 30) wide
  /\ Run 3 (2 ^ 30) junk 0%float wide = Fault.
Proof.
  split; [vm_compute; reflexivity|]. split; [vm_compute; reflexivity|].
  split; [|split; [|split]].
  - eexists. split; [vm_compute; reflexivity|]. split; [reflexivity|].
    split; apply some_float_neq; vm_compute; discriminate.
  - eexists. split; [vm_compute; reflexivity|].
    apply some_float_neq. vm_compute. discriminate.
  - exact wide_fits.
  - apply Run_third_row_wraps; [done|exact wide_fits].
Qed.

(** In the block that [Run] launches for the row [1, 1e16, -1e16, 1], a
    worker group of 256, the first reduction leaves 0 in the cell of the row.
    The sum of the row is 2; added in binary64 from left to right, as the
    reference does, it is 1. *)
Lemma binary64_reduction_is_not_the_sum :
  float_of_int (foldr Z.add 0 cancelling_row) = 2%float
  /\ sum_list (row 4 (d_x cancelling) 0) = 1%float
  /\ exists sh1,
       run_segments (phase1 (run_launch 1) 4)
         (with_mean (fun _ => 0%float) (block_active (run_launch 1) 1 0))
         (BState cancelling (replicate 1024 0%float))
       = Ok (with_mean (fun _ => 0%float) (block_active (run_launch 1) 1 0),
             BState cancelling sh1)
       /\ get sh1 (batch_block_idx (run_launch 1) (Thread 0 0 0)) = 0%float
       /\ get sh1 (batch_block_idx (run_launch 1) (Thread 0 0 0))
          <> sum_list (row 4 (d_x cancelling) 0)
       /\ get sh1 (batch_block_idx (run_launch 1) (Thread 0 0 0))
          <> float_of_int (foldr Z.add 0 cancelling_row).
Proof.
  split; [vm_compute; reflexivity|]. split; [vm_compute; reflexivity|].
  eexists. split; [vm_compute; reflexivity|]. split; [reflexivity|].
  split; apply float_neq; vm_compute; discriminate.
Qed.

End Rounding.

Section RunAgain.
Import RowModel Reference LayerNorm LayerNormSpec.

(** X11: launching [Run] again on its own result changes nothing: the inputs
    are as they were, and every element of [y] and [cache] is written again
    with the value it has. Shared memory and the local variables may hold
    other garbage the second time. *)
Theorem Run_twice {T : Type} `{Scalar T}
    (bs hs : Z) (sh0 sh1 : Z -> Z -> T) (m0 m1 : T) (d : device T) :
  in_range bs hs -> fits bs hs d ->
  exists d', Run bs hs sh0 m0 d = Ok d' /\ Run bs hs sh1 m1 d' = Ok d'.
Proof.
  intros Hrange Hfits.
  pose proof (run_launch_wf bs hs Hrange) as Hwf.
  destruct (Run_spec bs hs Hrange sh0 m0 d Hfits) as (d' & Hrun & Hdone).
  assert (Hfits' : fits bs hs d')
    by (apply (fits_same_inputs bs hs d); [done|apply Hdone]).
  destruct (Run_spec bs hs Hrange sh1 m1 d' Hfits') as (d'' & Hrun' & Hdone').
  exists d'. split; [done|]. rewrite Hrun'. f_equal.
  apply (rows_done_unique (run_launch bs) bs hs 0 bs d');
    [lia|apply Hrange|done|].
  destruct Hdone as ((Ha & Hb & Hx & _) & Hy & _ & Hc & _).
  split; [done|]. split; [|split; [done|split; [|done]]].
  - intros r i Hr Hbs Hi. rewrite Ha, Hb, Hx. by apply Hy.
  - intros r Hr Hbs. rewrite Hx. by apply Hc.
Qed.

End RunAgain.

(** ** A worker group that is not a power of two *)

Section OddWorkers.
Import RowModel Reference LayerNorm LayerNormSpec.
Context {T : Type} `{Scalar T}.

Lemma partial_blind n hs (f f' : Z -> T) k :
  0 < n -> 0 <= k < n - 1 ->
  (forall i, 0 <= i < hs -> i mod n <> n - 1 -> f i = f' i) ->
  partial n hs f k = partial n hs f' k.
Proof.
  intros Hn Hk Hf. unfold partial. f_equal. apply list_fmap_ext.
  intros ? i Hi%list_elem_of_lookup_2.
  apply strided_elem in Hi as [Hr Hm]; [|done|lia].
  apply Hf; [lia|].
  apply Z.mod_divide in Hm as [q Hq]; [|lia].
  replace i with (k + q * n) by lia.
  rewrite Z.mod_add by lia. rewrite Z.mod_small by lia. lia.
Qed.

Lemma k_mean_blind n hs (f f' : Z -> T) :
  3 <= n -> Z.odd n = true ->
  (forall i, 0 <= i < hs -> i mod n <> n - 1 -> f i = f' i) ->
  k_mean n hs f = k_mean n hs f'.
Proof.
  intros Hn Hodd Hf. unfold k_mean. f_equal.
  unfold tree_reduce, int_half.
  assert (Hhalf : 2 * Z.quot n 2 = n - 1).
  { rewrite Z.quot_div_nonneg by lia.
    pose proof (Zdiv2_odd_eqn n) as Hdiv. rewrite Hodd in Hdiv.
    rewrite Z.div2_div in Hdiv. lia. }
  destruct (Z.quot n 2) as [|s|s] eqn:Hq; [lia| |lia].
  apply (tree_red_ext (n - 1)); [lia|lia|].
  intros k Hk. apply partial_blind; (done || lia).
Qed.

(** X18: the halving rounds assume a number of workers per row that is a power
    of two. On a launch with an odd number [n >= 3] of workers the partial sum
    of the last worker is never added: the mean that the kernel stores does
    not depend on the elements [x[r][i]] with [i mod n = n - 1]. ([Run] always
    launches 256 workers.) *)
Theorem odd_worker_group_drops_elements
    (l : launch) (bs hs : Z) (sh0 sh1 : Z -> Z -> T) (m0 m1 : T)
    (d1 d2 : device T) :
  wf_launch l bs hs -> 3 <= blockDim_y l -> Z.odd (blockDim_y l) = true ->
  0 <= gridDim_x l -> bs <= gridDim_x l * blockDim_x l ->
  fits bs hs d1 -> fits bs hs d2 ->
  (forall r i, 0 <= r < bs -> 0 <= i < hs -> i mod blockDim_y l <> blockDim_y l - 1 ->
     d_x d1 !! Z.to_nat (r * hs + i) = d_x d2 !! Z.to_nat (r * hs + i)) ->
  exists d1' d2',
    LayerNorm l bs hs sh0 m0 d1 = Ok d1' /\ LayerNorm l bs hs sh1 m1 d2 = Ok d2'
    /\ forall r, 0 <= r < bs ->
         d_cache d1' !! Z.to_nat (2 * r) = d_cache d2' !! Z.to_nat (2 * r).
Proof.
  intros Hwf Hn Hodd Hg Hcover Hfits1 Hfits2 Hx.
  destruct (LayerNorm_spec l bs hs Hwf sh0 m0 d1 Hg Hcover Hfits1)
    as (d1' & Hrun1 & (_ & _ & _ & _ & Lc1) & _ & _ & Hc1 & _).
  destruct (LayerNorm_spec l bs hs Hwf sh1 m1 d2 Hg Hcover Hfits2)
    as (d2' & Hrun2 & (_ & _ & _ & _ & Lc2) & _ & _ & Hc2 & _).
  exists d1', d2'. split; [done|]. split; [done|]. intros r Hr.
  destruct Hfits1 as (_ & _ & _ & _ & Fc1), Hfits2 as (_ & _ & _ & _ & Fc2).
  rewrite !get_lookup by (rewrite ?Lc1, ?Lc2; lia). f_equal.
  destruct (Hc1 r ltac:(lia) ltac:(lia)) as [-> _].
  destruct (Hc2 r ltac:(lia) ltac:(lia)) as [-> _].
  apply k_mean_blind; [done|done|].
  intros i Hi Hmod. unfold x_row, get. by rewrite Hx.
Qed.

End OddWorkers.

(** * The GRU harness: further properties *)

Section GruInputFacts.
Import Gru GruInput.
Context {F : Type}.
Variable fzero : F.
Variable place : list device_ptr -> Z -> Z.
Variable Iterate : ForwardPass -> iterate_args F -> (Z -> F) -> (Z -> F).
Variables (W R bx br x : Tensor F) (dv : device F).

Local Abbreviation tr := (GruInference fzero place Iterate W R bx br x dv).
Local Abbreviation setup := (gru_buffers fzero place W R bx br x dv).
Local Abbreviation time_steps := (dimension x 2).
Local Abbreviation batch_size := (dimension x 1).
Local Abbreviation input_size := (dimension x 0).
Local Abbreviation hidden_size := (dimension R 1).

Lemma x_dev_size : size (x_dev (bufs tr)) = Z.of_nat (length (elems x)).
Proof. by rewrite GruInference_bufs. Qed.

Lemma gru_loop_mem fwd b l : forall s,
  (foldl (gru_step fzero Iterate fwd b batch_size input_size hidden_size) s l).1
  = foldl (fun m a => Iterate fwd a m) s.1
      (call_args fzero b batch_size input_size hidden_size <$> l).
Proof. induction l as [|t l IH]; intros s; simpl; [done|]. by rewrite IH. Qed.

Lemma GruInference_mem :
  mem (dev tr)
  = foldl (fun m a =>
             Iterate {| training := false; fp_batch_size := batch_size;
                        fp_input_size := input_size;
                        fp_hidden_size := hidden_size |} a m)
      (mem setup.2) (calls tr).
Proof.
  rewrite GruInference_calls, GruInference_bufs. unfold GruInference.
  destruct setup as [b dv']. simpl. by rewrite gru_loop_mem.
Qed.

Section XInRange.
Hypothesis range : x_in_range x.

Lemma x_dims_eq :
  time_steps = nth 2 (dims x) 0 /\ batch_size = nth 1 (dims x) 0
  /\ input_size = nth 0 (dims x) 0.
Proof.
  destruct range as (? & ? & ? & _). unfold dimension.
  rewrite !to_int_small by (by apply in_int_bounds). done.
Qed.

Lemma x_dims_range :
  0 <= time_steps /\ 0 <= batch_size /\ 0 <= input_size
  /\ time_steps * batch_size * input_size <= INT_MAX
  /\ Z.of_nat (length (elems x)) = time_steps * batch_size * input_size.
Proof.
  destruct x_dims_eq as (-> & -> & ->).
  destruct range as (? & ? & ? & ? & ?). repeat split; (done || lia).
Qed.

Lemma x_offset t :
  0 <= t < time_steps ->
  int_mul (int_mul t batch_size) input_size = t * (batch_size * input_size).
Proof.
  intros Ht. destruct x_dims_range as (Hts & Hb & Hi & Hall & _).
  rewrite int_mul3; [lia|]. apply in_int_bounds.
  assert (0 <= batch_size * input_size) by nia.
  split; nia.
Qed.

Lemma x_calls_lookup t args :
  0 <= t -> calls tr !! Z.to_nat t = Some args ->
  t < time_steps
  /\ args = call_args fzero (bufs tr) batch_size input_size hidden_size t.
Proof.
  intros Ht Hargs. rewrite GruInference_calls, list_lookup_fmap in Hargs.
  destruct (seqZ 0 time_steps !! Z.to_nat t) as [t'|] eqn:Hl; [|done].
  apply lookup_seqZ in Hl as [-> Hlt]. injection Hargs as <-.
  split; [lia|]. f_equal. lia.
Qed.

Lemma calls_x t args :
  0 <= t -> calls tr !! Z.to_nat t = Some args ->
  t < time_steps
  /\ a_x args = data (x_dev (bufs tr)) + t * (batch_size * input_size).
Proof.
  intros Ht Hargs. destruct (x_calls_lookup t args Ht Hargs) as [Hlt ->].
  split; [done|]. unfold call_args. cbn [a_x]. by rewrite x_offset by lia.
Qed.

End XInRange.

(** X12: the call of [Iterate] at timestep [t] gets the address
    [t * batch_size * input_size] elements into the copy of [x]; the slices
    of [batch_size * input_size] elements of the timesteps lie within the
    buffer, share no address, and together they are the whole buffer. *)
Theorem input_slices_tile_x :
  x_in_range x ->
  let n := dimension x 1 * dimension x 0 in
  let b := bufs tr in
  size (x_dev b) = dimension x 2 * n
  /\ (forall t args, 0 <= t -> calls tr !! Z.to_nat t = Some args ->
        a_x args = data (x_dev b) + t * n
        /\ data (x_dev b) <= a_x args
        /\ a_x args + n <= data (x_dev b) + size (x_dev b))
  /\ (forall t t' args args', 0 <= t -> 0 <= t' -> t <> t' ->
        calls tr !! Z.to_nat t = Some args ->
        calls tr !! Z.to_nat t' = Some args' ->
        forall a, ~ (in_slice (a_x args) n a /\ in_slice (a_x args') n a))
  /\ (forall a, in_slice (data (x_dev b)) (size (x_dev b)) a ->
        exists t args, 0 <= t /\ calls tr !! Z.to_nat t = Some args
          /\ in_slice (a_x args) n a).
Proof.
  intros Hrange n b. subst n b.
  pose proof (x_dims_range Hrange) as (Hts & Hb & Hi & Hall & Hlen).
  assert (Hn : 0 <= batch_size * input_size) by nia.
  assert (Hsize : size (x_dev (bufs tr)) = time_steps * (batch_size * input_size))
    by (rewrite x_dev_size, Hlen; lia).
  split; [done|]. split; [|split].
  - intros t args Ht Hargs.
    destruct (calls_x Hrange t args Ht Hargs) as [Hlt ->].
    rewrite Hsize. split; [done|]. split; nia.
  - intros t t' args args' Ht Ht' Hne Hargs Hargs' a [Ha Ha'].
    destruct (calls_x Hrange t args Ht Hargs) as [_ Heq].
    destruct (calls_x Hrange t' args' Ht' Hargs') as [_ Heq'].
    unfold in_slice in Ha, Ha'. rewrite Heq in Ha. rewrite Heq' in Ha'.
    assert (t < t' \/ t' < t) as [Hlt|Hlt] by lia; nia.
  - intros a Ha. unfold in_slice in Ha. rewrite Hsize in Ha.
    set (n := batch_size * input_size) in *.
    set (o := a - data (x_dev (bufs tr))) in *.
    assert (Hnpos : 0 < n) by nia.
    pose proof (Z.div_mod o n ltac:(lia)) as Hdm.
    pose proof (Z.mod_pos_bound o n Hnpos) as Hmod.
    assert (Ht : 0 <= o / n < time_steps).
    { split; [apply Z.div_pos; lia|]. apply Z.div_lt_upper_bound; [done|]. nia. }
    destruct (lookup_lt_is_Some_2 (calls tr) (Z.to_nat (o / n))) as [args Hargs].
    { pose proof (f_equal Z.of_nat
                    (f_equal length
                       (GruInference_calls fzero place Iterate W R bx br x dv))) as Hl.
      rewrite length_fmap, length_seqZ in Hl. lia. }
    exists (o / n), args. split; [lia|]. split; [done|].
    destruct (calls_x Hrange (o / n) args ltac:(lia) Hargs) as [_ ->].
    unfold in_slice. fold n. lia.
Qed.

(** X13: the hidden state is updated in place and the steps are chained:
    every call of [Iterate] gets [h_dev.data] as [h] and as [h_out], the same
    weights and biases, no [v_out], no zoneout mask and zoneout probability
    zero; and device memory at the end is what the calls, applied one after
    the other in the order of the timesteps by an inference-mode
    [ForwardPass], make of the memory left by [h_dev.zero()]. *)
Theorem hidden_state_updated_in_place :
  let b := bufs tr in
  let forward := {| training := false; fp_batch_size := dimension x 1;
                    fp_input_size := dimension x 0;
                    fp_hidden_size := dimension R 1 |} in
  (forall args, args ∈ calls tr ->
     a_h args = data (h_dev b) /\ a_h_out args = data (h_dev b)
     /\ a_W args = data (W_dev b) /\ a_R args = data (R_dev b)
     /\ a_bx args = data (bx_dev b) /\ a_br args = data (br_dev b)
     /\ a_v args = None /\ a_zoneout_mask args = None
     /\ a_zoneout_prob args = fzero)
  /\ mem (dev tr)
     = foldl (fun m args => Iterate forward args m)
         (mem (gru_buffers fzero place W R bx br x dv).2) (calls tr).
Proof.
  intros b forward. subst b forward. split; [|apply GruInference_mem].
  intros args Hargs. rewrite GruInference_calls in Hargs.
  apply list_elem_of_fmap in Hargs as (t & -> & _). done.
Qed.

End GruInputFacts.

(** ** The calls of [GruInference] *)

Section ScopeFacts.
Import Gru Host.
Context {F : Type}.
Variable fzero : F.
Variable place : list device_ptr -> Z -> Z.
Variables (W R bx br x : Tensor F) (dv : device F).

Local Abbreviation b := (gru_buffers fzero place W R bx br x dv).1.
Local Abbreviation forward :=
  {| training := false; fp_batch_size := dimension x 1;
     fp_input_size := dimension x 0; fp_hidden_size := dimension R 1 |}.
Local Abbreviation scope_calls := (Host.scope_calls fzero place W R bx br x dv).

Lemma for_each_emit {A} (l : list A) (f : A -> call F) : forall s,
  for_each l (fun a => emit (f a)) s
  = (tt, {| log := log s ++ (f <$> l); events := events s |}).
Proof.
  induction l as [|a l IH]; intros s.
  - simpl. rewrite app_nil_r. by destruct s.
  - cbn [for_each]. unfold mbind, cuda_mbind, cuda_bind.
    cbn [emit]. rewrite IH. cbn [log events]. by rewrite <- app_assoc.
Qed.

Lemma bind_run {A B} (m : cuda F A) (f : A -> cuda F B) (s : runtime F) :
  (m ≫= f) s = f (m s).1 (m s).2.
Proof. unfold mbind, cuda_mbind, cuda_bind. by destruct (m s). Qed.

Lemma GruInference_scope_log (s : runtime F) :
  GruInference_scope fzero place W R bx br x dv s
  = (tt, {| log := log s ++ scope_calls (events s); events := S (S (events s)) |}).
Proof.
  unfold GruInference_scope, ScopeTimer_new, ScopeTimer_delete. cbv zeta.
  repeat first
    [ rewrite bind_run
    | rewrite for_each_emit
    | progress cbn [fst snd emit new_event log events msg_ start_ stop_
                    mret cuda_mret cuda_ret] ].
  unfold emit. cbn [log events].
  f_equal. f_equal. unfold Host.scope_calls. cbv zeta.
  rewrite <- !app_assoc. reflexivity.
Qed.

Lemma before_app_none (p : call F -> bool) (l1 l2 : list (call F)) :
  (forall c, c ∈ l1 -> p c = false) ->
  before p (l1 ++ l2) = l1 ++ before p l2.
Proof.
  induction l1 as [|c l1 IH]; intros Hno; [done|]. simpl.
  rewrite (Hno c) by apply list_elem_of_here. f_equal. apply IH.
  intros c' Hc'. by apply Hno, list_elem_of_further.
Qed.

Lemma after_app_none (p : call F -> bool) (l1 l2 : list (call F)) :
  (forall c, c ∈ l1 -> p c = false) ->
  after p (l1 ++ l2) = after p l2.
Proof.
  induction l1 as [|c l1 IH]; intros Hno; [done|]. simpl.
  rewrite (Hno c) by apply list_elem_of_here. apply IH.
  intros c' Hc'. by apply Hno, list_elem_of_further.
Qed.

Lemma release_head {A} `{EqDecision A} (a : A) (l : list A) :
  release a (a :: l) = Some l.
Proof. simpl. by rewrite decide_True. Qed.

Lemma release_second {A} `{EqDecision A} (a c : A) (l : list A) :
  a <> c -> release a (c :: a :: l) = Some (c :: l).
Proof. intros Hne. simpl. by rewrite decide_False, decide_True. Qed.


Lemma lifetimes_app (cs1 cs2 : list (call F)) : forall r,
  lifetimes (cs1 ++ cs2) r = r' ← lifetimes cs1 r; lifetimes cs2 r'.
Proof.
  induction cs1 as [|c cs1 IH]; intros r; [done|].
  destruct r as [ev bufs blas fps]. cbn [app lifetimes].
  destruct c; try apply IH.
  - destruct (held e ev); [done|apply IH].
  - destruct (held e ev); [apply IH|done].
  - destruct (held e ev); [apply IH|done].
  - destruct (held start ev && held stop ev); [apply IH|done].
  - destruct (release e ev); [apply IH|done].
  - destruct blas; [done|apply IH].
  - destruct (blas && bool_decide (fps = [])); [apply IH|done].
  - destruct (held p bufs); [apply IH|done].
  - destruct (release p bufs); [apply IH|done].
  - destruct blas; [apply IH|done].
  - destruct (blas && held f fps && args_live bufs args); [apply IH|done].
  - destruct (release f fps); [apply IH|done].
Qed.

Lemma held_in {A} `{EqDecision A} (a : A) (l : list A) : a ∈ l -> held a l = true.
Proof. apply bool_decide_eq_true_2. Qed.

(** Calls of [Iterate] on a [ForwardPass] that exists, with the handle and
    with pointers into buffers that exist, change nothing of what is held. *)
Lemma lifetimes_iterates {A} (f : ForwardPass) (g : A -> iterate_args F)
    (l : list A) (r : resources) :
  r_blas r = true -> f ∈ r_passes r ->
  (forall a, a ∈ l -> args_live (r_buffers r) (g a) = true) ->
  lifetimes ((fun a => ForwardPass_Iterate f (g a)) <$> l) r = Some r.
Proof.
  destruct r as [ev bufs blas fps]. cbn [r_blas r_passes r_buffers].
  intros -> Hf. induction l as [|a l IH]; intros Hargs; [done|].
  rewrite fmap_cons. cbn [lifetimes].
  rewrite (held_in f fps Hf), Hargs by apply list_elem_of_here. cbn [andb].
  apply IH. intros a' Ha'. by apply Hargs, list_elem_of_further.
Qed.

Lemma live_in (bufs : list device_ptr) (p : device_ptr) (a : Z) :
  p ∈ bufs -> in_buffer a p = true -> live bufs a = true.
Proof.
  intros Hp Ha. unfold live. induction bufs as [|q bufs IH].
  - by apply elem_of_nil in Hp.
  - cbn [existsb]. apply elem_of_cons in Hp as [<-|Hp].
    + by rewrite Ha.
    + rewrite IH by done. apply orb_true_r.
Qed.

Lemma live_base (bufs : list device_ptr) (p : device_ptr) :
  p ∈ bufs -> live bufs (data p) = true.
Proof.
  intros Hp. apply (live_in bufs p); [done|]. unfold in_buffer.
  by rewrite Z.eqb_refl.
Qed.

Lemma live_offset (bufs : list device_ptr) (p : device_ptr) (k n : Z) :
  p ∈ bufs -> 0 <= k -> 0 <= n -> (k + 1) * n <= size p ->
  live bufs (data p + k * n) = true.
Proof.
  intros Hp Hk Hn Hsize. apply (live_in bufs p); [done|]. unfold in_buffer.
  destruct (Z.eqb_spec (data p) (data p + k * n)) as [|Hne]; [done|].
  destruct (Z.ltb_spec (data p) (data p + k * n)); [|nia].
  destruct (Z.ltb_spec (data p + k * n) (data p + size p)); [done|nia].
Qed.

Section ScopeInRange.
Hypothesis range : sizes_in_range x R.
Hypothesis x_range : GruInput.x_in_range x.

(** The pointers that [GruInference] passes to [Iterate] at timestep [t]
    refer to its eight buffers. *)
Lemma call_args_live (bufs : list device_ptr) (t : Z) :
  0 <= t < dimension x 2 ->
  (forall p, p ∈ [W_dev b; R_dev b; bx_dev b; br_dev b; x_dev b; h_dev b;
                  tmp_Wx_dev b; tmp_Rh_dev b] -> p ∈ bufs) ->
  args_live bufs
    (call_args fzero b (dimension x 1) (dimension x 0) (dimension R 1) t) = true.
Proof.
  intros Ht Hin.
  pose (It := fun (_ : ForwardPass) (_ : iterate_args F) (m : Z -> F) => m).
  pose proof (Wx_size fzero place It W R bx br x dv range) as HWx.
  pose proof (x_dev_size fzero place It W R bx br x dv) as Hx.
  rewrite GruInference_bufs in HWx, Hx.
  destruct (x_dims_range x x_range) as (HT & HN & HC & _ & Hlen).
  destruct (dims_range R x range) as (_ & _ & HH & _).
  unfold args_live, call_args.
  cbn [a_W a_R a_bx a_br a_x a_h a_h_out a_v a_tmp_Wx a_tmp_Rh a_zoneout_mask
       live_or_null].
  rewrite (x_offset x x_range t Ht), (Wx_offset R x range t Ht).
  rewrite !live_base by (apply Hin; rewrite !elem_of_cons; auto 20).
  rewrite !live_offset; [done|..];
    try (apply Hin; rewrite !elem_of_cons; auto 20); try nia.
Qed.

(** The calls of [GruInference] start and end with the same events, buffers
    and [ForwardPass] objects, and every call is made on what exists. *)
Lemma scope_releases_lifetimes (s : runtime F) (r : resources) :
  r_blas r = true ->
  (forall e, e ∈ r_events r -> (e < events s)%nat) ->
  lifetimes (scope_calls (events s)) r = Some r.
Proof.
  destruct r as [ev bufs blas fps]. cbn [r_blas r_events]. intros -> Hfresh.
  set (n := events s) in *.
  assert (Hn : held n ev = false).
  { apply bool_decide_eq_false_2. intros Hin. apply Hfresh in Hin. lia. }
  assert (Hn' : held (S n) (n :: ev) = false).
  { apply bool_decide_eq_false_2. intros Hin.
    apply elem_of_cons in Hin as [?|Hin]; [lia|]. apply Hfresh in Hin. lia. }
  unfold Host.scope_calls. cbv zeta. rewrite lifetimes_app.
  cbn [lifetimes app].
  rewrite held_in by (rewrite !elem_of_cons; auto 20).
  rewrite Hn, Hn'.
  rewrite held_in by (rewrite !elem_of_cons; auto 20).
  cbn [mbind option_bind].
  rewrite lifetimes_app, lifetimes_iterates.
  - cbn [mbind option_bind lifetimes].
    rewrite release_head. cbn [mbind option_bind].
    rewrite !held_in by (rewrite !elem_of_cons; auto 20).
    cbn [andb].
    rewrite (release_second n (S n)) by lia. cbn [mbind option_bind].
    repeat (rewrite release_head; cbn [mbind option_bind]). done.
  - done.
  - cbn [r_passes]. apply list_elem_of_here.
  - intros t Ht. apply elem_of_seqZ in Ht. cbn [r_buffers].
    apply call_args_live; [lia|].
    intros p Hp. rewrite !elem_of_cons in Hp |- *.
    rewrite elem_of_nil in Hp. intuition.
Qed.

End ScopeInRange.
End ScopeFacts.
Section ScopeResults.
Import Gru Host.
Context {F : Type}.
Variable fzero : F.
Variable place : list device_ptr -> Z -> Z.
Variable Iterate : ForwardPass -> iterate_args F -> (Z -> F) -> (Z -> F).
Variables (W R bx br x : Tensor F) (dv : device F).

(** X14: what the timer of [GruInference] measures. Before the record of
    the start event the function constructs the eight buffers, zeroes the
    hidden state, creates the two events, which are new, and waits for the
    device; between the record of the start event and the record of the stop
    event it constructs the inference-mode [ForwardPass], calls [Iterate] once
    per timestep with the arguments that [GruInference] passes, in the order
    of the timesteps, and destroys the [ForwardPass]; after it, it waits for
    the stop event, reads and prints the time, destroys the events and
    releases the buffers, the last constructed first. *)
Theorem timer_measures_the_loop (s : runtime F) :
  let forward := {| training := false; fp_batch_size := dimension x 1;
                    fp_input_size := dimension x 0;
                    fp_hidden_size := dimension R 1 |} in
  let tr := GruInference fzero place Iterate W R bx br x dv in
  let b := bufs tr in
  let start := events s in
  let stop := S (events s) in
  exists cs,
    (GruInference_scope fzero place W R bx br x dv s).2
    = {| log := log s ++ cs; events := S (S (events s)) |}
    /\ before (is_record start) cs
       = [device_ptr_new (W_dev b); device_ptr_new (R_dev b);
          device_ptr_new (bx_dev b); device_ptr_new (br_dev b);
          device_ptr_new (x_dev b); device_ptr_new (h_dev b);
          device_ptr_new (tmp_Wx_dev b); device_ptr_new (tmp_Rh_dev b);
          device_ptr_zero (h_dev b);
          cudaEventCreate start; cudaEventCreate stop; cudaDeviceSynchronize]
    /\ timed start stop cs
       = [ForwardPass_new forward]
         ++ (ForwardPass_Iterate forward <$> calls tr)
         ++ [ForwardPass_delete forward]
    /\ after (is_record stop) cs
       = [cudaEventSynchronize stop; cudaEventElapsedTime start stop;
          printf "Inference time:";
          cudaEventDestroy start; cudaEventDestroy stop;
          device_ptr_delete (tmp_Rh_dev b); device_ptr_delete (tmp_Wx_dev b);
          device_ptr_delete (h_dev b); device_ptr_delete (x_dev b);
          device_ptr_delete (br_dev b); device_ptr_delete (bx_dev b);
          device_ptr_delete (R_dev b); device_ptr_delete (W_dev b)].
Proof.
  intros forward tr b start stop.
  exists (scope_calls fzero place W R bx br x dv (events s)).
  split; [by rewrite GruInference_scope_log|].
  assert (Hne : Nat.eqb stop start = false) by (apply Nat.eqb_neq; unfold stop, start; lia).
  assert (Hiter : forall c,
            c ∈ (fun t => ForwardPass_Iterate forward
                            (call_args fzero (gru_buffers fzero place W R bx br x dv).1
                               (dimension x 1) (dimension x 0) (dimension R 1) t))
                <$> seqZ 0 (dimension x 2) ->
            forall e, is_record e c = false).
  { intros c Hc e. apply list_elem_of_fmap in Hc as (a & -> & _). done. }
  unfold b, tr. rewrite GruInference_bufs.
  unfold timed, scope_calls. cbv zeta.
  fold start stop forward. cbn [app after before is_record].
  rewrite Nat.eqb_refl, Hne.
  split; [done|]. split.
  - change (ForwardPass_new ?f :: ?l ++ ?r) with ((ForwardPass_new f :: l) ++ r).
    rewrite before_app_none.
    + cbn [before is_record app]. rewrite Nat.eqb_refl.
      rewrite GruInference_calls, GruInference_bufs.
      by rewrite <- list_fmap_compose.
    + intros c Hc. apply elem_of_cons in Hc as [->|Hc]; [done|]. by apply Hiter.
  - rewrite after_app_none by (intros c Hc; by apply Hiter).
    cbn [after is_record]. by rewrite Nat.eqb_refl.
Qed.

(** X15: [GruInference] releases what it acquires and calls nothing on what
    does not exist. For sizes in the [int] range, with the handle of the
    matrix-multiply backend in existence: every event is created once,
    recorded, waited for and read while it exists, and destroyed once; every
    buffer is zeroed and released while it exists; the [ForwardPass] is
    constructed once and destroyed once, after the last call of [Iterate];
    every call of [Iterate] is made on the [ForwardPass] while it exists, and
    each of its pointers is null or refers to a buffer that exists at that
    call; and the events, buffers and [ForwardPass] objects that exist after
    the call are those that existed before it. *)
Theorem scope_releases_what_it_acquires (s : runtime F) (r : resources) :
  sizes_in_range x R -> GruInput.x_in_range x ->
  r_blas r = true ->
  (forall e, e ∈ r_events r -> (e < events s)%nat) ->
  exists cs,
    log (GruInference_scope fzero place W R bx br x dv s).2 = log s ++ cs
    /\ lifetimes cs r = Some r.
Proof.
  intros Hrange Hx Hblas Hfresh.
  exists (scope_calls fzero place W R bx br x dv (events s)).
  split; [by rewrite GruInference_scope_log|].
  by apply scope_releases_lifetimes.
Qed.

End ScopeResults.

(** ** [main] *)

Section Main.
Import Gru GruInput Host.
Context {F : Type}.
Variable fzero : F.
Variable place : list device_ptr -> Z -> Z.
Variable Iterate : ForwardPass -> iterate_args F -> (Z -> F) -> (Z -> F).
Variables (rW rR rbx rbr rx : Z -> F) (dv : device F).

Local Abbreviation W := (main_W rW).
Local Abbreviation R := (main_R rR).
Local Abbreviation bx := (main_bx rbx).
Local Abbreviation br := (main_br rbr).
Local Abbreviation x := (main_x rx).
Local Abbreviation tr := (GruInference fzero place Iterate W R bx br x dv).

Lemma length_random_tensor (ds : list Z) (rnd : Z -> F) :
  0 <= foldr Z.mul 1 ds ->
  Z.of_nat (length (elems (random_tensor ds rnd))) = foldr Z.mul 1 ds.
Proof.
  intros Hds. unfold random_tensor. cbn [elems].
  rewrite length_fmap, length_seqZ. by apply Z2Nat.id.
Qed.

Lemma main_dims :
  dimension x 2 = 1000 /\ dimension x 1 = 64 /\ dimension x 0 = 512
  /\ dimension R 1 = 512.
Proof.
  unfold dimension, main_x, main_R, random_tensor. cbn [dims nth]. by vm_compute.
Qed.

Lemma main_in_range : sizes_in_range x R.
Proof.
  unfold sizes_in_range, main_x, main_R, random_tensor. cbn [dims nth].
  vm_compute. repeat split; discriminate.
Qed.

Lemma main_x_in_range : x_in_range x.
Proof.
  unfold x_in_range, main_x.
  rewrite length_random_tensor by (vm_compute; discriminate).
  unfold random_tensor. cbn [dims nth].
  vm_compute. repeat split; discriminate.
Qed.

Lemma main_scratch_sizes :
  size (h_dev (bufs tr)) = 64 * 512
  /\ size (W_dev (bufs tr)) = 3 * 512 * 512
  /\ size (R_dev (bufs tr)) = 3 * 512 * 512
  /\ size (bx_dev (bufs tr)) = 3 * 512
  /\ size (br_dev (bufs tr)) = 3 * 512.
Proof.
  rewrite GruInference_bufs.
  unfold gru_buffers, device_ptr_of, device_ptr_scratch.
  cbn [fst snd h_dev W_dev R_dev bx_dev br_dev size].
  destruct main_dims as (_ & -> & _ & ->).
  unfold main_W, main_R, main_bx, main_br.
  rewrite !length_random_tensor by (vm_compute; discriminate).
  by vm_compute.
Qed.

(** X16: [main] stays within the sizes for which [GruInference] is safe: with
    [x] of 512 x 64 x 1000 and [R] of 1536 x 512, every product of sizes and
    every offset fits in [int]; [Iterate] is called 1000 times; the buffers
    hold 512 * 64 * 1000 elements ([x]), 1000 * 64 * 3 * 512 (input side),
    64 * 3 * 512 (recurrent side) and 64 * 512 (hidden state); the weights
    and biases hold three times the hidden size per unit, as the gates need.
    The random values of the tensors do not matter. *)
Theorem main_sizes_fit :
  sizes_in_range x R /\ x_in_range x
  /\ Z.of_nat (length (calls tr)) = 1000
  /\ size (x_dev (bufs tr)) = 1000 * 64 * 512
  /\ size (tmp_Wx_dev (bufs tr)) = 1000 * 64 * 3 * 512
  /\ size (tmp_Rh_dev (bufs tr)) = 64 * 3 * 512
  /\ size (h_dev (bufs tr)) = 64 * 512
  /\ size (W_dev (bufs tr)) = 3 * 512 * 512
  /\ size (R_dev (bufs tr)) = 3 * 512 * 512
  /\ size (bx_dev (bufs tr)) = 3 * 512
  /\ size (br_dev (bufs tr)) = 3 * 512.
Proof.
  pose proof main_in_range as Hr. pose proof main_x_in_range as Hx.
  destruct main_dims as (Dt & Db & Di & Dh).
  split; [done|]. split; [done|].
  split; [by rewrite (calls_length fzero place Iterate W R bx br x dv Hr)|].
  split.
  { rewrite x_dev_size. destruct Hx as (_ & _ & _ & _ & ->).
    unfold main_x, random_tensor. cbn [dims nth]. by vm_compute. }
  split; [rewrite (Wx_size fzero place Iterate W R bx br x dv Hr), Dt, Db, Dh; done|].
  split; [rewrite (Rh_size fzero place Iterate W R bx br x dv Hr), Db, Dh; done|].
  apply main_scratch_sizes.
Qed.

Lemma scope_calls_no_blas (n : nat) (c : call F) :
  c ∈ scope_calls fzero place W R bx br x dv n -> is_blas c = false.
Proof.
  unfold scope_calls. cbv zeta. rewrite !elem_of_app. intros [Hc|[Hc|Hc]].
  - repeat (apply elem_of_cons in Hc as [->|Hc]; [done|]).
    by apply elem_of_nil in Hc.
  - by apply list_elem_of_fmap in Hc as (t & -> & _).
  - repeat (apply elem_of_cons in Hc as [->|Hc]; [done|]).
    by apply elem_of_nil in Hc.
Qed.

(** X17: [main] returns 0 and holds the handle of the matrix-multiply backend
    for as long as it is needed. Its first call creates the handle and its
    last call destroys it; the calls between the two are those of
    [GruInference], none of which creates or destroys the handle, so that the
    handle exists when the [ForwardPass] is constructed and at every call of
    [Iterate], and is destroyed once, after the [ForwardPass] is destroyed and
    the buffers are released. Every call of [main] is made on what exists, as
    in X15, and what [main] holds at its end is what it held at its start. *)
Theorem main_holds_the_blas_handle
    (s : runtime F) (ev : list nat) (bufs : list device_ptr) :
  (forall e, e ∈ ev -> (e < events s)%nat) ->
  exists mid,
    main fzero place rW rR rbx rbr rx dv s
    = (0, {| log := log s ++ [cublasCreate] ++ mid ++ [cublasDestroy];
             events := S (S (events s)) |})
    /\ log (GruInference_scope fzero place W R bx br x dv
              {| log := log s ++ [cublasCreate]; events := events s |}).2
       = (log s ++ [cublasCreate]) ++ mid
    /\ (forall c, c ∈ mid -> is_blas c = false)
    /\ lifetimes ([cublasCreate] ++ mid)
         {| r_events := ev; r_buffers := bufs; r_blas := false; r_passes := [] |}
       = Some {| r_events := ev; r_buffers := bufs; r_blas := true;
                 r_passes := [] |}
    /\ lifetimes ([cublasCreate] ++ mid ++ [cublasDestroy])
         {| r_events := ev; r_buffers := bufs; r_blas := false; r_passes := [] |}
       = Some {| r_events := ev; r_buffers := bufs; r_blas := false;
                 r_passes := [] |}.
Proof.
  intros Hfresh.
  exists (scope_calls fzero place W R bx br x dv (events s)).
  pose proof (scope_releases_lifetimes fzero place W R bx br x dv
                main_in_range main_x_in_range s
                {| r_events := ev; r_buffers := bufs; r_blas := true;
                   r_passes := [] |} eq_refl Hfresh) as Hlife.
  split; [|split; [|split; [|split]]].
  - unfold main.
    rewrite bind_run. cbn [emit fst snd].
    rewrite bind_run, GruInference_scope_log. cbn [fst snd log events].
    rewrite bind_run. cbn [emit fst snd log events].
    unfold mret, cuda_mret, cuda_ret. by rewrite <- !app_assoc.
  - by rewrite GruInference_scope_log.
  - apply scope_calls_no_blas.
  - cbn [app lifetimes]. exact Hlife.
  - cbn [app lifetimes]. rewrite lifetimes_app, Hlife. done.
Qed.

End Main.

(** * The further properties on concrete inputs *)

Section KernelWitnesses.
Import RowModel Reference LayerNorm LayerNormSpec LayerNormSizes LayerNormSchedule.
Import Inputs Samples.

Lemma one_row_in_range : in_range 1 1.
Proof. unfold in_range, INT_MAX. lia. Qed.

Lemma one_row_fits : fits 1 1 one_row.
Proof. by repeat split. Qed.

Lemma three_in_range : in_range 1 3.
Proof. unfold in_range, INT_MAX. lia. Qed.

Lemma three_fits : fits 1 3 three.
Proof. by repeat split. Qed.

Lemma Run_any_arithmetic_witness :
  exists d', Run 1 2 junk 0%float unit_row = Ok d'
    /\ d_cache d' !! 0%nat
       = Some (tree_reduce 256 (partial 256 2 (x_row (d_x unit_row) 2 0))
               ⊘ s_of_int 2).
Proof.
  destruct (Run_any_arithmetic 1 2 junk 0%float unit_row
              unit_row_in_range unit_row_fits) as (d' & Hrun & _ & Hc).
  exists d'. split; [exact Hrun|]. apply (Hc 0). lia.
Defined.

Lemma row_result_independent_of_batch_witness :
  exists d1' d2',
    Run 2 1 zeros 0 two_rows = Ok d1' /\ Run 1 1 sevens 9 one_row = Ok d2'
    /\ row 1 (d_y d1') 1 = row 1 (d_y d2') 0
    /\ row 2 (d_cache d1') 1 = row 2 (d_cache d2') 0.
Proof.
  apply (row_result_independent_of_batch 2 1 1 zeros sevens 0 9 two_rows one_row 1 0).
  - exact two_rows_in_range.
  - exact one_row_in_range.
  - exact two_rows_fits.
  - exact one_row_fits.
  - reflexivity.
  - reflexivity.
  - lia.
  - lia.
  - reflexivity.
Defined.

Lemma tenths_fits : fits 1 3 tenths.
Proof. by repeat split. Qed.

Lemma small_block_range : 0 <= 0 < gridDim_x small_launch.
Proof. unfold small_launch. simpl. lia. Qed.

Lemma alternating_perm (k : nat) : alternating k ≡ₚ block_active small_launch 1 0.
Proof.
  unfold alternating. destruct (Nat.even k); vm_compute; [apply perm_swap|reflexivity].
Qed.

Lemma block_result_independent_of_thread_order_witness :
  exists r,
    run_segments_in alternating 0 (kernel_segments small_launch 3)
      ((fun t => (t, 5%float)) <$> block_active small_launch 1 0)
      (BState tenths [8; 8]%float)
    = Ok r
    /\ run_block small_launch 1 3 (junk 0) 0%float 0 tenths = Ok (dev r.2).
Proof.
  apply (block_result_independent_of_thread_order small_launch 1 3 0
           small_launch_wf small_block_range (junk 0) 0%float 5%float tenths
           alternating [8; 8]%float).
  - exact tenths_fits.
  - exact alternating_perm.
  - unfold small_launch. simpl. lia.
Defined.

Lemma LayerNorm_any_launch_witness :
  exists d', LayerNorm small_launch 1 3 junk 0%float tenths = Ok d'
    /\ d_cache d' !! 0%nat
       = Some (tree_reduce 2 (partial 2 3 (x_row (d_x tenths) 3 0)) ⊘ s_of_int 3).
Proof.
  destruct (LayerNorm_any_launch small_launch 1 3 junk 0%float tenths)
    as (d' & Hrun & _ & Hc & _).
  - exact small_launch_wf.
  - unfold small_launch. simpl. lia.
  - unfold small_launch. simpl. lia.
  - exact tenths_fits.
  - exists d'. split; [exact Hrun|]. apply (Hc 0). lia.
Defined.

Lemma Run_empty_batch_witness : Run 0 5 junk 0%float unit_row = Ok unit_row.
Proof. apply (Run_empty_batch 0 5 junk 0%float unit_row). lia. Defined.

Lemma no_columns_in_range : in_range 2 0.
Proof. unfold in_range, INT_MAX. lia. Qed.

Lemma no_columns_fits : fits 2 0 no_columns.
Proof. by repeat split. Qed.

Lemma binary64_zero_add : (s_zero ⊕ s_zero : float) = s_zero.
Proof. reflexivity. Qed.

Lemma Run_zero_hidden_size_witness :
  (s_zero ⊕ s_zero : float) = s_zero
  /\ (s_zero ⊘ s_of_int 0 : float) = nan
  /\ exists d', Run 2 0 junk 0%float no_columns = Ok d'
       /\ d_cache d' !! 2%nat = Some (s_zero ⊘ s_of_int 0).
Proof.
  split; [exact binary64_zero_add|]. split; [reflexivity|].
  destruct (Run_zero_hidden_size 2 junk 0%float no_columns binary64_zero_add
              no_columns_in_range no_columns_fits) as (d' & Hrun & _ & _ & Hc).
  exists d'. split; [exact Hrun|]. apply (Hc 1). lia.
Defined.

Lemma two_blocks_wf : wf_launch two_blocks 2 1.
Proof. split; unfold two_blocks, INT_MAX; simpl; lia. Qed.

Lemma blocks_in_any_order_witness :
  exists d', LayerNorm two_blocks 2 1 zeros 0 two_rows = Ok d'
    /\ run_blocks two_blocks 2 1 sevens 9 [1; 0] two_rows = Ok d'.
Proof.
  apply (blocks_in_any_order two_blocks 2 1 zeros sevens 0 9 two_rows [1; 0]).
  - exact two_blocks_wf.
  - exact two_rows_fits.
  - vm_compute. apply perm_swap.
Defined.

Lemma Run_on_longer_buffers_witness :
  exists d1, Run 1 2 zeros 0 (leading 1 2 long_buffers) = Ok d1
    /\ Run 1 2 zeros 0 long_buffers = Ok (extend d1 (behind 1 2 long_buffers)).
Proof.
  destruct (Run_on_longer_buffers 1 2 zeros 0 long_buffers
              unit_row_in_range long_buffers_at_least) as (d1 & Hrun1 & Hrun & _).
  exists d1. split; [exact Hrun1|exact Hrun].
Defined.

Lemma Run_faults_iff_buffer_too_short_witness :
  Run 1 2 zeros 0 short_x = Fault.
Proof.
  apply (Run_faults_iff_buffer_too_short 1 2 zeros 0 short_x).
  - exact unit_row_in_range.
  - lia.
  - lia.
  - unfold at_least, short_x. simpl. lia.
Defined.

Lemma Run_twice_witness :
  exists d', Run 1 2 junk 0%float unit_row = Ok d' /\ Run 1 2 junk 1%float d' = Ok d'.
Proof.
  apply (Run_twice 1 2 junk junk 0%float 1%float unit_row).
  - exact unit_row_in_range.
  - exact unit_row_fits.
Defined.

Lemma three_workers_wf : wf_launch three_workers 1 3.
Proof. split; unfold three_workers, INT_MAX; simpl; lia. Qed.

Lemma three'_fits : fits 1 3 three'.
Proof. by repeat split. Qed.

Lemma odd_worker_group_drops_elements_witness :
  exists d1' d2',
    LayerNorm three_workers 1 3 zeros 0 three = Ok d1'
    /\ LayerNorm three_workers 1 3 zeros 0 three' = Ok d2'
    /\ d_cache d1' !! 0%nat = d_cache d2' !! 0%nat.
Proof.
  destruct (odd_worker_group_drops_elements three_workers 1 3 zeros zeros 0 0
              three three') as (d1' & d2' & Hrun1 & Hrun2 & Hc).
  - exact three_workers_wf.
  - unfold three_workers. simpl. lia.
  - reflexivity.
  - unfold three_workers. simpl. lia.
  - unfold three_workers. simpl. lia.
  - exact three_fits.
  - exact three'_fits.
  - intros r i Hr Hi Hmod. unfold three_workers in Hmod. simpl in Hmod.
    assert (r = 0) as -> by lia.
    assert (i = 0 \/ i = 1 \/ i = 2) as [->|[->| ->]] by lia.
    + reflexivity.
    + reflexivity.
    + exfalso. apply Hmod. reflexivity.
  - exists d1', d2'. split; [exact Hrun1|]. split; [exact Hrun2|].
    apply (Hc 0). lia.
Defined.

End KernelWitnesses.

Section HarnessWitnesses.
Import Gru GruInput Host Inputs Samples.

Lemma x_host_x_in_range : x_in_range x_host.
Proof. unfold x_in_range, x_host, INT_MAX. simpl. lia. Qed.

Lemma input_slices_tile_x_witness :
  let tr := GruInference 0 bump some_Iterate W_host R_host bx_host br_host x_host
              fresh_device in
  size (x_dev (bufs tr)) = dimension x_host 2 * (dimension x_host 1 * dimension x_host 0).
Proof.
  intros tr.
  destruct (input_slices_tile_x 0 bump some_Iterate W_host R_host bx_host br_host
              x_host fresh_device x_host_x_in_range) as (Hsize & _).
  exact Hsize.
Defined.

Lemma scope_releases_what_it_acquires_witness :
  sizes_in_range x_host R_host /\ x_in_range x_host
  /\ exists cs,
       log (GruInference_scope 0 bump W_host R_host bx_host br_host x_host
              fresh_device fresh_runtime).2 = log fresh_runtime ++ cs
       /\ lifetimes cs handle_only = Some handle_only.
Proof.
  split; [exact x_host_in_range|]. split; [exact x_host_x_in_range|].
  apply (scope_releases_what_it_acquires 0 bump W_host R_host bx_host br_host
           x_host fresh_device fresh_runtime handle_only
           x_host_in_range x_host_x_in_range eq_refl).
  intros e He. inversion He.
Defined.

Lemma main_holds_the_blas_handle_witness :
  exists mid,
    main 0 bump (zeros 0) (zeros 0) (zeros 0) (zeros 0) (zeros 0) fresh_device
      fresh_runtime
    = (0, {| log := log fresh_runtime ++ [cublasCreate] ++ mid ++ [cublasDestroy];
             events := S (S (events fresh_runtime)) |})
    /\ lifetimes ([cublasCreate] ++ mid ++ [cublasDestroy]) nothing_held
       = Some nothing_held.
Proof.
  destruct (main_holds_the_blas_handle 0 bump (zeros 0) (zeros 0) (zeros 0)
              (zeros 0) (zeros 0) fresh_device fresh_runtime [] [])
    as (mid & Hmain & _ & _ & _ & Hlife).
  - intros e He. inversion He.
  - exists mid. split; [exact Hmain|exact Hlife].
Defined.

(** The calls that [lifetimes] refuses: [Iterate] with a pointer to a buffer
    that has been released, and the destruction of the handle while a
    [ForwardPass] exists. *)
Example Iterate_after_release :
  lifetimes [device_ptr_new some_buffer; ForwardPass_new some_pass;
             device_ptr_delete some_buffer;
             ForwardPass_Iterate some_pass some_args] handle_only = None
  /\ lifetimes [device_ptr_new some_buffer; ForwardPass_new some_pass;
                ForwardPass_Iterate some_pass some_args;
                ForwardPass_delete some_pass;
                device_ptr_delete some_buffer] handle_only = Some handle_only.
Proof. split; reflexivity. Qed.

Example handle_destroyed_too_early :
  lifetimes (F := Z)
    [cublasCreate; ForwardPass_new some_pass; cublasDestroy;
     ForwardPass_delete some_pass] nothing_held = None
  /\ lifetimes (F := Z)
       [cublasCreate; ForwardPass_new some_pass; ForwardPass_delete some_pass;
        cublasDestroy] nothing_held = Some nothing_held.
Proof. split; reflexivity. Qed.

End HarnessWitnesses.
